(** * LKH Vision Solver: the geospatial TSP instance pipeline

    A shallow embedding of [python_scripts/tsp_converter.py],
    [python_scripts/visualize_tour.py] and the pipeline methods of
    [LKH_Vision_Solver.py], with the properties of the specification stated
    and settled against it.

    Conventions.
    - A Python [float] (and a [numpy.float64]) is an IEEE 754 binary64 value:
      a primitive [float], whose correctly rounded operations are specified
      by [SpecFloat] at precision 53.
    - A Python [int] is a [Z].
    - The bytes of a file are a [string], one character per byte. A file
      read as text is decoded as UTF-8; an ASCII text is its own decoding,
      and the operations of [str] are embedded as they act on ASCII text:
      the properties of the tour parsers are stated for ASCII files. The
      headers of a table are ASCII strings.
    - A Python exception is a value of [exn] carried by the [res] monad. *)

From Stdlib Require Import ZArith Bool Ascii String Floats Lia.
From stdpp Require Import base option list gmap strings pretty.

Open Scope Z_scope.
Open Scope string_scope.

Set Warnings "-clear-no-such-hyp".

(** ** Exceptions and the error monad *)

Inductive exn : Type :=
  | ValueError (msg : string)
  | OverflowError (msg : string)
  | IndexError (msg : string)
  | FileNotFoundError (path : string)
  | UnicodeDecodeError (encoding : string).

Inductive res (A : Type) : Type :=
  | Ok (a : A)
  | Raise (e : exn).
Arguments Ok {A} a.
Arguments Raise {A} e.

Definition rbind {A B : Type} (x : res A) (k : A -> res B) : res B :=
  match x with
  | Ok a => k a
  | Raise e => Raise e
  end.

Notation "'do' x <- e ; k" := (rbind e (fun x => k))
  (at level 10, x name, e at level 100, k at level 200).

Definition is_ok {A : Type} (x : res A) : bool :=
  match x with Ok _ => true | Raise _ => false end.

(** ** Strings as Python uses them *)

Module PyStr.

(** [str.isspace] on the ASCII range: TAB, LF, VT, FF, CR, the four
    separators FS GS RS US, and the space. *)
Definition is_space (c : ascii) : bool :=
  let n := nat_of_ascii c in
  ((9 <=? n)%nat && (n <=? 13)%nat) || ((28 <=? n)%nat && (n <=? 32)%nat).

Fixpoint lstrip (s : string) : string :=
  match s with
  | String c r => if is_space c then lstrip r else s
  | EmptyString => EmptyString
  end.

(** Trailing whitespace: a character is dropped when it is a space and
    everything after it has been dropped. *)
Fixpoint rstrip (s : string) : string :=
  match s with
  | EmptyString => EmptyString
  | String c r =>
      match rstrip r with
      | EmptyString => if is_space c then EmptyString else String c EmptyString
      | r' => String c r'
      end
  end.

(** [s.strip()] *)
Definition strip (s : string) : string := rstrip (lstrip s).

Definition is_digit (c : ascii) : bool :=
  let n := nat_of_ascii c in (48 <=? n)%nat && (n <=? 57)%nat.

Definition digit_value (c : ascii) : Z := Z.of_nat (nat_of_ascii c) - 48.

(** The digit part of a decimal literal accepted by [int(str)]: digits,
    with single underscores allowed between digits. *)
Fixpoint int_digits (acc : Z) (after_digit : bool) (s : string) : option Z :=
  match s with
  | EmptyString => if after_digit then Some acc else None
  | String c r =>
      if is_digit c then int_digits (10 * acc + digit_value c) true r
      else if Ascii.eqb c "_" && after_digit then int_digits acc false r
      else None
  end.

(** [sys.get_int_max_str_digits()], as the interpreter starts. *)
Definition int_max_str_digits : Z := 4300.

(** The digits of a literal, its underscores not counted. *)
Fixpoint count_digits (s : string) : Z :=
  match s with
  | EmptyString => 0%Z
  | String c r => if is_digit c then (1 + count_digits r)%Z else count_digits r
  end.

(** The literal after its sign: a literal of more than
    [int_max_str_digits] digits is refused with a [ValueError], as a
    malformed one is. *)
Definition int_literal (r : string) : option Z :=
  if (int_max_str_digits <? count_digits r)%Z then None
  else int_digits 0 false r.

(** The white space that [int] skips around an ASCII literal
    ([Py_ISSPACE]): TAB, LF, VT, FF, CR and the space, without the four
    separators that [str.strip] removes too. *)
Definition is_c_space (c : ascii) : bool :=
  let n := nat_of_ascii c in
  ((9 <=? n)%nat && (n <=? 13)%nat) || (n =? 32)%nat.

Fixpoint int_lstrip (s : string) : string :=
  match s with
  | String c r => if is_c_space c then int_lstrip r else s
  | EmptyString => EmptyString
  end.

Fixpoint int_rstrip (s : string) : string :=
  match s with
  | EmptyString => EmptyString
  | String c r =>
      match int_rstrip r with
      | EmptyString => if is_c_space c then EmptyString else String c EmptyString
      | r' => String c r'
      end
  end.

(** [int(s)] for an ASCII [str] in base 10: surrounding whitespace is
    removed, an optional sign follows, then the digits. [None] stands for
    the [ValueError] the caller catches. *)
Definition int (s : string) : option Z :=
  match int_rstrip (int_lstrip s) with
  | String "-" r => Z.opp <$> int_literal r
  | String "+" r => int_literal r
  | r => int_literal r
  end.

(** [s.startswith(p)] *)
Fixpoint startswith (p s : string) : bool :=
  match p with
  | EmptyString => true
  | String a p' =>
      match s with
      | EmptyString => false
      | String b s' => Ascii.eqb a b && startswith p' s'
      end
  end.

(** [s.split(sep)] for a one-character separator. *)
Fixpoint split_on (sep : ascii) (cur : string) (s : string) : list string :=
  match s with
  | EmptyString => [cur]
  | String c r =>
      if Ascii.eqb c sep then cur :: split_on sep EmptyString r
      else split_on sep (cur ++ String c EmptyString) r
  end.

Definition split (sep : ascii) (s : string) : list string :=
  split_on sep EmptyString s.

Definition LF : ascii := ascii_of_nat 10.
Definition CR : ascii := ascii_of_nat 13.

(** Iterating over a file opened in text mode: the content is cut at
    every LF, CR or CR LF; a last line without a terminator counts. The
    lines are given here without their terminator, which [strip] removes
    anyway. *)
Fixpoint lines_from (cur : string) (after_cr : bool) (s : string) : list string :=
  match s with
  | EmptyString => match cur with EmptyString => [] | _ => [cur] end
  | String c r =>
      if Ascii.eqb c LF then
        if after_cr then lines_from EmptyString false r
        else cur :: lines_from EmptyString false r
      else if Ascii.eqb c CR then cur :: lines_from EmptyString true r
      else lines_from (cur ++ String c EmptyString) false r
  end.

Definition lines (content : string) : list string :=
  lines_from EmptyString false content.

(** Every byte is below 128. *)
Definition is_ascii (s : string) : bool :=
  forallb (fun c => (N_of_ascii c <? 128)%N) (list_ascii_of_string s).

Definition byte_in (lo hi : N) (c : ascii) : bool :=
  ((lo <=? N_of_ascii c)%N && (N_of_ascii c <=? hi)%N)%bool.

(** The ranges of the bytes that must follow a first byte of a
    well-formed UTF-8 sequence; [None] for a byte that cannot start
    one. Overlong forms, surrogates and code points above U+10FFFF are
    excluded, as the [utf-8] codec excludes them. *)
Definition utf8_lead (c : ascii) : option (list (N * N)) :=
  let b := N_of_ascii c in
  let cont := (128, 191)%N in
  if (b <? 128)%N then Some []
  else if byte_in 194 223 c then Some [cont]
  else if (b =? 224)%N then Some [(160, 191)%N; cont]
  else if byte_in 225 236 c then Some [cont; cont]
  else if (b =? 237)%N then Some [(128, 159)%N; cont]
  else if byte_in 238 239 c then Some [cont; cont]
  else if (b =? 240)%N then Some [(144, 191)%N; cont; cont]
  else if byte_in 241 243 c then Some [cont; cont; cont]
  else if (b =? 244)%N then Some [(128, 143)%N; cont; cont]
  else None.

(** The bytes are well-formed UTF-8; [pending] holds the ranges of the
    bytes still owed to the sequence under way. *)
Fixpoint utf8_valid_from (pending : list (N * N)) (s : string) : bool :=
  match s with
  | EmptyString => match pending with [] => true | _ => false end
  | String c r =>
      match pending with
      | (lo, hi) :: rest => byte_in lo hi c && utf8_valid_from rest r
      | [] =>
          match utf8_lead c with
          | Some pending' => utf8_valid_from pending' r
          | None => false
          end
      end
  end.

Definition utf8_valid (content : string) : bool := utf8_valid_from [] content.

End PyStr.

(** ** The file system, as far as the pipeline reads it *)

(** [open(path, 'r', encoding='utf-8')] followed by iteration over the
    lines: [fs] gives the bytes of the files that exist. Bytes that are not
    UTF-8 raise [UnicodeDecodeError]. The lines are kept as bytes: those of
    an ASCII file are its text, and the properties below that depend on the
    text of the lines are stated for ASCII files. *)
Definition read_lines (fs : gmap string string) (path : string) : res (list string) :=
  match fs !! path with
  | Some content =>
      if PyStr.utf8_valid content then Ok (PyStr.lines content)
      else Raise (UnicodeDecodeError "utf-8")
  | None => Raise (FileNotFoundError path)
  end.

(** ** Tour parser *)

Module TourParser.

(** [line in ['-1', 'EOF', '']] *)
Definition is_terminator (line : string) : bool :=
  String.eqb line "-1" || String.eqb line "EOF" || String.eqb line EmptyString.

Definition nonempty {A : Type} (l : list A) : bool :=
  match l with [] => false | _ => true end.

(** The loop of [TourToExcelConverter._parse_tour] over the lines of the
    file, from the state [(in_tour_section, tour_order)]. *)
Fixpoint parse_tour_loop (lines : list string) (in_tour_section : bool)
    (tour_order : list Z) : list Z :=
  match lines with
  | [] => tour_order
  | raw :: rest =>
      let line := PyStr.strip raw in
      if String.eqb line "TOUR_SECTION" then parse_tour_loop rest true tour_order
      else if is_terminator line then
        if in_tour_section && nonempty tour_order then tour_order
        else parse_tour_loop rest in_tour_section tour_order
      else if in_tour_section then
        match PyStr.int line with
        | Some node_id => parse_tour_loop rest in_tour_section (tour_order ++ [node_id])
        | None => parse_tour_loop rest in_tour_section tour_order
        end
      else parse_tour_loop rest in_tour_section tour_order
  end.

(** [TourToExcelConverter._parse_tour]: the value left in
    [self.tour_order]. *)
Definition _parse_tour (fs : gmap string string) (tour_path : string) : res (list Z) :=
  do lines <- read_lines fs tour_path;
  Ok (parse_tour_loop lines false []).

(** [int(line.split('=')[1].strip())] under [try: ... except: pass]. *)
Definition comment_length (line : string) : option Z :=
  match PyStr.split "=" line with
  | _ :: v :: _ => PyStr.int (PyStr.strip v)
  | _ => None
  end.

(** The loop of [visualize_tour.parse_tour_file], from the state
    [(in_tour_section, tour_order, tour_length)]. *)
Fixpoint parse_tour_file_loop (lines : list string) (in_tour_section : bool)
    (tour_order : list Z) (tour_length : option Z) : list Z * option Z :=
  match lines with
  | [] => (tour_order, tour_length)
  | raw :: rest =>
      let line := PyStr.strip raw in
      let tour_length :=
        if PyStr.startswith "COMMENT : Length =" line then
          match comment_length line with
          | Some n => Some n
          | None => tour_length
          end
        else tour_length in
      if String.eqb line "TOUR_SECTION" then
        parse_tour_file_loop rest true tour_order tour_length
      else if is_terminator line then
        if in_tour_section && nonempty tour_order then (tour_order, tour_length)
        else parse_tour_file_loop rest in_tour_section tour_order tour_length
      else if in_tour_section then
        match PyStr.int line with
        | Some node_id =>
            parse_tour_file_loop rest in_tour_section (tour_order ++ [node_id]) tour_length
        | None => parse_tour_file_loop rest in_tour_section tour_order tour_length
        end
      else parse_tour_file_loop rest in_tour_section tour_order tour_length
  end.

(** [visualize_tour.parse_tour_file] *)
Definition parse_tour_file (fs : gmap string string) (tour_path : string)
    : res (list Z * option Z) :=
  do lines <- read_lines fs tour_path;
  Ok (parse_tour_file_loop lines false [] None).

End TourParser.

(** ** Python floats and the [math] module *)

Module PyFloat.

Open Scope float_scope.

(** [Py_MATH_PI], the double nearest to pi. *)
Definition PI : float := 0x1.921fb54442d18p+1.

(** [degToRad = Py_MATH_PI / 180.0] of [mathmodule.c]. *)
Definition degToRad : float := PI / 180.

(** [math.radians(x)] *)
Definition radians (x : float) : float := x * degToRad.

Definition copysign (x y : float) : float :=
  if get_sign y then - (abs x) else abs x.

(** The exact integer value of [int(x)]-like conversions needs the
    mantissa and exponent: the value of a finite float is [m * 2^e]. *)
Definition round_half_even_pos (m : positive) (e : Z) : Z :=
  if (0 <=? e)%Z then (Z.pos m * 2 ^ e)%Z
  else
    let d := (2 ^ (- e))%Z in
    let q := (Z.pos m / d)%Z in
    let r := (Z.pos m mod d)%Z in
    if (2 * r <? d)%Z then q
    else if (d <? 2 * r)%Z then (q + 1)%Z
    else if Z.even q then q else (q + 1)%Z.

(** The built-in [round(x)] of a float with one argument: the nearest
    integer, a tie going to the even neighbour; [ValueError] on NaN and
    [OverflowError] on an infinity. *)
Definition round (x : float) : res Z :=
  match Prim2SF x with
  | S754_nan => Raise (ValueError "cannot convert float NaN to integer")
  | S754_infinity _ => Raise (OverflowError "cannot convert float infinity to integer")
  | S754_zero _ => Ok 0%Z
  | S754_finite s m e =>
      let z := round_half_even_pos m e in Ok (if s then (- z)%Z else z)
  end.

(** Rounding with ties away from zero, the rule of the specification. *)
Definition round_half_away_pos (m : positive) (e : Z) : Z :=
  if (0 <=? e)%Z then (Z.pos m * 2 ^ e)%Z
  else
    let d := (2 ^ (- e))%Z in
    let q := (Z.pos m / d)%Z in
    let r := (Z.pos m mod d)%Z in
    if (2 * r <? d)%Z then q else (q + 1)%Z.

Definition round_half_away (x : float) : res Z :=
  match Prim2SF x with
  | S754_nan => Raise (ValueError "cannot convert float NaN to integer")
  | S754_infinity _ => Raise (OverflowError "cannot convert float infinity to integer")
  | S754_zero _ => Ok 0%Z
  | S754_finite s m e =>
      let z := round_half_away_pos m e in Ok (if s then (- z)%Z else z)
  end.

(** The conversion of an [int] operand in [float * int]: correctly
    rounded, [OverflowError] when the integer is too large. *)
Definition of_int (z : Z) : res float :=
  let x := SF2Prim (binary_normalize prec emax z 0 false) in
  if is_infinity x then Raise (OverflowError "int too large to convert to float")
  else Ok x.

(** [math.sqrt(x)]: [math_1] around the correctly rounded square root. *)
Definition math_sqrt (x : float) : res float :=
  let r := sqrt x in
  if is_nan r && negb (is_nan x) then Raise (ValueError "math domain error")
  else Ok r.

End PyFloat.

(** The C library under the [math] module. Its functions are not part of
    the repository: they are an interface, and every definition below takes
    an implementation of it. *)
Record Libm : Type := {
  libm_sin : float -> float;
  libm_cos : float -> float;
  libm_atan2 : float -> float -> float;
  libm_pow : float -> float -> float
}.

Module PyMath.

Import PyFloat.
Open Scope float_scope.

(** [math_1] of [mathmodule.c] for a function that cannot overflow: a NaN
    result from a non-NaN argument, or an infinite result from a finite
    argument, raises [ValueError]. *)
Definition math_1 (func : float -> float) (x : float) : res float :=
  let r := func x in
  if is_nan r && negb (is_nan x) then Raise (ValueError "math domain error")
  else if is_infinity r && is_finite x then Raise (ValueError "math domain error")
  else Ok r.

Definition sin (m : Libm) (x : float) : res float := math_1 (libm_sin m) x.
Definition cos (m : Libm) (x : float) : res float := math_1 (libm_cos m) x.

(** [m_atan2] of [mathmodule.c]: the special cases are decided before the
    C library is called. *)
Definition m_atan2 (m : Libm) (y x : float) : float :=
  if is_nan x || is_nan y then nan
  else if is_infinity y then
    if is_infinity x then
      if get_sign x then copysign (0.75 * PI) y else copysign (0.25 * PI) y
    else copysign (0.5 * PI) y
  else if is_infinity x || is_zero y then
    if get_sign x then copysign PI y else copysign 0 y
  else libm_atan2 m y x.

(** [math.atan2(y, x)]: [math_2] around [m_atan2]. *)
Definition atan2 (m : Libm) (y x : float) : res float :=
  let r := m_atan2 m y x in
  if is_nan r && negb (is_nan x) && negb (is_nan y) then
    Raise (ValueError "math domain error")
  else if is_infinity r && is_finite x && is_finite y then
    Raise (OverflowError "math range error")
  else Ok r.

(** [x ** 2] for a float [x] ([float_pow] of [floatobject.c] with the
    exponent 2.0): NaN, infinities, zeros and a base of absolute value 1
    are decided by the interpreter; a negative base is replaced by its
    absolute value; an infinite result raises [OverflowError]. *)
Definition pow2 (m : Libm) (x : float) : res float :=
  if is_nan x then Ok x
  else if is_infinity x then Ok infinity
  else if is_zero x then Ok 0
  else
    let iv := abs x in
    if iv =? 1 then Ok 1
    else
      let ix := libm_pow m iv 2 in
      if is_infinity ix then Raise (OverflowError "Numerical result out of range")
      else Ok ix.

End PyMath.

(** ** The data set *)

(** A row of the loaded table, with the identifier, latitude and longitude
    columns already located; the two coordinates are float64 values. *)
Record row : Type := {
  row_id : string;
  row_lat : float;
  row_lon : float
}.

(** [seq[i]] for a Python list or array and a non-negative index. *)
Definition getitem {A : Type} (l : list A) (i : nat) : res A :=
  match l !! i with
  | Some a => Ok a
  | None => Raise (IndexError "index out of range")
  end.

(** [df.iloc[idx]]: a negative position counts from the end. *)
Definition iloc (df : list row) (idx : Z) : res row :=
  let n := Z.of_nat (length df) in
  if (0 <=? idx)%Z && (idx <? n)%Z then getitem df (Z.to_nat idx)
  else if (- n <=? idx)%Z && (idx <? 0)%Z then getitem df (Z.to_nat (idx + n))
  else Raise (IndexError "single positional indexer is out-of-bounds").

(** ** Distance matrix engine ([tsp_converter.py]) *)

Module TspConverter.

Import PyFloat.
Open Scope float_scope.

Definition EARTH_RADIUS_KM : float := 0x1.8e3020c49ba5ep+12.  (* 6371.008 *)
Definition DEFAULT_SCALE : Z := 1000000.

(** [haversine_distance(lat1, lon1, lat2, lon2)] *)
Definition haversine_distance (m : Libm) (lat1 lon1 lat2 lon2 : float) : res float :=
  let lat1_rad := radians lat1 in
  let lat2_rad := radians lat2 in
  let delta_lat := radians (lat2 - lat1) in
  let delta_lon := radians (lon2 - lon1) in
  do s1 <- PyMath.sin m (delta_lat / 2);
  do p1 <- PyMath.pow2 m s1;
  do c1 <- PyMath.cos m lat1_rad;
  do c2 <- PyMath.cos m lat2_rad;
  do s2 <- PyMath.sin m (delta_lon / 2);
  do p2 <- PyMath.pow2 m s2;
  let a := p1 + c1 * c2 * p2 in
  do q1 <- math_sqrt a;
  do q2 <- math_sqrt (1 - a);
  do t <- PyMath.atan2 m q1 q2;
  let c := 2 * t in
  Ok (EARTH_RADIUS_KM * c).

(** [int(round(dist * self.scale))] *)
Definition scaled_distance (dist : float) (scale : Z) : res Z :=
  do s <- of_int scale;
  PyFloat.round (dist * s).

(** [matrix[i, j] = v] on an [int64] array. *)
Definition setitem (M : list (list Z)) (i j : nat) (v : Z) : res (list (list Z)) :=
  if (- 2 ^ 63 <=? v)%Z && (v <? 2 ^ 63)%Z then
    match M !! i with
    | Some r =>
        if decide (j < length r)%nat then Ok (<[i := <[j := v]> r]> M)
        else Raise (IndexError "index out of bounds")
    | None => Raise (IndexError "index out of bounds")
    end
  else Raise (OverflowError "Python int too large to convert to C long").

(** The body of the inner loop, for one pair [(i, j)]. *)
Definition fill_pair (m : Libm) (lats lons : list float) (scale : Z)
    (i j : nat) (M : list (list Z)) : res (list (list Z)) :=
  do lat_i <- getitem lats i;
  do lon_i <- getitem lons i;
  do lat_j <- getitem lats j;
  do lon_j <- getitem lons j;
  do dist <- haversine_distance m lat_i lon_i lat_j lon_j;
  do scaled_dist <- scaled_distance dist scale;
  do M1 <- setitem M i j scaled_dist;
  setitem M1 j i scaled_dist.

(** [for j in range(i + 1, n): ...] *)
Fixpoint inner_loop (m : Libm) (lats lons : list float) (scale : Z)
    (i : nat) (js : list nat) (M : list (list Z)) : res (list (list Z)) :=
  match js with
  | [] => Ok M
  | j :: js' =>
      do M' <- fill_pair m lats lons scale i j M;
      inner_loop m lats lons scale i js' M'
  end.

(** [for i in range(n): ...] *)
Fixpoint outer_loop (m : Libm) (lats lons : list float) (scale : Z)
    (n : nat) (idxs : list nat) (M : list (list Z)) : res (list (list Z)) :=
  match idxs with
  | [] => Ok M
  | i :: idxs' =>
      do M' <- inner_loop m lats lons scale i (seq (S i) (n - S i)) M;
      outer_loop m lats lons scale n idxs' M'
  end.

(** [ExcelToTSPConverter.compute_distance_matrix] *)
Definition compute_distance_matrix (m : Libm) (df : list row) (scale : Z)
    : res (list (list Z)) :=
  let n := length df in
  let lats := row_lat <$> df in
  let lons := row_lon <$> df in
  outer_loop m lats lons scale n (seq 0 n) (replicate n (replicate n 0%Z)).

End TspConverter.

(** ** Instance serializer: the parameter file *)

(** The values of the parameter widgets ([self.params[...].get()]). *)
Record Params : Type := {
  RUNS : Z;
  MOVE_TYPE : Z;
  MAX_TRIALS : Z;
  POPULATION_SIZE : Z;
  RECOMBINATION : string;
  PATCHING_C : Z;
  PATCHING_A : Z;
  SCALE : Z
}.

Module ParFile.

Definition nl : string := String PyStr.LF EmptyString.

(** [str(z)] of an [int], as an f-string formats it. *)
Definition str (z : Z) : string := pretty z.

(** [ExcelToTSPConverter.generate_par_file]: the strings handed to
    [f.write], in order. [default_tour_file] is
    [os.path.splitext(output_path)[0] + '.tour']. *)
Definition generate_par_file (default_tour_file tsp_path : string)
    (runs move_type population_size max_trials : Z) (tour_file : option string)
    : list string :=
  let tour_file := match tour_file with Some t => t | None => default_tour_file end in
  [ "PROBLEM_FILE = " ++ tsp_path ++ nl;
    "MOVE_TYPE = " ++ str move_type ++ nl;
    "PATCHING_C = 3" ++ nl;
    "PATCHING_A = 2" ++ nl;
    "RUNS = " ++ str runs ++ nl;
    "MAX_TRIALS = " ++ str max_trials ++ nl ]
  ++ (if (1 <? population_size)%Z then
        [ "POPULATION_SIZE = " ++ str population_size ++ nl;
          "RECOMBINATION = CLARIST" ++ nl ]
      else [])
  ++ [ "TOUR_FILE = " ++ tour_file ++ nl ].

(** [LKHVisionSolver._create_par_file]: the strings handed to [f.write]. *)
Definition _create_par_file (tsp_path tour_path : string) (params : Params)
    : list string :=
  [ "PROBLEM_FILE = " ++ tsp_path ++ nl;
    "MOVE_TYPE = " ++ str (MOVE_TYPE params) ++ nl;
    "PATCHING_C = " ++ str (PATCHING_C params) ++ nl;
    "PATCHING_A = " ++ str (PATCHING_A params) ++ nl;
    "RUNS = " ++ str (RUNS params) ++ nl;
    "MAX_TRIALS = " ++ str (MAX_TRIALS params) ++ nl ]
  ++ (if (1 <? POPULATION_SIZE params)%Z then
        [ "POPULATION_SIZE = " ++ str (POPULATION_SIZE params) ++ nl;
          "RECOMBINATION = " ++ RECOMBINATION params ++ nl ]
      else [])
  ++ [ "TOUR_FILE = " ++ tour_path ++ nl ].

(** Reading a written line back: the key is the text before the first
    [" = "]. *)
Fixpoint key_of (line : string) : string :=
  match line with
  | EmptyString => EmptyString
  | String c r =>
      if PyStr.startswith " = " line then EmptyString else String c (key_of r)
  end.

(** A line [KEY = VALUE] with its newline. *)
Definition key_value_line (key value : string) : string :=
  key ++ " = " ++ value ++ nl.

(** The keys of the specification, in its order: the six fixed ones, the
    two conditional ones, the last one. *)
Definition spec_keys (population_size : Z) : list string :=
  ["PROBLEM_FILE"; "MOVE_TYPE"; "PATCHING_C"; "PATCHING_A"; "RUNS"; "MAX_TRIALS"]
  ++ (if (1 <? population_size)%Z then ["POPULATION_SIZE"; "RECOMBINATION"] else [])
  ++ ["TOUR_FILE"].

End ParFile.

(** ** Result reconciler ([TourToExcelConverter.generate_output]) *)

Module Reconciler.

(** The loop over [enumerate(self.tour_order, start=1)] on the
    [visiting_order] column, from position [visit_position]. *)
Fixpoint assign_positions (n : nat) (visit_position : Z) (tour_order : list Z)
    (column : list Z) : list Z :=
  match tour_order with
  | [] => column
  | node_id :: rest =>
      let idx := (node_id - 1)%Z in
      let column :=
        if (0 <=? idx)%Z && (idx <? Z.of_nat n)%Z
        then <[Z.to_nat idx := visit_position]> column
        else column in
      assign_positions n (visit_position + 1) rest column
  end.

(** The [visiting_order] column of [result_df]. *)
Definition visiting_order (n : nat) (tour_order : list Z) : list Z :=
  assign_positions n 1 tour_order (replicate n 0%Z).

Record output : Type := {
  result_df : list (row * Z);
  response_df : list (string * Z)
}.

(** [generate_output]: the annotated table, which is written sorted by
    its [visiting_order] column, and the response table. *)
Definition generate_output (original_df : list row) (tour_order : list Z)
    : res output :=
  let n := length original_df in
  let column := visiting_order n tour_order in
  Ok {| result_df := zip original_df column;
        response_df := zip (row_id <$> original_df) column |}.

End Reconciler.

(** ** Reported distance ([LKHVisionSolver._calculate_distance]) *)

Module Solver.

Import PyFloat.
Open Scope float_scope.

(** The loop [for i in range(len(tour_order))], from the running
    [total]. *)
Fixpoint distance_loop (m : Libm) (df : list row) (tour_order : list Z)
    (idxs : list nat) (total : float) : res float :=
  match idxs with
  | [] => Ok total
  | i :: rest =>
      do id1 <- getitem tour_order i;
      do id2 <- getitem tour_order ((i + 1) mod length tour_order)%nat;
      let idx1 := (id1 - 1)%Z in
      let idx2 := (id2 - 1)%Z in
      do r1 <- iloc df idx1;
      do r2 <- iloc df idx2;
      do d <- TspConverter.haversine_distance m
                (row_lat r1) (row_lon r1) (row_lat r2) (row_lon r2);
      distance_loop m df tour_order rest (total + d)
  end.

(** [_calculate_distance]: the value stored in [self.total_distance]. *)
Definition _calculate_distance (m : Libm) (df : list row) (tour_order : list Z)
    : res float :=
  distance_loop m df tour_order (seq 0 (length tour_order)) 0.

End Solver.

(** ** Column detection ([tsp_converter.detect_columns]) *)

Module Detect.

(** [str.lower] on ASCII. *)
Definition lower_ascii (c : ascii) : ascii :=
  let n := nat_of_ascii c in
  if (65 <=? n)%nat && (n <=? 90)%nat then ascii_of_nat (n + 32) else c.

Fixpoint lower (s : string) : string :=
  match s with
  | EmptyString => EmptyString
  | String c r => String (lower_ascii c) (lower r)
  end.

Definition lat_patterns : list string :=
  ["latitude"; "lat"; "y"; "coord_y"; "lat_deg"].
Definition lon_patterns : list string :=
  ["longitude"; "lon"; "long"; "x"; "coord_x"; "lon_deg"; "lng"].
Definition id_patterns : list string :=
  ["id"; "commune"; "name"; "city"; "node"; "point"; "index"].

(** [{col.lower(): col for col in df.columns}]: a later column replaces an
    earlier one with the same lower-case name. *)
Definition columns_lower (columns : list string) : gmap string string :=
  foldl (fun d col => <[lower col := col]> d) ∅ columns.

(** [for pattern in patterns: if pattern in columns_lower: ...; break] *)
Fixpoint first_match (patterns : list string) (d : gmap string string)
    : option string :=
  match patterns with
  | [] => None
  | pattern :: rest =>
      match d !! pattern with
      | Some col => Some col
      | None => first_match rest d
      end
  end.

(** [detect_columns(df)], returning [(id_col, lat_col, lon_col)]; [None]
    is Python's [None]. *)
Definition detect_columns (columns : list string)
    : option string * option string * option string :=
  let d := columns_lower columns in
  let lat_col := first_match lat_patterns d in
  let lon_col := first_match lon_patterns d in
  let id_col := first_match id_patterns d in
  let id_col :=
    match id_col with
    | None => head columns
    | Some c => Some c
    end in
  (id_col, lat_col, lon_col).

End Detect.

(** ** Map distance ([visualize_tour.py]) *)

Module Visualize.

Import PyFloat.
Open Scope float_scope.

Definition EARTH_RADIUS_KM : float := 6371.

(** [visualize_tour.haversine_distance] *)
Definition haversine_distance (m : Libm) (lat1 lon1 lat2 lon2 : float) : res float :=
  let lat1_rad := radians lat1 in
  let lat2_rad := radians lat2 in
  let delta_lat := radians (lat2 - lat1) in
  let delta_lon := radians (lon2 - lon1) in
  do s1 <- PyMath.sin m (delta_lat / 2);
  do p1 <- PyMath.pow2 m s1;
  do c1 <- PyMath.cos m lat1_rad;
  do c2 <- PyMath.cos m lat2_rad;
  do s2 <- PyMath.sin m (delta_lon / 2);
  do p2 <- PyMath.pow2 m s2;
  let a := p1 + c1 * c2 * p2 in
  do q1 <- math_sqrt a;
  do q2 <- math_sqrt (1 - a);
  do t <- PyMath.atan2 m q1 q2;
  let c := 2 * t in
  Ok (EARTH_RADIUS_KM * c).

(** The coordinates in tour order: ids outside the table are skipped. *)
Fixpoint tour_coords (df : list row) (tour_order : list Z) : list (float * float) :=
  match tour_order with
  | [] => []
  | node_id :: rest =>
      let idx := (node_id - 1)%Z in
      if (0 <=? idx)%Z && (idx <? Z.of_nat (length df))%Z then
        match df !! Z.to_nat idx with
        | Some r => (row_lat r, row_lon r) :: tour_coords df rest
        | None => tour_coords df rest
        end
      else tour_coords df rest
  end.

(** [if tour_coords: tour_coords.append(tour_coords[0])] *)
Definition close_loop (coords : list (float * float)) : list (float * float) :=
  match coords with
  | [] => []
  | first :: _ => coords ++ [first]
  end.

(** [for i in range(len(tour_coords) - 1): total_distance += ...] *)
Fixpoint total_loop (m : Libm) (coords : list (float * float)) (idxs : list nat)
    (total_distance : float) : res float :=
  match idxs with
  | [] => Ok total_distance
  | i :: rest =>
      do p1 <- getitem coords i;
      do p2 <- getitem coords (i + 1);
      do d <- haversine_distance m (fst p1) (snd p1) (fst p2) (snd p2);
      total_loop m coords rest (total_distance + d)
  end.

(** The [total_distance] of [create_tour_map], up to the point where it
    is first printed. *)
Definition total_distance (m : Libm) (df : list row) (tour_order : list Z)
    : res float :=
  let coords := close_loop (tour_coords df tour_order) in
  total_loop m coords (seq 0 (length coords - 1)) 0.

End Visualize.

(** ** The pipeline ([LKHVisionSolver._run_optimization]) *)

Module Pipeline.









End Pipeline.

(** ** The tour order as the specification words it *)

Module TourSpec.

Import TourParser.

(** The lines after the first line equal to [TOUR_SECTION]. *)
Fixpoint after_marker (ls : list string) : list string :=
  match ls with
  | [] => []
  | l :: rest => if String.eqb l "TOUR_SECTION" then rest else after_marker rest
  end.

(** A line that yields a node id: not a terminator, and an integer. *)
Definition is_node_line (l : string) : bool :=
  negb (is_terminator l) && bool_decide (is_Some (PyStr.int l)).

(** Everything before the first node id is ignored. *)
Fixpoint from_first_node (ls : list string) : list string :=
  match ls with
  | [] => []
  | l :: rest => if is_node_line l then ls else from_first_node rest
  end.

(** The lines before the first terminator. *)
Fixpoint until_terminator (ls : list string) : list string :=
  match ls with
  | [] => []
  | l :: rest => if is_terminator l then [] else l :: until_terminator rest
  end.

(** The integer-parsable lines after the marker and before the first
    terminator that follows a node id. *)
Definition order (ls : list string) : list Z :=
  omap PyStr.int (until_terminator (from_first_node (after_marker ls))).


Definition example_body : string :=
  let nl := String PyStr.LF EmptyString in
  "TOUR_SECTION" ++ nl ++ "1" ++ nl ++ "3" ++ nl ++ "2" ++ nl ++ "4" ++ nl
  ++ "-1" ++ nl ++ "EOF" ++ nl.


End TourSpec.

(** ** Reference definitions and sample inputs *)

(** What is assumed of a C library where a property needs it. Both are
    requirements of IEEE 754 and of Annex F of the C standard. *)
Module LibmSpec.

Open Scope float_scope.

(** [sin(-x) = -sin(x)]. *)
Definition sin_is_odd (m : Libm) : Prop :=
  forall x, libm_sin m (- x) = - libm_sin m x.

(** [sin] of a NaN or of an infinity is a NaN. *)
Definition sin_invalid_is_nan (m : Libm) : Prop :=
  libm_sin m nan = nan
  /\ libm_sin m infinity = nan
  /\ libm_sin m neg_infinity = nan.

End LibmSpec.

(** The entry [matrix[i, j]]. *)
Definition cell (M : list (list Z)) (i j : nat) : option Z :=
  M !! i ≫= (fun r => r !! j).

Module MatrixSpec.

(** What the loop body stores for the pair [(i, j)]: the rounded scaled
    distance between point [i] and point [j]. *)
Definition entry (m : Libm) (lats lons : list float) (scale : Z)
    (i j : nat) (z : Z) : Prop :=
  exists lat_i lon_i lat_j lon_j d,
    lats !! i = Some lat_i /\ lons !! i = Some lon_i
    /\ lats !! j = Some lat_j /\ lons !! j = Some lon_j
    /\ TspConverter.haversine_distance m lat_i lon_i lat_j lon_j = Ok d
    /\ TspConverter.scaled_distance d scale = Ok z.

(** The pairs in [P] hold their entry, in both triangles. *)
Definition good (m : Libm) (lats lons : list float) (scale : Z)
    (P : nat -> nat -> Prop) (M : list (list Z)) : Prop :=
  forall a b, P a b ->
    (a < b)%nat
    /\ exists z, entry m lats lons scale a b z
                /\ cell M a b = Some z /\ cell M b a = Some z.

End MatrixSpec.

Module AngleSpec.

Import PyFloat.
Open Scope float_scope.

(** The central angle between two points, as both modules compute it
    before multiplying by their radius. *)
Definition central_angle (m : Libm) (lat1 lon1 lat2 lon2 : float) : res float :=
  let lat1_rad := radians lat1 in
  let lat2_rad := radians lat2 in
  let delta_lat := radians (lat2 - lat1) in
  let delta_lon := radians (lon2 - lon1) in
  do s1 <- PyMath.sin m (delta_lat / 2);
  do p1 <- PyMath.pow2 m s1;
  do c1 <- PyMath.cos m lat1_rad;
  do c2 <- PyMath.cos m lat2_rad;
  do s2 <- PyMath.sin m (delta_lon / 2);
  do p2 <- PyMath.pow2 m s2;
  let a := p1 + c1 * c2 * p2 in
  do q1 <- math_sqrt a;
  do q2 <- math_sqrt (1 - a);
  do t <- PyMath.atan2 m q1 q2;
  Ok (2 * t).

End AngleSpec.

Module DistanceSpec.

Import PyFloat.
Open Scope float_scope.

(** The rows visited, in tour order. *)
Definition tour_rows (df : list row) (tour_order : list Z) : list row :=
  omap (fun id => df !! Z.to_nat (id - 1)) tour_order.

(** The consecutive pairs of a closed loop: each point with its
    successor, the last one with the first. *)
Definition closed_edges (rows : list row) : list (row * row) :=
  zip rows (tail rows)
  ++ match rows, last rows with
     | first :: _, Some final => [(final, first)]
     | _, _ => []
     end.

(** The float64 sum of the edge lengths, added in order to [total]. *)
Fixpoint sum_edges (m : Libm) (total : float) (edges : list (row * row))
    : res float :=
  match edges with
  | [] => Ok total
  | (r1, r2) :: rest =>
      do d <- TspConverter.haversine_distance m
                (row_lat r1) (row_lon r1) (row_lat r2) (row_lon r2);
      sum_edges m (total + d) rest
  end.


(** The coordinates of a row, as [create_tour_map] collects them. *)
Definition coords (r : row) : float * float := (row_lat r, row_lon r).

Definition finite_row (r : row) : Prop :=
  is_finite (row_lat r) = true /\ is_finite (row_lon r) = true.

End DistanceSpec.

Module Samples.

Import PyFloat.
Open Scope float_scope.

(** The values of the C library that are fixed by IEEE 754 and Annex F of
    the C standard at the arguments met on two antipodal points of the
    equator: [sin(+-0) = +-0], [cos(+-0) = 1], [sin] of the double nearest
    to pi/2 is 1, and [atan2(1, +0)] is the double nearest to pi/2. Every
    other argument maps to NaN, on which the wrappers of the [math]
    module raise [ValueError]: an evaluation that leaves the table stops. *)
Definition libm_axis : Libm := {|
  libm_sin x :=
    if is_zero x then x
    else if abs x =? 0.5 * PI then (if x <? 0 then -1 else 1)
    else nan;
  libm_cos x := if is_zero x then 1 else nan;
  libm_atan2 y x :=
    if (y =? 1) && is_zero x && negb (get_sign x) then 0.5 * PI else nan;
  libm_pow x y := nan
|}.

(** The table extended by the values of the C library at the three
    further arguments met between the points (0, 0) and (0, 80) of the
    equator: the sine of half the difference of longitude (40 degrees in
    radians, in either direction), the square of that sine, and the arc
    tangent that gives the half angle back. They are the correctly rounded values, which are
    also the ones glibc returns. *)
Definition libm_equator : Libm := {|
  libm_sin x :=
    if abs x =? 0x1.657184ae74487p-1
    then (if x <? 0 then - 0x1.491b7523c161cp-1 else 0x1.491b7523c161cp-1)
    else libm_sin libm_axis x;
  libm_cos := libm_cos libm_axis;
  libm_atan2 y x :=
    if (y =? 0x1.491b7523c161cp-1) && (x =? 0x1.8836fa2cf503ap-1)
    then 0x1.657184ae74486p-1
    else libm_atan2 libm_axis y x;
  libm_pow x y :=
    if (x =? 0x1.491b7523c161cp-1) && (y =? 2) then 0x1.a7179607d231cp-2
    else libm_pow libm_axis x y
|}.

(** Two antipodal points of the equator. *)
Definition antipodes : list row :=
  [ {| row_id := "a"; row_lat := 0; row_lon := 0 |};
    {| row_id := "b"; row_lat := 0; row_lon := 180 |} ].


(** A table of one row whose latitude is NaN. *)
Definition one_bad_row : list row :=
  [ {| row_id := "a"; row_lat := nan; row_lon := 0 |} ].

(** Two rows, the first with an infinite longitude. *)
Definition two_rows_inf : list row :=
  [ {| row_id := "a"; row_lat := 0; row_lon := infinity |};
    {| row_id := "b"; row_lat := 0; row_lon := 180 |} ].




End Samples.

Module ReconcilerSpec.

(** The 1-based position, counted from [p], of the last occurrence of
    [node_id] in the order; 0 when it does not occur. *)
Fixpoint last_position (p : Z) (node_id : Z) (tour_order : list Z) : Z :=
  match tour_order with
  | [] => 0
  | x :: rest =>
      let later := last_position (p + 1) node_id rest in
      if (later =? 0)%Z then (if (x =? node_id)%Z then p else 0) else later
  end.

End ReconcilerSpec.

From stdpp Require sorting.

(** ** Further string operations *)

Module PyText.

(** [sep.join(l)] *)
Fixpoint join (sep : string) (l : list string) : string :=
  match l with
  | [] => EmptyString
  | s :: rest =>
      match rest with
      | [] => s
      | _ => s ++ sep ++ join sep rest
      end
  end.

(** [sub in s] for two strings. *)
Fixpoint contains (sub s : string) : bool :=
  PyStr.startswith sub s
  || match s with
     | EmptyString => false
     | String _ r => contains sub r
     end.

(** [s.replace(old, new)] for a non-empty [old]: the occurrences of
    [old] are replaced from left to right, without overlap. [skip] counts
    the characters of a replaced occurrence that are still to be passed. *)
Fixpoint replace_from (old new : string) (skip : nat) (s : string) : string :=
  match s with
  | EmptyString => EmptyString
  | String c r =>
      match skip with
      | S k => replace_from old new k r
      | O =>
          if PyStr.startswith old s
          then new ++ replace_from old new (String.length old - 1) r
          else String c (replace_from old new 0 r)
      end
  end.

Definition replace (old new s : string) : string := replace_from old new 0 s.

End PyText.

(** ** The problem file ([ExcelToTSPConverter.generate_tsp_file]) *)

Module TspFile.

Import ParFile.

(** [self.distance_matrix[i, j]] *)
Definition matrix_getitem (M : list (list Z)) (i j : nat) : res Z :=
  match cell M i j with
  | Some v => Ok v
  | None => Raise (IndexError "index is out of bounds")
  end.

(** [str(self.distance_matrix[i, j]) for j in range(n)] *)
Fixpoint row_cells (M : list (list Z)) (i : nat) (js : list nat) : res (list string) :=
  match js with
  | [] => Ok []
  | j :: js' =>
      do v <- matrix_getitem M i j;
      do rest <- row_cells M i js';
      Ok (str v :: rest)
  end.

(** The loop [for i in range(n)]: one write per row of the matrix. *)
Fixpoint matrix_rows (M : list (list Z)) (n : nat) (idxs : list nat)
    : res (list string) :=
  match idxs with
  | [] => Ok []
  | i :: idxs' =>
      do cells <- row_cells M i (seq 0 n);
      do rest <- matrix_rows M n idxs';
      Ok ((PyText.join " " cells ++ nl) :: rest)
  end.

(** The header section. *)
Definition header (problem_name : string) (scale : Z) (n : nat) : list string :=
  [ "NAME : " ++ problem_name ++ nl;
    "COMMENT : Generated by TSP Converter (scale=" ++ str scale ++ ")" ++ nl;
    "TYPE : TSP" ++ nl;
    "DIMENSION : " ++ str (Z.of_nat n) ++ nl;
    "EDGE_WEIGHT_TYPE : EXPLICIT" ++ nl;
    "EDGE_WEIGHT_FORMAT : FULL_MATRIX" ++ nl;
    "EDGE_WEIGHT_SECTION" ++ nl ].

(** [generate_tsp_file]: the matrix held by the converter afterwards and
    the strings handed to [f.write], in order. [distance_matrix] is the
    attribute of the converter, [None] before the matrix was computed;
    [default_name] is
    [os.path.splitext(os.path.basename(output_path))[0]]. *)
Definition generate_tsp_file (m : Libm) (df : list row) (scale : Z)
    (distance_matrix : option (list (list Z)))
    (problem_name : option string) (default_name : string)
    : res (list (list Z) * list string) :=
  do M <- match distance_matrix with
          | None => TspConverter.compute_distance_matrix m df scale
          | Some M => Ok M
          end;
  let n := length df in
  let problem_name :=
    match problem_name with Some name => name | None => default_name end in
  do rows <- matrix_rows M n (seq 0 n);
  let last_line := "EOF" ++ nl in
  Ok (M, (header problem_name scale n ++ rows ++ [last_line])%list).

End TspFile.

(** Reading the problem file back, as the TSPLIB format defines it. *)
Module TspSpec.

(** A row of the matrix section: its fields, separated by single spaces,
    are integers. *)
Definition read_row (line : string) : option (list Z) :=
  mapM PyStr.int (PyStr.split " " line).

(** The matrix section: the lines between the header and the line
    [EOF]. *)
Definition read_matrix (written : list string) : option (list (list Z)) :=
  mapM read_row (take (length written - 8) (drop 7 written)).

(** A square matrix of side [n]. *)
Definition square (n : nat) (M : list (list Z)) : Prop :=
  length M = n /\ Forall (fun r => length r = n) M.

(** What every step of the matrix loops keeps: the matrix is square, its
    diagonal is zero and its entries are [int64] values. *)
Definition shape_kept (n : nat) (M : list (list Z)) : Prop :=
  square n M
  /\ (forall a, (a < n)%nat -> cell M a a = Some 0)
  /\ (forall a b z, cell M a b = Some z -> - 2 ^ 63 <= z < 2 ^ 63).

End TspSpec.

(** ** The exported tables *)

Module OutputSpec.

(** [df.sort_values(by='visiting_order')]: a rearrangement of the lines
    in ascending order of the column. The default sort of pandas does not
    fix the order of lines with equal values. *)
Definition sort_values (table out : list (row * Z)) : Prop :=
  out ≡ₚ table /\ Sorted.Sorted (fun a b => a.2 <= b.2) out.

(** A tour over a table of [n] rows: every node of [1..n], once. *)
Definition is_tour (n : nat) (tour_order : list Z) : Prop :=
  NoDup tour_order
  /\ length tour_order = n
  /\ forall id, id ∈ tour_order -> 1 <= id <= Z.of_nat n.

End OutputSpec.

(** ** Paths of the exported files *)

Module Exporter.

(** The path of the response file in [generate_output]:
    [output_path.replace('.xlsx', '_response.xlsx')
                .replace('.csv', '_response.csv')]. *)
Definition response_path (output_path : string) : string :=
  PyText.replace ".csv" "_response.csv"
    (PyText.replace ".xlsx" "_response.xlsx" output_path).

(** The output path of [run_converter.export_to_excel] when no
    [--output] is given: [base + '_result.' + args.format], where [base]
    is [os.path.splitext(args.tour_file)[0]]. *)
Definition default_output_path (base format : string) : string :=
  base ++ "_result." ++ format.

End Exporter.

(** ** What [detect_columns] selects *)

Module DetectSpec.

(** No header has a keyword of the list as its lower-case form. *)
Definition absent (patterns columns : list string) : Prop :=
  forall c, c ∈ columns -> Detect.lower c ∉ patterns.

(** [c] is the last header whose lower-case form is the first keyword of
    the list that is the lower-case form of a header. *)
Definition selected (patterns columns : list string) (c : string) : Prop :=
  exists pre post l1 l2,
    patterns = (pre ++ Detect.lower c :: post)%list
    /\ (forall p c', p ∈ pre -> c' ∈ columns -> Detect.lower c' <> p)
    /\ columns = (l1 ++ c :: l2)%list
    /\ (forall c', c' ∈ l2 -> Detect.lower c' <> Detect.lower c).

End DetectSpec.

(** ** Column detection of the map script ([visualize_tour.load_data]) *)

Module VisualizeData.

(** ['lat' in col.lower() or col.lower() == 'y' or 'y-coord' in col.lower()] *)
Definition lat_test (col : string) : bool :=
  PyText.contains "lat" (Detect.lower col)
  || String.eqb (Detect.lower col) "y"
  || PyText.contains "y-coord" (Detect.lower col).

(** ['lon' in col.lower() or col.lower() == 'x' or 'x-coord' in col.lower()] *)
Definition lon_test (col : string) : bool :=
  PyText.contains "lon" (Detect.lower col)
  || String.eqb (Detect.lower col) "x"
  || PyText.contains "x-coord" (Detect.lower col).

(** [for col in df.columns: if test(col): current = col; break] *)
Fixpoint first_column (test : string -> bool) (columns : list string)
    (current : string) : string :=
  match columns with
  | [] => current
  | col :: rest => if test col then col else first_column test rest current
  end.

(** [x not in df.columns] decides whether the loop runs. *)
Definition detect (test : string -> bool) (columns : list string)
    (requested : string) : string :=
  if bool_decide (requested ∈ columns) then requested
  else first_column test columns requested.

(** [load_data]: [ext] is [os.path.splitext(data_path)[1].lower()] and
    [columns] are the headers of the table that pandas reads; the result
    is [(id_col, lat_col, lon_col)] as returned beside the table. *)
Definition load_data (ext : string) (columns : list string)
    (id_col lat_col lon_col : string) : res (string * string * string) :=
  if bool_decide (ext ∈ [".xlsx"; ".xls"]) || String.eqb ext ".csv" then
    Ok (id_col, detect lat_test columns lat_col, detect lon_test columns lon_col)
  else Raise (ValueError ("Unsupported file format: " ++ ext)).

(** [c] is the first header that passes the test. *)
Definition first_passing (test : string -> bool) (columns : list string)
    (c : string) : Prop :=
  exists pre post,
    columns = (pre ++ c :: post)%list
    /\ test c = true
    /\ forall c', c' ∈ pre -> test c' = false.

End VisualizeData.

(** ** Column detection of the window ([LKHVisionSolver._load_columns]) *)

Module Gui.

Inductive role : Type := Id | Lat | Lon.

Global Instance role_eq_dec : EqDecision role.
Proof. solve_decision. Defined.

(** The three selections [self.id_col], [self.lat_col], [self.lon_col]. *)
Record selection : Type := {
  id_col : string;
  lat_col : string;
  lon_col : string
}.

(** The [if]/[elif] chain on [col_lower = col.lower()]. *)
Definition role_of (col : string) : option role :=
  let col_lower := Detect.lower col in
  if PyText.contains "id" col_lower || PyText.contains "commune" col_lower
     || PyText.contains "name" col_lower then Some Id
  else if PyText.contains "lat" col_lower || PyText.contains "y" col_lower
  then Some Lat
  else if PyText.contains "lon" col_lower || PyText.contains "x" col_lower
  then Some Lon
  else None.

(** One turn of [for col in self.columns]. *)
Definition detect_step (sel : selection) (col : string) : selection :=
  match role_of col with
  | Some Id => {| id_col := col; lat_col := lat_col sel; lon_col := lon_col sel |}
  | Some Lat => {| id_col := id_col sel; lat_col := col; lon_col := lon_col sel |}
  | Some Lon => {| id_col := id_col sel; lat_col := lat_col sel; lon_col := col |}
  | None => sel
  end.

(** The detection loop of [_load_columns], from the selections held
    before the file was chosen. *)
Definition _load_columns (columns : list string) (sel : selection) : selection :=
  foldl detect_step sel columns.

(** The selections of a new window. *)
Definition initial : selection :=
  {| id_col := "commune"; lat_col := "Y-coordinate"; lon_col := "X-coordinate" |}.

(** The columns that take a role, in order. *)
Definition with_role (r : role) (columns : list string) : list string :=
  filter (fun col => role_of col = Some r) columns.

End Gui.

(** ** Statistics of the map ([visualize_tour.create_tour_map]) *)

Module TourMap.

Import PyFloat.

(** How the part of [create_tour_map] before the map is drawn ends. *)
Inductive outcome (A : Type) : Type :=
  | Done (a : A)
  | MathError (e : exn)
  | ZeroDivisionError.
Arguments Done {A} a.
Arguments MathError {A} e.
Arguments ZeroDivisionError {A}.

(** [x / n] for a float [x] and the length [n] of a list. *)
Definition div_len (x : float) (n : nat) : outcome float :=
  match n with
  | O => ZeroDivisionError
  | S _ =>
      match of_int (Z.of_nat n) with
      | Ok d => Done (x / d)%float
      | Raise e => MathError e
      end
  end.

Record stats : Type := {
  total_distance : float;
  mean_distance : float;
  center_lat : float;
  center_lon : float
}.

(** [create_tour_map] up to the creation of the map. [fsum] is the
    built-in [sum] on a non-empty list of floats, whose summation method
    depends on the interpreter. The coordinates summed are those of
    [tour_coords[:-1]], the tour before it was closed. *)
Definition create_tour_map (m : Libm) (fsum : list float -> float)
    (df : list row) (tour_order : list Z) : outcome stats :=
  let coords := Visualize.tour_coords df tour_order in
  match Visualize.total_distance m df tour_order with
  | Raise e => MathError e
  | Ok total =>
      match div_len total (length tour_order) with
      | Done mean =>
          match coords with
          | [] => ZeroDivisionError
          | _ :: _ =>
              match div_len (fsum (fst <$> coords)) (length coords),
                    div_len (fsum (snd <$> coords)) (length coords) with
              | Done lat, Done lon =>
                  Done {| total_distance := total; mean_distance := mean;
                          center_lat := lat; center_lon := lon |}
              | MathError e, _ => MathError e
              | ZeroDivisionError, _ => ZeroDivisionError
              | _, MathError e => MathError e
              | _, ZeroDivisionError => ZeroDivisionError
              end
          end
      | MathError e => MathError e
      | ZeroDivisionError => ZeroDivisionError
      end
  end.

End TourMap.

(** ** Tour files in the layout LKH writes *)

Module TourFileSpec.






End TourFileSpec.

(** ** Comparing the two totals of a tour *)

Module SumSpec.





End SumSpec.
(** * Properties *)

Open Scope Z_scope.

Lemma rbind_ok {A B : Type} (x : res A) (k : A -> res B) (b : B) :
  rbind x k = Ok b -> exists a, x = Ok a /\ k a = Ok b.
Proof. destruct x as [a|e]; simpl; intros H; [eauto | discriminate]. Qed.

Lemma rbind_raise {A B : Type} (x : res A) (k : A -> res B) :
  is_ok x = false -> is_ok (rbind x k) = false.
Proof. destruct x; simpl; congruence. Qed.

(** ** Tour parser *)

Section TourParserFacts.

Import TourParser TourSpec.

Lemma marker_is_not_a_node :
  is_terminator "TOUR_SECTION" = false /\ PyStr.int "TOUR_SECTION" = None.
Proof. split; reflexivity. Qed.

(** Once a node id has been collected, the loop appends the integers up
    to the next terminator. *)
Lemma parse_tour_loop_collecting (ls : list string) (acc : list Z) :
  acc <> [] ->
  parse_tour_loop ls true acc
  = (acc ++ omap PyStr.int (until_terminator (PyStr.strip <$> ls)))%list.
Proof.
  revert acc. induction ls as [|raw rest IH]; intros acc Hacc; simpl.
  - by rewrite app_nil_r.
  - destruct (String.eqb (PyStr.strip raw) "TOUR_SECTION") eqn:Em.
    + apply String.eqb_eq in Em. rewrite Em.
      destruct marker_is_not_a_node as [-> Hint]. cbn [omap list_omap until_terminator fmap list_fmap].
      change (is_terminator "TOUR_SECTION") with false. cbn iota. cbn [omap list_omap]. rewrite Hint.
      by apply IH.
    + destruct (is_terminator (PyStr.strip raw)) eqn:Et.
      * destruct acc; [done|]. simpl. by rewrite app_nil_r.
      * simpl. destruct (PyStr.int (PyStr.strip raw)) as [v|] eqn:Ei.
        -- rewrite IH; [|by destruct acc]. by rewrite <- app_assoc.
        -- by apply IH.
Qed.

(** Inside the section and before the first node id. *)
Lemma parse_tour_loop_in_section (ls : list string) :
  parse_tour_loop ls true []
  = omap PyStr.int (until_terminator (from_first_node (PyStr.strip <$> ls))).
Proof.
  induction ls as [|raw rest IH]; simpl; [done|].
  destruct (String.eqb (PyStr.strip raw) "TOUR_SECTION") eqn:Em.
  - apply String.eqb_eq in Em. rewrite Em. unfold is_node_line.
    destruct marker_is_not_a_node as [-> ->]. simpl. exact IH.
  - unfold is_node_line.
    destruct (is_terminator (PyStr.strip raw)) eqn:Et; simpl; [exact IH|].
    destruct (PyStr.int (PyStr.strip raw)) as [v|] eqn:Ei.
    + rewrite bool_decide_eq_true_2 by eauto. simpl. rewrite Et. simpl.
      rewrite Ei. by rewrite parse_tour_loop_collecting.
    + rewrite bool_decide_eq_false_2; [exact IH|].
      intros [? ?]; discriminate.
Qed.

(** From the start of the file. *)
Lemma parse_tour_loop_order (ls : list string) :
  parse_tour_loop ls false [] = order (PyStr.strip <$> ls).
Proof.
  unfold order. induction ls as [|raw rest IH]; simpl; [done|].
  destruct (String.eqb (PyStr.strip raw) "TOUR_SECTION") eqn:Em.
  - apply parse_tour_loop_in_section.
  - destruct (is_terminator (PyStr.strip raw)); simpl; exact IH.
Qed.

(** The two parsers collect the same order. *)
Lemma parse_tour_file_loop_order (ls : list string) (b : bool) (acc : list Z)
    (len : option Z) :
  (parse_tour_file_loop ls b acc len).1 = parse_tour_loop ls b acc.
Proof.
  revert b acc len. induction ls as [|raw rest IH]; intros b acc len; simpl; [done|].
  destruct (String.eqb (PyStr.strip raw) "TOUR_SECTION"); [apply IH|].
  destruct (is_terminator (PyStr.strip raw)).
  - destruct (b && nonempty acc); [done | apply IH].
  - destruct b; [|apply IH].
    destruct (PyStr.int (PyStr.strip raw)); apply IH.
Qed.

(** An ASCII text is well-formed UTF-8. *)
Lemma is_ascii_utf8_valid (content : string) :
  PyStr.is_ascii content = true -> PyStr.utf8_valid content = true.
Proof.
  unfold PyStr.is_ascii, PyStr.utf8_valid.
  induction content as [|c r IH]; [done|].
  cbn [list_ascii_of_string forallb PyStr.utf8_valid_from].
  intros H. apply andb_true_iff in H as [Hc Hr].
  unfold PyStr.utf8_lead. rewrite Hc. by apply IH.
Qed.

(** What both parsers return for a file that is decoded. *)
Lemma parsers_on_decoded_file (fs : gmap string string) (path content : string) :
  fs !! path = Some content ->
  PyStr.utf8_valid content = true ->
  _parse_tour fs path = Ok (parse_tour_loop (PyStr.lines content) false [])
  /\ exists len,
       parse_tour_file fs path
       = Ok (parse_tour_loop (PyStr.lines content) false [], len).
Proof.
  intros Hfs Hv. unfold _parse_tour, parse_tour_file, read_lines.
  rewrite Hfs, Hv. simpl. split; [done|].
  rewrite <- (parse_tour_file_loop_order _ false [] None).
  destruct (parse_tour_file_loop _ _ _ _) as [o len]. by exists len.
Qed.

End TourParserFacts.

(** C3. For every tour file of ASCII text, the order returned by both tour
    parsers is the sequence of integer-parsable lines that come after the
    [TOUR_SECTION] line and before the first line [-1], [EOF] or empty met
    once a node id has been collected; terminators met before any node id
    and non-integer lines are ignored (lines are compared after [strip], as
    the code does, and a line is integer-parsable when [int] accepts it:
    a literal of more than 4300 digits is not). For the file
    [TOUR_SECTION 1 3 2 4 -1 EOF], one token per line, the order is
    [1, 3, 2, 4] and there is no length. *)
Theorem tour_order_is_section_ids (fs : gmap string string) (path content : string) :
  fs !! path = Some content ->
  PyStr.is_ascii content = true ->
  let ls := PyStr.strip <$> PyStr.lines content in
  TourParser._parse_tour fs path = Ok (TourSpec.order ls)
  /\ (exists len, TourParser.parse_tour_file fs path = Ok (TourSpec.order ls, len))
  /\ (content = TourSpec.example_body ->
      TourParser._parse_tour fs path = Ok [1; 3; 2; 4]
      /\ TourParser.parse_tour_file fs path = Ok ([1; 3; 2; 4], None)).
Proof.
  intros Hfs Hascii ls. subst ls.
  destruct (parsers_on_decoded_file fs path content Hfs
              (is_ascii_utf8_valid content Hascii)) as [H1 [len H2]].
  rewrite <- parse_tour_loop_order. split; [done|]. split; [by exists len|].
  intros ->. unfold TourParser._parse_tour, TourParser.parse_tour_file, read_lines.
  rewrite Hfs. split; reflexivity.
Qed.

Lemma tour_order_is_section_ids_witness :
  TourParser._parse_tour {[ "solution.tour" := TourSpec.example_body ]} "solution.tour"
  = Ok [1; 3; 2; 4]
  /\ TourParser.parse_tour_file {[ "solution.tour" := TourSpec.example_body ]} "solution.tour"
     = Ok ([1; 3; 2; 4], None).
Proof.
  destruct (tour_order_is_section_ids
              {[ "solution.tour" := TourSpec.example_body ]}
              "solution.tour" TourSpec.example_body) as (_ & _ & H);
    [reflexivity | reflexivity | apply H; reflexivity].
Defined.




(** ** Result reconciler *)

Section ReconcilerFacts.

Import Reconciler ReconcilerSpec.

Lemma assign_positions_length (n : nat) (p : Z) (order column : list Z) :
  length (assign_positions n p order column) = length column.
Proof.
  revert p column. induction order as [|x rest IH]; intros p column; simpl; [done|].
  rewrite IH. destruct (_ && _); [apply length_insert | done].
Qed.

Lemma last_position_range (p id : Z) (order : list Z) :
  0 < p -> last_position p id order = 0 \/ p <= last_position p id order.
Proof.
  revert p. induction order as [|x rest IH]; intros p Hp; simpl; [by left|].
  destruct (IH (p + 1)) as [-> | Hle]; [lia| |].
  - simpl. destruct (x =? id); [right; lia | by left].
  - destruct (last_position (p + 1) id rest =? 0) eqn:E; [apply Z.eqb_eq in E; lia|].
    right. lia.
Qed.

(** The loop leaves in cell [i] the last position at which node [i + 1]
    occurs, and the previous content when it does not occur. *)
Lemma assign_positions_lookup (n : nat) (p : Z) (order column : list Z) (i : nat) :
  0 < p -> length column = n -> (i < n)%nat ->
  assign_positions n p order column !! i
  = (if last_position p (Z.of_nat i + 1) order =? 0 then column !! i
     else Some (last_position p (Z.of_nat i + 1) order)).
Proof.
  revert p column. induction order as [|x rest IH]; intros p column Hp Hlen Hi; simpl.
  { done. }
  rewrite IH; [|lia| |done].
  2:{ destruct (_ && _); [by rewrite length_insert | done]. }
  destruct (last_position (p + 1) (Z.of_nat i + 1) rest =? 0) eqn:E; [|by rewrite E].
  destruct (x =? Z.of_nat i + 1) eqn:Ex.
  - apply Z.eqb_eq in Ex. subst x.
    replace (Z.of_nat i + 1 - 1) with (Z.of_nat i) by lia.
    rewrite Nat2Z.id.
    destruct (0 <=? Z.of_nat i) eqn:E1; [|apply Z.leb_gt in E1; lia].
    destruct (Z.of_nat i <? Z.of_nat n) eqn:E2; [|apply Z.ltb_ge in E2; lia].
    simpl. destruct (p =? 0) eqn:E3; [apply Z.eqb_eq in E3; lia|].
    apply list_lookup_insert_eq. lia.
  - simpl. destruct (_ && _) eqn:Eg; [|done].
    apply list_lookup_insert_ne. intros Heq.
    apply andb_true_iff in Eg as [E1 E2].
    apply Z.leb_le in E1. apply Z.eqb_neq in Ex. lia.
Qed.

Lemma visiting_order_lookup (n : nat) (order : list Z) (i : nat) :
  (i < n)%nat ->
  visiting_order n order !! i = Some (last_position 1 (Z.of_nat i + 1) order).
Proof.
  intros Hi. unfold visiting_order.
  rewrite assign_positions_lookup; [|lia|by rewrite length_replicate|done].
  destruct (last_position 1 (Z.of_nat i + 1) order =? 0) eqn:E; [|done].
  apply Z.eqb_eq in E. rewrite E. by apply lookup_replicate_2.
Qed.

End ReconcilerFacts.

(** C6 (as stated). An order naming node 5 for a table of two rows is
    reconciled without error. *)
Lemma generate_output_accepts_unknown_id :
  ~ (forall (df : list row) (tour_order : list Z),
        (exists id, id ∈ tour_order /\ ~ (1 <= id <= Z.of_nat (length df))) ->
        is_ok (Reconciler.generate_output df tour_order) = false).
Proof.
  intros H. specialize (H Samples.antipodes [5]).
  discriminate H. exists 5. split; [set_solver | simpl; lia].
Qed.

(** C6 (amended). Reconciliation never fails on the order: a node id outside
    [1..n] is skipped under the guard [0 <= idx < n], and row [i] receives
    the last position at which node [i + 1] occurs in the order, or 0 when
    it does not occur; both output tables have one line per row. *)
Theorem generate_output_skips_unknown_ids (df : list row) (tour_order : list Z) :
  exists out,
    Reconciler.generate_output df tour_order = Ok out
    /\ length (Reconciler.result_df out) = length df
    /\ length (Reconciler.response_df out) = length df
    /\ forall (i : nat) (r : row),
         df !! i = Some r ->
         let p := ReconcilerSpec.last_position 1 (Z.of_nat i + 1) tour_order in
         Reconciler.result_df out !! i = Some (r, p)
         /\ Reconciler.response_df out !! i = Some (row_id r, p).
Proof.
  eexists. split; [reflexivity|]. simpl.
  assert (Hlen : length (Reconciler.visiting_order (length df) tour_order) = length df).
  { unfold Reconciler.visiting_order.
    by rewrite assign_positions_length, length_replicate. }
  split; [|split].
  - rewrite length_zip_with. lia.
  - rewrite length_zip_with, length_fmap. lia.
  - intros i r Hr.
    assert (Hi : (i < length df)%nat) by (by eapply lookup_lt_Some).
    pose proof (visiting_order_lookup (length df) tour_order i Hi) as Hv.
    split.
    + apply lookup_zip_with_Some. eauto.
    + apply lookup_zip_with_Some. eexists (row_id r), _.
      split; [done|]. split; [|done]. by rewrite list_lookup_fmap, Hr.
Qed.

Lemma generate_output_skips_unknown_ids_witness :
  exists out,
    Reconciler.generate_output Samples.antipodes [5; 2; 2] = Ok out
    /\ Reconciler.response_df out !! 1%nat = Some ("b", 3).
Proof.
  destruct (generate_output_skips_unknown_ids Samples.antipodes [5; 2; 2])
    as (out & Hout & _ & _ & H).
  exists out. split; [exact Hout|].
  destruct (H 1%nat {| row_id := "b"; row_lat := 0; row_lon := 180 |} eq_refl)
    as [_ H2].
  exact H2.
Defined.

(** ** Parameter file *)

Section ParFileFacts.

Import ParFile.

(** A key of the file grammar is read back from its line whatever the
    value. *)
Lemma key_of_key_value_line (key value : string) :
  key ∈ ["PROBLEM_FILE"; "MOVE_TYPE"; "PATCHING_C"; "PATCHING_A"; "RUNS";
         "MAX_TRIALS"; "POPULATION_SIZE"; "RECOMBINATION"; "TOUR_FILE"] ->
  key_of (key_value_line key value) = key.
Proof.
  intros Hk. repeat (apply elem_of_cons in Hk as [->|Hk]; [reflexivity|]).
  by apply elem_of_nil in Hk.
Qed.

End ParFileFacts.

(** C7. Both writers of the parameter file emit [KEY = VALUE] lines whose
    keys are, in order, PROBLEM_FILE, MOVE_TYPE, PATCHING_C, PATCHING_A, RUNS,
    MAX_TRIALS, then POPULATION_SIZE and RECOMBINATION exactly when the
    population size is greater than 1, then TOUR_FILE as the last line. *)
Theorem par_file_key_order (default_tour_file tsp_path tour_path : string)
    (runs move_type population_size max_trials : Z) (tour_file : option string)
    (params : Params) :
  let w1 := ParFile.generate_par_file default_tour_file tsp_path runs move_type
              population_size max_trials tour_file in
  let w2 := ParFile._create_par_file tsp_path tour_path params in
  (exists values, w1 = zip_with ParFile.key_value_line (ParFile.spec_keys population_size) values
                  /\ length values = length (ParFile.spec_keys population_size))
  /\ (exists values, w2 = zip_with ParFile.key_value_line
                            (ParFile.spec_keys (POPULATION_SIZE params)) values
                     /\ length values = length (ParFile.spec_keys (POPULATION_SIZE params)))
  /\ ParFile.key_of <$> w1 = ParFile.spec_keys population_size
  /\ ParFile.key_of <$> w2 = ParFile.spec_keys (POPULATION_SIZE params)
  /\ ("POPULATION_SIZE" ∈ ParFile.key_of <$> w1 <-> 1 < population_size)
  /\ ("RECOMBINATION" ∈ ParFile.key_of <$> w1 <-> 1 < population_size)
  /\ ("POPULATION_SIZE" ∈ ParFile.key_of <$> w2 <-> 1 < POPULATION_SIZE params)
  /\ ("RECOMBINATION" ∈ ParFile.key_of <$> w2 <-> 1 < POPULATION_SIZE params)
  /\ last (ParFile.key_of <$> w1) = Some "TOUR_FILE"
  /\ last (ParFile.key_of <$> w2) = Some "TOUR_FILE".
Proof.
  intros w1 w2.
  assert (K1 : ParFile.key_of <$> w1 = ParFile.spec_keys population_size).
  { subst w1. unfold ParFile.generate_par_file, ParFile.spec_keys.
    destruct (1 <? population_size); reflexivity. }
  assert (K2 : ParFile.key_of <$> w2 = ParFile.spec_keys (POPULATION_SIZE params)).
  { subst w2. unfold ParFile._create_par_file, ParFile.spec_keys.
    destruct (1 <? POPULATION_SIZE params); reflexivity. }
  assert (M : forall p k, k ∈ ["POPULATION_SIZE"; "RECOMBINATION"] ->
                k ∈ ParFile.spec_keys p <-> 1 < p).
  { intros p k Hk. unfold ParFile.spec_keys.
    destruct (1 <? p) eqn:E.
    - apply Z.ltb_lt in E. split; [done|]. intros _.
      repeat (apply elem_of_cons in Hk as [->|Hk]; [set_solver|]). set_solver.
    - apply Z.ltb_ge in E. split; [|lia]. intros Hin. exfalso.
      repeat (apply elem_of_cons in Hk as [->|Hk];
              [repeat (apply elem_of_cons in Hin as [Hin|Hin]; [discriminate|]);
               by apply elem_of_nil in Hin|]).
      by apply elem_of_nil in Hk. }
  assert (L : forall p, last (ParFile.spec_keys p) = Some "TOUR_FILE").
  { intros p. unfold ParFile.spec_keys. destruct (1 <? p); reflexivity. }
  rewrite K1, K2. repeat split; try (apply M; set_solver); try apply L.
  - subst w1. unfold ParFile.generate_par_file, ParFile.spec_keys.
    destruct (1 <? population_size).
    + by exists [tsp_path; ParFile.str move_type; "3"; "2"; ParFile.str runs;
                 ParFile.str max_trials; ParFile.str population_size; "CLARIST";
                 match tour_file with Some t => t | None => default_tour_file end].
    + by exists [tsp_path; ParFile.str move_type; "3"; "2"; ParFile.str runs;
                 ParFile.str max_trials;
                 match tour_file with Some t => t | None => default_tour_file end].
  - subst w2. unfold ParFile._create_par_file, ParFile.spec_keys.
    destruct (1 <? POPULATION_SIZE params).
    + by exists [tsp_path; ParFile.str (MOVE_TYPE params); ParFile.str (PATCHING_C params);
                 ParFile.str (PATCHING_A params); ParFile.str (RUNS params);
                 ParFile.str (MAX_TRIALS params); ParFile.str (POPULATION_SIZE params);
                 RECOMBINATION params; tour_path].
    + by exists [tsp_path; ParFile.str (MOVE_TYPE params); ParFile.str (PATCHING_C params);
                 ParFile.str (PATCHING_A params); ParFile.str (RUNS params);
                 ParFile.str (MAX_TRIALS params); tour_path].
Qed.

(** ** Column detection *)

Section DetectFacts.

Import Detect.

(** Every entry of the dictionary maps the lower-case form of a header to
    that header. *)
Lemma columns_lower_lookup (columns : list string) (k c : string) :
  columns_lower columns !! k = Some c -> c ∈ columns /\ lower c = k.
Proof.
  unfold columns_lower.
  assert (G : forall (d : gmap string string),
             (forall k c, d !! k = Some c -> c ∈ columns /\ lower c = k) ->
             forall cols, cols ⊆ columns ->
             forall k c, foldl (fun d col => <[lower col := col]> d) d cols !! k = Some c ->
                         c ∈ columns /\ lower c = k).
  { intros d Hd cols. revert d Hd.
    induction cols as [|col cols IH]; intros d Hd Hsub k' c'; simpl; [apply Hd|].
    apply IH; [|set_solver].
    intros k2 c2. destruct (decide (lower col = k2)) as [<-|Hne].
    - rewrite lookup_insert_eq. intros [= <-]. split; [set_solver|done].
    - rewrite lookup_insert_ne by done. apply Hd. }
  apply (G ∅); [|done]. intros k' c'. by rewrite lookup_empty.
Qed.

Lemma first_match_Some (patterns : list string) (d : gmap string string) (c : string) :
  first_match patterns d = Some c ->
  exists pattern, pattern ∈ patterns /\ d !! pattern = Some c.
Proof.
  induction patterns as [|pattern rest IH]; simpl; [done|].
  destruct (d !! pattern) as [col|] eqn:E.
  - intros [= <-]. exists pattern. split; [set_solver|done].
  - intros H. destruct (IH H) as (q & Hq & Hd). exists q. split; [set_solver|done].
Qed.

End DetectFacts.

(** C9 (as stated). With the headers city, Y-coordinate, X-coordinate,
    [detect_columns] does not select Y-coordinate and X-coordinate. *)
Lemma detect_columns_misses_coordinate_headers :
  Detect.detect_columns ["city"; "Y-coordinate"; "X-coordinate"]
  <> (Some "city", Some "Y-coordinate", Some "X-coordinate").
Proof. vm_compute. discriminate. Qed.

(** C9 (amended). [detect_columns] looks each keyword up among the whole
    lower-cased header names: with the headers city, Y-coordinate,
    X-coordinate it selects city as identifier and finds no latitude and no
    longitude column; in general a detected latitude or longitude column is
    a header whose lower-case form is one of the keywords. *)
Theorem detect_columns_whole_names :
  Detect.detect_columns ["city"; "Y-coordinate"; "X-coordinate"]
  = (Some "city", None, None)
  /\ forall (columns : list string) (id_col lat_col lon_col : option string),
       Detect.detect_columns columns = (id_col, lat_col, lon_col) ->
       (forall c, lat_col = Some c ->
                  c ∈ columns /\ Detect.lower c ∈ Detect.lat_patterns)
       /\ (forall c, lon_col = Some c ->
                     c ∈ columns /\ Detect.lower c ∈ Detect.lon_patterns).
Proof.
  split; [reflexivity|].
  intros columns id_col lat_col lon_col H.
  assert (Hlat : Detect.first_match Detect.lat_patterns (Detect.columns_lower columns)
                 = lat_col)
    by (unfold Detect.detect_columns in H; by injection H).
  assert (Hlon : Detect.first_match Detect.lon_patterns (Detect.columns_lower columns)
                 = lon_col)
    by (unfold Detect.detect_columns in H; by injection H).
  split; intros c Hc; subst;
    apply first_match_Some in Hc as (p & Hp & Hd);
    apply columns_lower_lookup in Hd as [Hin <-]; done.
Qed.

Lemma detect_columns_whole_names_witness :
  "Lat" ∈ ["Lat"; "LON"; "foo"] /\ Detect.lower "Lat" ∈ Detect.lat_patterns.
Proof.
  destruct detect_columns_whole_names as [_ H].
  destruct (H ["Lat"; "LON"; "foo"] (Some "Lat") (Some "Lat") (Some "LON") eq_refl)
    as [Hlat _].
  exact (Hlat "Lat" eq_refl).
Defined.

(** ** Pipeline *)

Section PipelineFacts.

Import Pipeline.






End PipelineFacts.



(** ** Binary64 arithmetic *)

Section SpecFloatFacts.

Lemma binary_round_aux_opp (s : bool) (m e : Z) (l : location) :
  binary_round_aux prec emax (negb s) m e l
  = SFopp (binary_round_aux prec emax s m e l).
Proof.
  unfold binary_round_aux.
  destruct (shr_fexp prec emax m e l) as [mrs' e'].
  destruct (shr_fexp prec emax _ e' loc_Exact) as [mrs'' e''].
  destruct (shr_m mrs''); [done| |done].
  by destruct (e'' <=? emax - prec).
Qed.

Lemma SFmul_opp_l (x y : spec_float) :
  SFmul prec emax (SFopp x) y = SFopp (SFmul prec emax x y).
Proof.
  destruct x as [sx|sx| |sx mx ex], y as [sy|sy| |sy my ey]; simpl;
    rewrite <- ?negb_xorb_l; try done.
  apply binary_round_aux_opp.
Qed.

Lemma SFdiv_opp_l (x y : spec_float) :
  SFdiv prec emax (SFopp x) y = SFopp (SFdiv prec emax x y).
Proof.
  destruct x as [sx|sx| |sx mx ex], y as [sy|sy| |sy my ey]; simpl;
    rewrite <- ?negb_xorb_l; try done.
  destruct (SFdiv_core_binary prec emax (Z.pos mx) ex (Z.pos my) ey) as [[mz ez] lz].
  apply binary_round_aux_opp.
Qed.

Lemma SFmul_comm (x y : spec_float) :
  SFmul prec emax x y = SFmul prec emax y x.
Proof.
  destruct x as [sx|sx| |sx mx ex], y as [sy|sy| |sy my ey]; simpl;
    rewrite ?(xorb_comm sx sy); try done.
  by rewrite Pos.mul_comm, Z.add_comm.
Qed.

Lemma binary_normalize_opp (z e : Z) :
  z <> 0 ->
  binary_normalize prec emax (- z) e false
  = SFopp (binary_normalize prec emax z e false).
Proof.
  destruct z as [|p|p]; intros Hz; [done| |]; simpl; unfold binary_round;
    destruct (shl_align _ _ _) as [mz ez].
  - apply (binary_round_aux_opp false).
  - apply (binary_round_aux_opp true).
Qed.

(** Exchanging the operands of a subtraction changes the sign of the
    result, unless both differences are [+0]. *)
Lemma SFsub_swap (x y : spec_float) :
  SFsub prec emax y x = SFopp (SFsub prec emax x y)
  \/ (SFsub prec emax x y = S754_zero false /\ SFsub prec emax y x = S754_zero false).
Proof.
  destruct x as [sx|sx| |sx mx ex], y as [sy|sy| |sy my ey]; simpl;
    try (by left);
    try (destruct sx, sy; simpl; by (left + right)).
  rewrite (Z.min_comm ey ex).
  set (a := cond_Zopp sx (Z.pos (shl_align mx ex (ex `min` ey)).1)).
  set (b := cond_Zopp sy (Z.pos (shl_align my ey (ex `min` ey)).1)).
  destruct (decide (a - b = 0)) as [Hz|Hz].
  - right. replace (b - a) with 0 by lia. rewrite Hz. done.
  - left. replace (b - a) with (- (a - b)) by lia.
    by apply binary_normalize_opp.
Qed.

Lemma SFeqb_refl (x : spec_float) :
  SFeqb x x = match x with S754_nan => false | _ => true end.
Proof.
  destruct x as [s|s| |s m e]; unfold SFeqb; simpl; try done.
  - by destruct s.
  - rewrite Z.compare_refl, Pos.compare_cont_refl. by destruct s.
Qed.

Lemma digits2_pos_shift52 (m : positive) :
  Z.pos (digits2_pos (4503599627370496 * m)) = Z.pos (digits2_pos m) + 52.
Proof. cbv [Pos.mul]. cbn [digits2_pos]. lia. Qed.

(** Doubling is exact in either form: [d + d] and [2 * d] are the same
    float. *)
Lemma SFadd_diag_double (d : spec_float) :
  valid_binary d = true ->
  SFadd prec emax d d = SFmul prec emax (S754_finite false 4503599627370496 (-51)) d.
Proof.
  destruct d as [s|s| |s m e]; simpl; try done.
  { intros _. by destruct s. }
  { intros _. by destruct s. }
  intros Hv. apply andb_true_iff in Hv as [Hc Hb].
  unfold canonical_mantissa in Hc. apply Z.eqb_eq in Hc.
  rewrite Z.min_id. unfold shl_align at 1 2. rewrite Z.sub_diag. simpl fst.
  assert (Hsum : cond_Zopp s (Z.pos m) + cond_Zopp s (Z.pos m)
                 = cond_Zopp s (Z.pos m~0)) by (destruct s; simpl; lia).
  rewrite Hsum.
  assert (HF : fexp prec emax (Z.pos (digits2_pos m) + 1 + e) - e = 0
               \/ fexp prec emax (Z.pos (digits2_pos m) + 1 + e) - e = 1).
  { revert Hc. unfold fexp, SpecFloat.emin, prec, emax. lia. }
  assert (Hadd : binary_normalize prec emax (cond_Zopp s (Z.pos m~0)) e false
                 = binary_round_aux prec emax s (Z.pos m~0) e loc_Exact).
  { assert (Hr : binary_round prec emax s m~0 e
                 = binary_round_aux prec emax s (Z.pos m~0) e loc_Exact).
    { unfold binary_round, shl_align. simpl digits2_pos.
      replace (Z.pos (Pos.succ (digits2_pos m)) + e)
        with (Z.pos (digits2_pos m) + 1 + e) by lia.
      by destruct HF as [-> | ->]. }
    by destruct s. }
  rewrite Hadd. unfold binary_round_aux.
  assert (Hshr : shr_fexp prec emax (Z.pos (4503599627370496 * m)) (-51 + e) loc_Exact
                 = shr_fexp prec emax (Z.pos m~0) e loc_Exact).
  { unfold shr_fexp, Zdigits2. rewrite digits2_pos_shift52.
    change (digits2_pos m~0) with (Pos.succ (digits2_pos m)).
    replace (Z.pos (digits2_pos m) + 52 + (-51 + e))
      with (Z.pos (digits2_pos m) + 1 + e) by lia.
    replace (Z.pos (Pos.succ (digits2_pos m)) + e)
      with (Z.pos (digits2_pos m) + 1 + e) by lia.
    replace (fexp prec emax (Z.pos (digits2_pos m) + 1 + e) - (-51 + e))
      with (fexp prec emax (Z.pos (digits2_pos m) + 1 + e) - e + 51) by lia.
    destruct HF as [-> | ->].
    - change (0 + 51) with 51. unfold shr. f_equal; first [reflexivity | lia].
    - change (1 + 51) with 52. unfold shr. f_equal; first [reflexivity | lia]. }
  by rewrite Hshr.
Qed.

End SpecFloatFacts.

Section PrimFloatFacts.

Open Scope float_scope.

Lemma Prim2SF_nan_inv (x : float) : Prim2SF x = S754_nan -> x = nan.
Proof. intros H. by apply Prim2SF_inj. Qed.

(** The tests of the interpreter, read on the representation. *)
Lemma is_nan_spec (x : float) :
  is_nan x = match Prim2SF x with S754_nan => true | _ => false end.
Proof.
  unfold is_nan. rewrite FloatAxioms.eqb_spec, SFeqb_refl. by destruct (Prim2SF x).
Qed.

Lemma is_infinity_spec (x : float) :
  is_infinity x = match Prim2SF x with S754_infinity _ => true | _ => false end.
Proof.
  unfold is_infinity. rewrite FloatAxioms.eqb_spec, FloatAxioms.abs_spec.
  by destruct (Prim2SF x) as [s|s| |s m e].
Qed.

Lemma is_zero_spec (x : float) :
  is_zero x = match Prim2SF x with S754_zero _ => true | _ => false end.
Proof.
  unfold is_zero. rewrite FloatAxioms.eqb_spec.
  change (Prim2SF zero) with (S754_zero false).
  by destruct (Prim2SF x) as [s|[]| |[] m e].
Qed.

Lemma is_nan_opp (x : float) : is_nan (- x) = is_nan x.
Proof. rewrite !is_nan_spec, FloatAxioms.opp_spec. by destruct (Prim2SF x). Qed.

Lemma is_infinity_opp (x : float) : is_infinity (- x) = is_infinity x.
Proof. rewrite !is_infinity_spec, FloatAxioms.opp_spec. by destruct (Prim2SF x). Qed.

Lemma is_zero_opp (x : float) : is_zero (- x) = is_zero x.
Proof. rewrite !is_zero_spec, FloatAxioms.opp_spec. by destruct (Prim2SF x). Qed.

Lemma is_finite_opp (x : float) : is_finite (- x) = is_finite x.
Proof. unfold is_finite. by rewrite is_nan_opp, is_infinity_opp. Qed.

Lemma abs_opp (x : float) : abs (- x) = abs x.
Proof.
  apply Prim2SF_inj. rewrite !FloatAxioms.abs_spec, FloatAxioms.opp_spec. by destruct (Prim2SF x).
Qed.

Lemma is_nan_true (x : float) : is_nan x = true -> x = nan.
Proof.
  rewrite is_nan_spec. intros H. apply Prim2SF_nan_inv.
  by destruct (Prim2SF x).
Qed.

Lemma fmul_opp_l (x y : float) : (- x) * y = - (x * y).
Proof.
  apply Prim2SF_inj. rewrite FloatAxioms.mul_spec, !FloatAxioms.opp_spec, FloatAxioms.mul_spec. apply SFmul_opp_l.
Qed.

Lemma fdiv_opp_l (x y : float) : (- x) / y = - (x / y).
Proof.
  apply Prim2SF_inj. rewrite FloatAxioms.div_spec, !FloatAxioms.opp_spec, FloatAxioms.div_spec. apply SFdiv_opp_l.
Qed.

Lemma fmul_comm (x y : float) : x * y = y * x.
Proof. apply Prim2SF_inj. rewrite !FloatAxioms.mul_spec. apply SFmul_comm. Qed.

Lemma fsub_swap (x y : float) :
  y - x = - (x - y) \/ (x - y = 0 /\ y - x = 0).
Proof.
  destruct (SFsub_swap (Prim2SF x) (Prim2SF y)) as [H|[H1 H2]].
  - left. apply Prim2SF_inj. by rewrite FloatAxioms.opp_spec, !FloatAxioms.sub_spec.
  - right. split; apply Prim2SF_inj; by rewrite FloatAxioms.sub_spec.
Qed.

(** [x + x] is [2 * x], exactly. *)
Lemma fadd_diag (x : float) : x + x = 2 * x.
Proof.
  apply Prim2SF_inj. rewrite FloatAxioms.add_spec, FloatAxioms.mul_spec.
  apply SFadd_diag_double, Prim2SF_valid.
Qed.

(** Adding to [0.0] returns the other operand, [-0.0] becoming [0.0]. *)
Lemma fadd_0_l (x : float) : x <> neg_zero -> 0 + x = x.
Proof.
  intros Hx. apply Prim2SF_inj. rewrite FloatAxioms.add_spec.
  change (Prim2SF 0) with (S754_zero false).
  destruct (Prim2SF x) as [s|s| |s m e] eqn:E; try done.
  destruct s; [|done]. exfalso. apply Hx. by apply Prim2SF_inj.
Qed.

Lemma fmul_nan_r (x : float) : x * nan = nan.
Proof.
  apply Prim2SF_inj. rewrite FloatAxioms.mul_spec.
  change (Prim2SF nan) with S754_nan. by destruct (Prim2SF x).
Qed.

Lemma fmul_nan_l (x : float) : nan * x = nan.
Proof. by rewrite fmul_comm, fmul_nan_r. Qed.

Lemma fadd_nan_r (x : float) : x + nan = nan.
Proof.
  apply Prim2SF_inj. rewrite FloatAxioms.add_spec.
  change (Prim2SF nan) with S754_nan. by destruct (Prim2SF x).
Qed.

Lemma fsub_nan_r (x : float) : x - nan = nan.
Proof.
  apply Prim2SF_inj. rewrite FloatAxioms.sub_spec.
  change (Prim2SF nan) with S754_nan. by destruct (Prim2SF x).
Qed.

Lemma fsub_nan_l (x : float) : nan - x = nan.
Proof.
  apply Prim2SF_inj. rewrite FloatAxioms.sub_spec.
  change (Prim2SF nan) with S754_nan. by destruct (Prim2SF x).
Qed.

End PrimFloatFacts.

(** ** The [math] module and the haversine distance *)

Section MathFacts.

Import PyFloat LibmSpec.
Open Scope float_scope.

Variable m : Libm.

Lemma opp_nan : - nan = nan.
Proof. reflexivity. Qed.

(** [math_1] raises one error only. *)
Lemma math_1_raise (f : float -> float) (x : float) (e : exn) :
  PyMath.math_1 f x = Raise e -> e = ValueError "math domain error".
Proof.
  unfold PyMath.math_1.
  destruct (is_nan (f x) && negb (is_nan x)); [congruence|].
  destruct (is_infinity (f x) && is_finite x); congruence.
Qed.

Lemma sin_opp (x : float) :
  sin_is_odd m ->
  PyMath.sin m (- x)
  = match PyMath.sin m x with Ok r => Ok (- r) | Raise e => Raise e end.
Proof.
  intros Hodd. unfold PyMath.sin, PyMath.math_1. rewrite Hodd.
  rewrite !is_nan_opp, is_infinity_opp, is_finite_opp.
  destruct (is_nan (libm_sin m x) && negb (is_nan x)); [done|].
  by destruct (is_infinity (libm_sin m x) && is_finite x).
Qed.

Lemma pow2_opp (x : float) : PyMath.pow2 m (- x) = PyMath.pow2 m x.
Proof.
  unfold PyMath.pow2. rewrite is_nan_opp, is_infinity_opp, is_zero_opp, abs_opp.
  destruct (is_nan x) eqn:E; [|done].
  apply is_nan_true in E. by subst x.
Qed.

(** The squared sine of half a difference does not depend on the order of
    the two operands. *)
Lemma sin2_swap {A : Type} (a b : float) (k : float -> res A) :
  sin_is_odd m ->
  (do s <- PyMath.sin m (radians (b - a) / 2); do p <- PyMath.pow2 m s; k p)
  = (do s <- PyMath.sin m (radians (a - b) / 2); do p <- PyMath.pow2 m s; k p).
Proof.
  intros Hodd. destruct (fsub_swap a b) as [H|[H1 H2]].
  - rewrite H. unfold radians. rewrite fmul_opp_l, fdiv_opp_l, sin_opp by done.
    destruct (PyMath.sin m _) as [r|e]; simpl; [|done].
    by rewrite pow2_opp.
  - by rewrite H1, H2.
Qed.

(** The distance is symmetric, errors included. *)
Lemma haversine_distance_sym (lat1 lon1 lat2 lon2 : float) :
  sin_is_odd m ->
  TspConverter.haversine_distance m lat2 lon2 lat1 lon1
  = TspConverter.haversine_distance m lat1 lon1 lat2 lon2.
Proof.
  intros Hodd. unfold TspConverter.haversine_distance.
  rewrite (sin2_swap lat2 lat1) by done.
  destruct (PyMath.sin m (radians (lat2 - lat1) / 2)) as [s1|e]; simpl; [|done].
  destruct (PyMath.pow2 m s1) as [p1|e]; simpl; [|done].
  destruct (PyMath.cos m (radians lat2)) as [c2|e2] eqn:E2,
           (PyMath.cos m (radians lat1)) as [c1|e1] eqn:E1; simpl; try done.
  - rewrite (sin2_swap lon2 lon1) by done. by rewrite (fmul_comm c2 c1).
  - apply math_1_raise in E1, E2. by subst.
Qed.

(** A coordinate that is not finite is a NaN or an infinity. *)
Lemma not_finite_cases (x : float) :
  is_finite x = false -> x = nan \/ x = infinity \/ x = neg_infinity.
Proof.
  unfold is_finite. rewrite is_nan_spec, is_infinity_spec.
  destruct (Prim2SF x) as [s|s| |s e0 e1] eqn:E; simpl; try done; intros _.
  - right. destruct s; [right|left]; by apply Prim2SF_inj.
  - left. by apply Prim2SF_inj.
Qed.

(** A difference with an operand that is not finite is not finite. *)
Lemma fsub_not_finite (x y : float) :
  is_finite x = false \/ is_finite y = false ->
  is_finite (y - x) = false.
Proof.
  unfold is_finite. rewrite !is_nan_spec, !is_infinity_spec, FloatAxioms.sub_spec.
  destruct (Prim2SF x) as [sx|sx| |sx mx ex], (Prim2SF y) as [sy|sy| |sy my ey];
    simpl; intros [H|H]; try done; by destruct sx, sy.
Qed.

(** On a difference that is not finite, the squared sine of the half
    angle is a NaN, when it is not an error. *)
Lemma sin2_not_finite (d s p : float) :
  sin_invalid_is_nan m ->
  is_finite d = false ->
  PyMath.sin m (radians d / 2) = Ok s ->
  PyMath.pow2 m s = Ok p ->
  p = nan.
Proof.
  intros (Hn & Hi & Hni) Hd.
  destruct (not_finite_cases d Hd) as [->|[->| ->]];
    unfold PyMath.sin, PyMath.math_1.
  - change (radians nan / 2) with nan. rewrite Hn. simpl.
    intros [= <-] [= <-]. done.
  - change (radians infinity / 2) with infinity. rewrite Hi. done.
  - change (radians neg_infinity / 2) with neg_infinity. rewrite Hni. done.
Qed.

Lemma tail_of_nan :
  (do q1 <- math_sqrt nan;
   do q2 <- math_sqrt (1 - nan);
   do t <- PyMath.atan2 m q1 q2;
   Ok (TspConverter.EARTH_RADIUS_KM * (2 * t))) = Ok nan.
Proof. reflexivity. Qed.

(** With a coordinate that is not finite the distance is a NaN, when it
    is not an error. *)
Lemma haversine_distance_not_finite (lat1 lon1 lat2 lon2 d : float) :
  sin_invalid_is_nan m ->
  is_finite lat1 = false \/ is_finite lon1 = false
  \/ is_finite lat2 = false \/ is_finite lon2 = false ->
  TspConverter.haversine_distance m lat1 lon1 lat2 lon2 = Ok d ->
  d = nan.
Proof.
  intros Hm Hnf. unfold TspConverter.haversine_distance.
  destruct (PyMath.sin m (radians (lat2 - lat1) / 2)) as [s1|e] eqn:Es1; simpl; [|done].
  destruct (PyMath.pow2 m s1) as [p1|e] eqn:Ep1; simpl; [|done].
  destruct (PyMath.cos m (radians lat1)) as [c1|e]; simpl; [|done].
  destruct (PyMath.cos m (radians lat2)) as [c2|e]; simpl; [|done].
  destruct (PyMath.sin m (radians (lon2 - lon1) / 2)) as [s2|e] eqn:Es2; simpl; [|done].
  destruct (PyMath.pow2 m s2) as [p2|e] eqn:Ep2; simpl; [|done].
  assert (Ha : p1 + c1 * c2 * p2 = nan).
  { assert (Hcase : is_finite (lat2 - lat1) = false \/ is_finite (lon2 - lon1) = false).
    { destruct Hnf as [H|[H|[H|H]]];
        [left|right|left|right]; apply fsub_not_finite; auto. }
    destruct Hcase as [H|H].
    - rewrite (sin2_not_finite _ _ _ Hm H Es1 Ep1).
      apply Prim2SF_inj. rewrite FloatAxioms.add_spec. done.
    - rewrite (sin2_not_finite _ _ _ Hm H Es2 Ep2).
      by rewrite fmul_nan_r, fadd_nan_r. }
  rewrite Ha, tail_of_nan. congruence.
Qed.

(** A NaN distance cannot be scaled. *)
Lemma scaled_distance_nan (scale : Z) :
  is_ok (TspConverter.scaled_distance nan scale) = false.
Proof.
  unfold TspConverter.scaled_distance.
  destruct (of_int scale) as [s|e]; simpl; [|done].
  by rewrite fmul_nan_l.
Qed.

End MathFacts.

(** The table of [Samples.libm_axis] meets both assumptions. *)
Section LibmAxisFacts.

Import PyFloat LibmSpec Samples.
Open Scope float_scope.

Lemma ltb_0_opp (x : float) :
  is_zero x = false -> is_nan x = false -> (- x <? 0) = negb (x <? 0).
Proof.
  rewrite is_zero_spec, is_nan_spec, !FloatAxioms.ltb_spec, FloatAxioms.opp_spec.
  change (Prim2SF 0) with (S754_zero false).
  by destruct (Prim2SF x) as [s|[]| |[] mx ex].
Qed.

Lemma eqb_true_not_nan (x y : float) : (x =? y) = true -> is_nan x = false.
Proof.
  rewrite FloatAxioms.eqb_spec, is_nan_spec.
  by destruct (Prim2SF x) as [s|s| |s mx ex].
Qed.

Lemma is_nan_abs (x : float) : is_nan (abs x) = is_nan x.
Proof.
  rewrite !is_nan_spec, FloatAxioms.abs_spec. by destruct (Prim2SF x).
Qed.

Lemma libm_axis_sin_odd : sin_is_odd libm_axis.
Proof.
  intros x. unfold libm_axis. cbn [libm_sin]. rewrite is_zero_opp, abs_opp.
  destruct (is_zero x) eqn:Ez; [done|].
  destruct (abs x =? 0.5 * PI) eqn:Eh; [|reflexivity].
  rewrite ltb_0_opp; [destruct (x <? 0); reflexivity | done |].
  rewrite <- is_nan_abs. by eapply eqb_true_not_nan.
Qed.

Lemma libm_axis_sin_invalid : sin_invalid_is_nan libm_axis.
Proof. repeat split. Qed.

End LibmAxisFacts.

(** ** Distance matrix *)

Section MatrixFacts.

Import PyFloat LibmSpec TspConverter.
Open Scope float_scope.

Variable m : Libm.
Variables lats lons : list float.
Variable scale : Z.

Local Abbreviation entry := (MatrixSpec.entry m lats lons scale).
Local Abbreviation good := (MatrixSpec.good m lats lons scale).

Lemma lookup_fmap_Some_eq {A B : Type} (f : A -> B) (l : list A) (i : nat)
    (a : A) (b : B) :
  l !! i = Some a -> (f <$> l) !! i = Some b -> b = f a.
Proof. intros Ha. rewrite list_lookup_fmap, Ha. by intros [= <-]. Qed.

Lemma getitem_ok {A : Type} (l : list A) (i : nat) (a : A) :
  getitem l i = Ok a -> l !! i = Some a.
Proof. unfold getitem. destruct (l !! i); congruence. Qed.

Lemma setitem_cell (M M' : list (list Z)) (i j : nat) (v : Z) (a b : nat) :
  setitem M i j v = Ok M' ->
  cell M' a b = if decide (a = i /\ b = j) then Some v else cell M a b.
Proof.
  unfold setitem. destruct (_ && _); [|done].
  destruct (M !! i) as [r|] eqn:Er; [|done].
  destruct (decide (j < length r)%nat) as [Hj|]; [|done].
  intros [= <-]. unfold cell.
  assert (Hi : (i < length M)%nat) by (by eapply lookup_lt_Some).
  destruct (decide (a = i)) as [->|Ha].
  - rewrite list_lookup_insert_eq by done. simpl.
    destruct (decide (b = j)) as [->|Hb].
    + rewrite decide_True by done. by apply list_lookup_insert_eq.
    + rewrite decide_False by tauto.
      rewrite list_lookup_insert_ne by done. by rewrite Er.
  - rewrite decide_False by tauto. by rewrite list_lookup_insert_ne.
Qed.

Lemma fill_pair_spec (i j : nat) (M M' : list (list Z)) :
  fill_pair m lats lons scale i j M = Ok M' ->
  exists z,
    entry i j z
    /\ forall a b,
         cell M' a b
         = if decide ((a = i /\ b = j) \/ (a = j /\ b = i)) then Some z
           else cell M a b.
Proof.
  unfold fill_pair. intros H.
  apply rbind_ok in H as (lat_i & H1 & H). apply rbind_ok in H as (lon_i & H2 & H).
  apply rbind_ok in H as (lat_j & H3 & H). apply rbind_ok in H as (lon_j & H4 & H).
  apply rbind_ok in H as (d & Hd & H). apply rbind_ok in H as (z & Hz & H).
  apply rbind_ok in H as (M1 & HM1 & HM').
  exists z. split.
  - exists lat_i, lon_i, lat_j, lon_j, d. eauto 10 using getitem_ok.
  - intros a b. rewrite (setitem_cell _ _ _ _ _ a b HM'), (setitem_cell _ _ _ _ _ a b HM1).
    repeat case_decide; tauto || done.
Qed.

Lemma fill_pair_good (P : nat -> nat -> Prop) (i j : nat) (M M' : list (list Z)) :
  (i < j)%nat -> good P M ->
  fill_pair m lats lons scale i j M = Ok M' ->
  good (fun a b => P a b \/ (a = i /\ b = j)) M'.
Proof.
  intros Hij HP H. apply fill_pair_spec in H as (z & Hz & Hcell).
  intros a b Hab. rewrite !Hcell.
  destruct (decide (a = i /\ b = j)) as [[-> ->]|Hne].
  - split; [done|]. exists z.
    rewrite !decide_True by tauto. done.
  - destruct Hab as [Hab|Hab]; [|tauto].
    destruct (HP a b Hab) as (Hlt & z' & Hz' & Hc1 & Hc2).
    split; [done|]. exists z'.
    rewrite !decide_False by lia. done.
Qed.

Lemma inner_loop_good (i : nat) (js : list nat) :
  forall (P : nat -> nat -> Prop) (M M' : list (list Z)),
    (forall j, j ∈ js -> (i < j)%nat) -> good P M ->
    inner_loop m lats lons scale i js M = Ok M' ->
    good (fun a b => P a b \/ (a = i /\ b ∈ js)) M'.
Proof.
  induction js as [|j js IH]; intros P M M' Hjs HP H; simpl in H.
  - injection H as <-. intros a b [Hab|[_ Hab]]; [by apply HP | by apply elem_of_nil in Hab].
  - apply rbind_ok in H as (M1 & H1 & H).
    eapply fill_pair_good in H1; [|apply Hjs; left|exact HP].
    eapply IH in H; [|intros; apply Hjs; by right|exact H1].
    intros a b Hab. apply H.
    rewrite elem_of_cons in Hab. tauto.
Qed.

Lemma outer_loop_good (n : nat) (idxs : list nat) :
  forall (P : nat -> nat -> Prop) (M M' : list (list Z)),
    good P M ->
    outer_loop m lats lons scale n idxs M = Ok M' ->
    good (fun a b => P a b \/ (a ∈ idxs /\ b ∈ seq (S a) (n - S a))) M'.
Proof.
  induction idxs as [|i idxs IH]; intros P M M' HP H; simpl in H.
  - injection H as <-. intros a b [Hab|[Hab _]]; [by apply HP | by apply elem_of_nil in Hab].
  - apply rbind_ok in H as (M1 & H1 & H).
    eapply inner_loop_good in H1; [| |exact HP].
    2:{ intros j Hj. apply elem_of_seq in Hj. lia. }
    eapply IH in H; [|exact H1].
    intros a b Hab. apply H.
    rewrite elem_of_cons in Hab.
    destruct Hab as [Hab|[[->|Hin] Hb]]; tauto.
Qed.

(** When the loops end without error, every pair [a < b < n] holds its
    entry in both triangles. *)
Lemma loops_fill_all (n : nat) (M : list (list Z)) :
  outer_loop m lats lons scale n (seq 0 n) (replicate n (replicate n 0%Z)) = Ok M ->
  forall a b, (a < b < n)%nat ->
    exists z, entry a b z /\ cell M a b = Some z /\ cell M b a = Some z.
Proof.
  intros H a b Hab.
  eapply (outer_loop_good n (seq 0 n) (fun _ _ => False)) in H; [|by intros ? ? []].
  destruct (H a b) as [_ Hz]; [|exact Hz].
  right. rewrite !elem_of_seq. lia.
Qed.

(** A pair on which the body raises stops the loops. *)
Lemma inner_loop_raises (i j : nat) (js : list nat) :
  j ∈ js ->
  (forall M, is_ok (fill_pair m lats lons scale i j M) = false) ->
  forall M, is_ok (inner_loop m lats lons scale i js M) = false.
Proof.
  intros Hj Hf. induction js as [|j' js IH]; intros M; [by apply elem_of_nil in Hj|].
  simpl. apply elem_of_cons in Hj as [<-|Hj].
  - by apply rbind_raise.
  - destruct (fill_pair m lats lons scale i j' M); simpl; [by apply IH | done].
Qed.

Lemma outer_loop_raises (n i : nat) (idxs : list nat) :
  i ∈ idxs ->
  (forall M, is_ok (inner_loop m lats lons scale i (seq (S i) (n - S i)) M) = false) ->
  forall M, is_ok (outer_loop m lats lons scale n idxs M) = false.
Proof.
  intros Hi Hf. induction idxs as [|i' idxs IH]; intros M; [by apply elem_of_nil in Hi|].
  simpl. apply elem_of_cons in Hi as [<-|Hi].
  - by apply rbind_raise.
  - destruct (inner_loop m lats lons scale i' _ M); simpl; [by apply IH | done].
Qed.

(** The body raises on a pair with a coordinate that is not finite. *)
Lemma fill_pair_not_finite (i j : nat) :
  sin_invalid_is_nan m ->
  (exists k x, (k = i \/ k = j)
               /\ (lats !! k = Some x \/ lons !! k = Some x)
               /\ is_finite x = false) ->
  forall M, is_ok (fill_pair m lats lons scale i j M) = false.
Proof.
  intros Hm (k & x & Hk & Hx & Hnf) M. unfold fill_pair, getitem.
  destruct (lats !! i) as [lat_i|] eqn:E1; simpl; [|done].
  destruct (lons !! i) as [lon_i|] eqn:E2; simpl; [|done].
  destruct (lats !! j) as [lat_j|] eqn:E3; simpl; [|done].
  destruct (lons !! j) as [lon_j|] eqn:E4; simpl; [|done].
  destruct (haversine_distance m lat_i lon_i lat_j lon_j) as [d|e] eqn:Ed; simpl; [|done].
  apply haversine_distance_not_finite in Ed as ->; [|done|].
  - apply rbind_raise, scaled_distance_nan.
  - destruct Hk as [->| ->], Hx as [Hx|Hx]; simplify_eq; tauto.
Qed.

End MatrixFacts.

(** C1 (as stated). For two antipodal points of the equator and the scale
    921135 the scaled distance is 18436620126.5 exactly; the matrix holds
    18436620126, the even neighbour, and not 18436620127, which rounding
    half away from zero gives. *)
Lemma matrix_entry_is_not_half_away :
  ~ (forall (m : Libm) (df : list row) (scale : Z) (M : list (list Z)),
        LibmSpec.sin_is_odd m ->
        (forall r, r ∈ df -> DistanceSpec.finite_row r) ->
        0 < scale ->
        TspConverter.compute_distance_matrix m df scale = Ok M ->
        forall (i j : nat) (ri rj : row),
          i <> j -> df !! i = Some ri -> df !! j = Some rj ->
          exists d s z,
            TspConverter.haversine_distance m
              (row_lat ri) (row_lon ri) (row_lat rj) (row_lon rj) = Ok d
            /\ PyFloat.of_int scale = Ok s
            /\ PyFloat.round_half_away (d * s)%float = Ok z
            /\ cell M i j = Some z).
Proof.
  intros H.
  destruct (H Samples.libm_axis Samples.antipodes 921135
              [[0; 18436620126]; [18436620126; 0]]
              libm_axis_sin_odd) with (i := 0%nat) (j := 1%nat)
              (ri := {| row_id := "a"; row_lat := 0; row_lon := 0 |})
              (rj := {| row_id := "b"; row_lat := 0; row_lon := 180 |})
    as (d & s & z & Hd & Hs & Hz & Hc); try done.
  - intros r Hr. repeat (apply elem_of_cons in Hr as [->|Hr]; [by split|]).
    by apply elem_of_nil in Hr.
  - vm_compute in Hd. injection Hd as <-.
    vm_compute in Hs. injection Hs as <-.
    vm_compute in Hz. injection Hz as <-.
    vm_compute in Hc. discriminate.
Qed.

(** C1 (amended). When [compute_distance_matrix] returns a matrix, every
    entry off the diagonal is [round(haversine(point_i, point_j) * scale)]
    for the haversine distance on a sphere of radius 6371.008 km, where
    [round] is Python's built-in: the nearest integer, a tie going to the
    even neighbour. (The symmetry of the distance uses that the sine of the
    C library is odd.) *)
Theorem matrix_entry_is_rounded_distance (m : Libm) (df : list row) (scale : Z)
    (M : list (list Z)) (i j : nat) (ri rj : row) :
  LibmSpec.sin_is_odd m ->
  TspConverter.compute_distance_matrix m df scale = Ok M ->
  i <> j -> df !! i = Some ri -> df !! j = Some rj ->
  exists d s z,
    TspConverter.haversine_distance m
      (row_lat ri) (row_lon ri) (row_lat rj) (row_lon rj) = Ok d
    /\ PyFloat.of_int scale = Ok s
    /\ PyFloat.round (d * s)%float = Ok z
    /\ cell M i j = Some z.
Proof.
  intros Hodd HM Hij Hi Hj. unfold TspConverter.compute_distance_matrix in HM.
  assert (Hli : (i < length df)%nat) by (by eapply lookup_lt_Some).
  assert (Hlj : (j < length df)%nat) by (by eapply lookup_lt_Some).
  assert (Hscaled : forall d z, TspConverter.scaled_distance d scale = Ok z ->
            exists s, PyFloat.of_int scale = Ok s /\ PyFloat.round (d * s)%float = Ok z).
  { intros d z Hz. unfold TspConverter.scaled_distance in Hz.
    apply rbind_ok in Hz as (s & Hs & Hz). eauto. }
  destruct (decide (i < j)%nat) as [Hlt|Hge].
  - destruct (loops_fill_all _ _ _ _ _ _ HM i j) as (z & Hz & Hc & _); [lia|].
    destruct Hz as (lat_i & lon_i & lat_j & lon_j & d & E1 & E2 & E3 & E4 & Hd & Hz).
    apply (lookup_fmap_Some_eq _ _ _ _ _ Hi) in E1 as ->, E2 as ->.
    apply (lookup_fmap_Some_eq _ _ _ _ _ Hj) in E3 as ->, E4 as ->.
    destruct (Hscaled _ _ Hz) as (s & Hs & Hr). eauto 10.
  - destruct (loops_fill_all _ _ _ _ _ _ HM j i) as (z & Hz & _ & Hc); [lia|].
    destruct Hz as (lat_j & lon_j & lat_i & lon_i & d & E1 & E2 & E3 & E4 & Hd & Hz).
    apply (lookup_fmap_Some_eq _ _ _ _ _ Hj) in E1 as ->, E2 as ->.
    apply (lookup_fmap_Some_eq _ _ _ _ _ Hi) in E3 as ->, E4 as ->.
    rewrite haversine_distance_sym in Hd by done.
    destruct (Hscaled _ _ Hz) as (s & Hs & Hr). eauto 10.
Qed.

Lemma matrix_entry_is_rounded_distance_witness :
  exists d s z,
    TspConverter.haversine_distance Samples.libm_axis 0 180 0 0 = Ok d
    /\ PyFloat.of_int 921135 = Ok s
    /\ PyFloat.round (d * s)%float = Ok z
    /\ cell [[0; 18436620126]; [18436620126; 0]] 1 0 = Some z.
Proof.
  apply (matrix_entry_is_rounded_distance Samples.libm_axis Samples.antipodes 921135
           [[0; 18436620126]; [18436620126; 0]] 1 0
           {| row_id := "b"; row_lat := 0; row_lon := 180 |}
           {| row_id := "a"; row_lat := 0; row_lon := 0 |}).
  - exact libm_axis_sin_odd.
  - vm_compute. reflexivity.
  - discriminate.
  - reflexivity.
  - reflexivity.
Defined.

(** C5 (as stated). A table of one row whose latitude is NaN gets its
    1 x 1 matrix: nothing is validated. *)
Lemma matrix_built_for_one_bad_row :
  ~ (forall (m : Libm) (df : list row) (scale : Z),
        ((length df < 2)%nat \/ exists r, r ∈ df /\ ~ DistanceSpec.finite_row r) ->
        is_ok (TspConverter.compute_distance_matrix m df scale) = false).
Proof.
  intros H. specialize (H Samples.libm_axis Samples.one_bad_row 100).
  vm_compute in H. discriminate H. left. constructor.
Qed.

(** C5 (amended). The construction validates nothing. With fewer than two
    points it returns the all-zero matrix, whatever the coordinates. With
    two points or more and a coordinate that is NaN or infinite it raises
    (in the [math] functions or in [round]) and returns no matrix; this uses
    that the sine of the C library is NaN on a NaN and on an infinity. *)
Theorem matrix_construction_on_bad_input (m : Libm) (df : list row) (scale : Z) :
  ((length df < 2)%nat ->
   TspConverter.compute_distance_matrix m df scale
   = Ok (replicate (length df) (replicate (length df) 0)))
  /\ ((2 <= length df)%nat ->
      LibmSpec.sin_invalid_is_nan m ->
      (exists r, r ∈ df /\ ~ DistanceSpec.finite_row r) ->
      is_ok (TspConverter.compute_distance_matrix m df scale) = false).
Proof.
  split.
  - intros Hn. destruct df as [|r0 [|r1 df]]; [done|done|simpl in Hn; lia].
  - intros Hn Hm (r & Hr & Hnf). unfold TspConverter.compute_distance_matrix.
    apply list_elem_of_lookup in Hr as [k Hk].
    assert (Hx : exists x, (row_lat <$> df) !! k = Some x /\ is_finite x = false
                           \/ (row_lon <$> df) !! k = Some x /\ is_finite x = false).
    { unfold DistanceSpec.finite_row in Hnf. rewrite !list_lookup_fmap, Hk. simpl.
      destruct (is_finite (row_lat r)) eqn:E1; [|by eauto].
      destruct (is_finite (row_lon r)) eqn:E2; [tauto|by eauto]. }
    destruct Hx as (x & Hx).
    assert (Hkn : (k < length df)%nat) by (by eapply lookup_lt_Some).
    apply (outer_loop_raises _ _ _ _ _ 0%nat); [apply elem_of_seq; lia|].
    apply (inner_loop_raises _ _ _ _ _ (if decide (k = 0%nat) then 1%nat else k));
      [apply elem_of_seq; case_decide; lia|].
    apply fill_pair_not_finite; [done|].
    exists k, x. split; [case_decide; lia|]. tauto.
Qed.

Lemma matrix_construction_on_bad_input_witness :
  TspConverter.compute_distance_matrix Samples.libm_axis Samples.one_bad_row 100
  = Ok [[0]]
  /\ is_ok (TspConverter.compute_distance_matrix Samples.libm_axis
              Samples.two_rows_inf 100) = false.
Proof.
  split.
  - apply (matrix_construction_on_bad_input Samples.libm_axis Samples.one_bad_row 100).
    simpl. lia.
  - apply (matrix_construction_on_bad_input Samples.libm_axis Samples.two_rows_inf 100).
    + simpl. lia.
    + exact libm_axis_sin_invalid.
    + exists {| row_id := "a"; row_lat := 0; row_lon := infinity |}.
      split; [left|]. intros [_ H]. discriminate H.
Defined.

(** ** Reported distance *)

Section DistanceFacts.

Import PyFloat LibmSpec DistanceSpec Solver.
Open Scope float_scope.

Variable m : Libm.

Lemma length_tail {A : Type} (l : list A) : length (tail l) = (length l - 1)%nat.
Proof. destruct l; simpl; lia. Qed.

Lemma tour_rows_lookup (df : list row) (order : list Z) :
  (forall id, id ∈ order -> (1 <= id <= Z.of_nat (length df))%Z) ->
  length (tour_rows df order) = length order
  /\ forall k id, order !! k = Some id ->
       exists r, df !! Z.to_nat (id - 1) = Some r /\ tour_rows df order !! k = Some r.
Proof.
  unfold tour_rows. induction order as [|x order IH]; intros Hv; [done|].
  destruct IH as [IHlen IHk]; [intros; apply Hv; by right|].
  assert (Hx : (1 <= x <= Z.of_nat (length df))%Z) by (apply Hv; by left).
  destruct (lookup_lt_is_Some_2 df (Z.to_nat (x - 1))) as [r Hr]; [lia|].
  simpl. rewrite Hr. simpl. split; [by f_equal|].
  intros [|k] id Hk; simpl in *; [|by apply IHk].
  injection Hk as <-. eauto.
Qed.

(** Edge [k] of the closed loop joins point [k] to point [(k + 1) mod n]. *)
Lemma closed_edges_lookup (rows : list row) (k : nat) (a b : row) :
  rows !! k = Some a ->
  rows !! ((k + 1) mod length rows)%nat = Some b ->
  closed_edges rows !! k = Some (a, b).
Proof.
  intros Ha Hb. unfold closed_edges.
  assert (Hk : (k < length rows)%nat) by (by eapply lookup_lt_Some).
  assert (Hzip : length (zip rows (tail rows)) = (length rows - 1)%nat).
  { rewrite length_zip_with, length_tail. lia. }
  destruct (decide (k + 1 < length rows)%nat) as [Hlt|Hge].
  - rewrite Nat.mod_small in Hb by done.
    rewrite lookup_app_l by lia.
    apply lookup_zip_with_Some. exists a, b. split; [done|]. split; [done|].
    rewrite lookup_tail. by replace (S k) with (k + 1)%nat by lia.
  - assert (Hlen : length rows = (k + 1)%nat) by lia.
    rewrite Hlen, Nat.Div0.mod_same in Hb.
    rewrite lookup_app_r by lia. rewrite Hzip, Hlen.
    replace (k - (k + 1 - 1))%nat with 0%nat by lia.
    destruct rows as [|first rows]; [done|].
    rewrite last_lookup, Hlen. replace (Nat.pred (k + 1)) with k by lia.
    rewrite Ha. simpl in Hb. by injection Hb as ->.
Qed.

Lemma closed_edges_length (rows : list row) :
  length (closed_edges rows) = length rows.
Proof.
  destruct rows as [|r0 rows]; [done|]. unfold closed_edges.
  rewrite length_app, length_zip_with, length_tail.
  destruct (last (r0 :: rows)) eqn:El.
  - cbn [length]. lia.
  - by apply last_None in El.
Qed.

Lemma iloc_valid (df : list row) (id : Z) (r : row) :
  (1 <= id <= Z.of_nat (length df))%Z ->
  df !! Z.to_nat (id - 1) = Some r ->
  iloc df (id - 1) = Ok r.
Proof.
  intros Hid Hr. unfold iloc, getitem.
  destruct (0 <=? id - 1)%Z eqn:E1; [|apply Z.leb_gt in E1; lia].
  destruct (id - 1 <? Z.of_nat (length df))%Z eqn:E2; [|apply Z.ltb_ge in E2; lia].
  simpl. by rewrite Hr.
Qed.

(** The loop from index [k] on adds the edges from edge [k] on. *)
Lemma distance_loop_sum (df : list row) (order : list Z) :
  (forall id, id ∈ order -> (1 <= id <= Z.of_nat (length df))%Z) ->
  forall (c k : nat) (total : float),
    (k + c = length order)%nat ->
    distance_loop m df order (seq k c) total
    = sum_edges m total (drop k (closed_edges (tour_rows df order))).
Proof.
  intros Hv. destruct (tour_rows_lookup df order Hv) as [Hlen Hrows].
  assert (Hedges : length (closed_edges (tour_rows df order)) = length order)
    by (by rewrite closed_edges_length).
  induction c as [|c IH]; intros k total Hk; simpl.
  - rewrite drop_ge; [done | lia].
  - assert (Hk1 : (k < length order)%nat) by lia.
    assert (Hk2 : ((k + 1) mod length order < length order)%nat)
      by (apply Nat.mod_upper_bound; lia).
    destruct (lookup_lt_is_Some_2 order k Hk1) as [id1 Hid1].
    destruct (lookup_lt_is_Some_2 order _ Hk2) as [id2 Hid2].
    destruct (Hrows _ _ Hid1) as (r1 & Hr1 & Hrow1).
    destruct (Hrows _ _ Hid2) as (r2 & Hr2 & Hrow2).
    unfold getitem at 1 2. rewrite Hid1, Hid2. simpl.
    rewrite (iloc_valid df id1 r1), (iloc_valid df id2 r2);
      [|apply Hv; by eapply list_elem_of_lookup_2 |done
       |apply Hv; by eapply list_elem_of_lookup_2 |done].
    simpl.
    rewrite <- Hlen in Hrow2.
    rewrite (drop_S _ (r1, r2) k) by (by apply closed_edges_lookup).
    simpl. destruct (TspConverter.haversine_distance m _ _ _ _); simpl; [|done].
    apply IH. lia.
Qed.

(** For two points the loop adds the same distance twice. *)
Lemma two_point_tour (r0 r1 : row) (d : float) :
  sin_is_odd m ->
  TspConverter.haversine_distance m (row_lat r0) (row_lon r0) (row_lat r1) (row_lon r1)
  = Ok d ->
  _calculate_distance m [r0; r1] [1; 2]%Z = Ok (0 + d + d)
  /\ _calculate_distance m [r0; r1] [2; 1]%Z = Ok (0 + d + d).
Proof.
  intros Hodd Hd.
  pose proof Hd as Hd'. rewrite <- haversine_distance_sym in Hd' by done.
  unfold _calculate_distance. simpl. unfold iloc, getitem. simpl.
  by rewrite Hd, Hd'.
Qed.

Lemma double_from_zero (d : float) :
  0 + d + d = 2 * d \/ (d = neg_zero /\ 0 + d + d = 0).
Proof.
  destruct (PrimFloat.Leibniz.eqb d neg_zero) eqn:E.
  - apply FloatAxioms.Leibniz.eqb_spec in E as ->. by right.
  - left. rewrite fadd_0_l; [apply fadd_diag|].
    intros ->. by rewrite (proj2 (FloatAxioms.Leibniz.eqb_spec _ _) eq_refl) in E.
Qed.

End DistanceFacts.

(** C8. For a tour over the rows of the table, the reported total is the
    float64 sum, taken in tour order from 0.0, of the haversine distances
    (radius 6371.008 km, unscaled) between consecutive points, the last edge
    going from the last point back to the first. For two points it is twice
    the distance between them (as floats compare: when that distance is
    [-0.0] the total is [0.0]). The symmetry of the distance uses that
    the sine of the C library is odd. *)
Theorem total_distance_is_closed_loop_sum (m : Libm) (df : list row)
    (tour_order : list Z) :
  ((forall id, id ∈ tour_order -> 1 <= id <= Z.of_nat (length df)) ->
   Solver._calculate_distance m df tour_order
   = DistanceSpec.sum_edges m 0%float
       (DistanceSpec.closed_edges (DistanceSpec.tour_rows df tour_order)))
  /\ (forall (r0 r1 : row) (d : float),
        LibmSpec.sin_is_odd m ->
        df = [r0; r1] -> tour_order = [1; 2] \/ tour_order = [2; 1] ->
        TspConverter.haversine_distance m
          (row_lat r0) (row_lon r0) (row_lat r1) (row_lon r1) = Ok d ->
        exists total,
          Solver._calculate_distance m df tour_order = Ok total
          /\ (total = (2 * d)%float \/ (d = neg_zero /\ total = 0%float))).
Proof.
  split.
  - intros Hv. unfold Solver._calculate_distance.
    rewrite (distance_loop_sum m df tour_order Hv (length tour_order) 0); [done|lia].
  - intros r0 r1 d Hodd -> Horder Hd.
    destruct (two_point_tour m r0 r1 d Hodd Hd) as [H12 H21].
    exists (0 + d + d)%float. split; [by destruct Horder as [-> | ->]|].
    apply double_from_zero.
Qed.

Lemma total_distance_is_closed_loop_sum_witness :
  Solver._calculate_distance Samples.libm_axis Samples.antipodes [2; 1]
  = DistanceSpec.sum_edges Samples.libm_axis 0%float
      (DistanceSpec.closed_edges (DistanceSpec.tour_rows Samples.antipodes [2; 1]))
  /\ exists total,
       Solver._calculate_distance Samples.libm_axis Samples.antipodes [2; 1] = Ok total
       /\ (total = (2 * (TspConverter.EARTH_RADIUS_KM * PyFloat.PI))%float
           \/ ((TspConverter.EARTH_RADIUS_KM * PyFloat.PI)%float = neg_zero
               /\ total = 0%float)).
Proof.
  destruct (total_distance_is_closed_loop_sum Samples.libm_axis Samples.antipodes [2; 1])
    as [H1 H2].
  split.
  - apply H1. intros id Hid.
    repeat (apply elem_of_cons in Hid as [->|Hid]; [simpl; lia|]).
    by apply elem_of_nil in Hid.
  - apply (H2 {| row_id := "a"; row_lat := 0; row_lon := 0 |}
              {| row_id := "b"; row_lat := 0; row_lon := 180 |}).
    + exact libm_axis_sin_odd.
    + reflexivity.
    + by right.
    + vm_compute. reflexivity.
Defined.

(** ** The two haversine functions *)

Section RadiusFacts.

Import PyFloat DistanceSpec.
Open Scope float_scope.

Variable m : Libm.

(** Both functions multiply the same central angle by their own radius:
    6371.008 km in [tsp_converter.py], 6371.0 km in [visualize_tour.py]. *)
Lemma haversine_is_radius_times_angle (lat1 lon1 lat2 lon2 : float) :
  TspConverter.haversine_distance m lat1 lon1 lat2 lon2
  = (do c <- AngleSpec.central_angle m lat1 lon1 lat2 lon2;
     Ok (TspConverter.EARTH_RADIUS_KM * c))
  /\ Visualize.haversine_distance m lat1 lon1 lat2 lon2
     = (do c <- AngleSpec.central_angle m lat1 lon1 lat2 lon2;
        Ok (Visualize.EARTH_RADIUS_KM * c)).
Proof.
  unfold TspConverter.haversine_distance, Visualize.haversine_distance,
    AngleSpec.central_angle.
  split;
    repeat match goal with
           | |- rbind ?x _ = rbind (rbind ?x _) _ => destruct x; simpl; [|done]
           end; done.
Qed.






End RadiusFacts.


(** At that input the other float64 readings of the ratio fail as well:
    multiplying by 6371.0 and dividing by 6371.008 in either order, and
    dividing the two results. *)
Lemma map_distance_ratio_readings :
  let v := 0x1.15fcc0c80cbf3p+13%float in
  let t := 0x1.15fcd7a867288p+13%float in
  let r_map := Visualize.EARTH_RADIUS_KM in
  let r_conv := TspConverter.EARTH_RADIUS_KM in
  Visualize.haversine_distance Samples.libm_equator 0 0 0 80 = Ok v
  /\ TspConverter.haversine_distance Samples.libm_equator 0 0 0 80 = Ok t
  /\ PrimFloat.eqb v (r_map / r_conv * t) = false
  /\ PrimFloat.eqb v (t * r_map / r_conv) = false
  /\ PrimFloat.eqb v (t / r_conv * r_map) = false
  /\ PrimFloat.eqb (v / t) (r_map / r_conv) = false
  /\ PrimFloat.eqb (v * r_conv) (t * r_map) = false.
Proof. repeat split; vm_compute; reflexivity. Qed.

(** * Further properties of the code *)

(** ** Shape of the distance matrix *)

Section MatrixShape.

Import TspSpec.

Variable m : Libm.
Variables lats lons : list float.
Variable scale : Z.

Lemma shape_kept_zeros (n : nat) : shape_kept n (replicate n (replicate n 0)).
Proof.
  split; [|split].
  - split; [apply length_replicate|].
    apply Forall_forall. intros r Hr. apply elem_of_replicate in Hr as [-> _].
    apply length_replicate.
  - intros a Ha. unfold cell. rewrite lookup_replicate_2 by done. simpl.
    by rewrite lookup_replicate_2.
  - intros a b z. unfold cell.
    destruct (replicate n (replicate n 0) !! a) as [r|] eqn:Er; [|done]. simpl.
    apply lookup_replicate in Er as [-> _].
    intros Hz. apply lookup_replicate in Hz as [-> _]. lia.
Qed.

Lemma setitem_shape_kept (n i j : nat) (v : Z) (M M' : list (list Z)) :
  i <> j -> shape_kept n M -> TspConverter.setitem M i j v = Ok M' -> shape_kept n M'.
Proof.
  intros Hij ([Hlen Hrows] & Hdiag & Hrange) H.
  pose proof (setitem_cell M M' i j v) as Hcell.
  unfold TspConverter.setitem in H.
  destruct ((- 2 ^ 63 <=? v) && (v <? 2 ^ 63)) eqn:Hv; [|done].
  apply andb_true_iff in Hv as [Hv1 Hv2].
  apply Z.leb_le in Hv1. apply Z.ltb_lt in Hv2.
  destruct (M !! i) as [r|] eqn:Er; [|done].
  destruct (decide (j < length r)%nat) as [Hj|]; [|done].
  assert (HM' : TspConverter.setitem M i j v = Ok M').
  { unfold TspConverter.setitem. rewrite Er. rewrite decide_True by done.
    replace ((- 2 ^ 63 <=? v) && (v <? 2 ^ 63)) with true; [done|].
    symmetry. apply andb_true_iff. split; [by apply Z.leb_le | by apply Z.ltb_lt]. }
  injection H as <-. split; [|split].
  - split; [by rewrite length_insert|].
    apply Forall_insert; [done|]. rewrite length_insert.
    eapply Forall_lookup_1 in Hrows; [|exact Er]. done.
  - intros a Ha. rewrite (Hcell a a HM'). rewrite decide_False by lia. by apply Hdiag.
  - intros a b z. rewrite (Hcell a b HM'). case_decide.
    + intros [= <-]. lia.
    + apply Hrange.
Qed.

Lemma fill_pair_shape_kept (n i j : nat) (M M' : list (list Z)) :
  i <> j -> shape_kept n M ->
  TspConverter.fill_pair m lats lons scale i j M = Ok M' -> shape_kept n M'.
Proof.
  intros Hij HM H. unfold TspConverter.fill_pair in H.
  apply rbind_ok in H as (lat_i & _ & H). apply rbind_ok in H as (lon_i & _ & H).
  apply rbind_ok in H as (lat_j & _ & H). apply rbind_ok in H as (lon_j & _ & H).
  apply rbind_ok in H as (d & _ & H). apply rbind_ok in H as (z & _ & H).
  apply rbind_ok in H as (M1 & HM1 & HM').
  eapply setitem_shape_kept in HM1; [|done|exact HM].
  eapply setitem_shape_kept in HM'; [done|lia|exact HM1].
Qed.

Lemma inner_loop_shape_kept (n i : nat) (js : list nat) :
  forall M M', (forall j, j ∈ js -> i <> j) -> shape_kept n M ->
    TspConverter.inner_loop m lats lons scale i js M = Ok M' -> shape_kept n M'.
Proof.
  induction js as [|j js IH]; intros M M' Hjs HM H; simpl in H.
  - by injection H as <-.
  - apply rbind_ok in H as (M1 & H1 & H).
    eapply fill_pair_shape_kept in H1; [|apply Hjs; left|exact HM].
    eapply IH; [|exact H1|exact H]. intros j' Hj'. apply Hjs. by right.
Qed.

Lemma outer_loop_shape_kept (n k : nat) (idxs : list nat) :
  forall M M', shape_kept n M ->
    TspConverter.outer_loop m lats lons scale k idxs M = Ok M' -> shape_kept n M'.
Proof.
  induction idxs as [|i idxs IH]; intros M M' HM H; simpl in H.
  - by injection H as <-.
  - apply rbind_ok in H as (M1 & H1 & H).
    eapply inner_loop_shape_kept in H1; [|intros j Hj; apply elem_of_seq in Hj; lia|exact HM].
    eapply IH; [exact H1|exact H].
Qed.

End MatrixShape.

Lemma compute_distance_matrix_shape (m : Libm) (df : list row) (scale : Z)
    (M : list (list Z)) :
  TspConverter.compute_distance_matrix m df scale = Ok M ->
  TspSpec.shape_kept (length df) M.
Proof.
  intros H. unfold TspConverter.compute_distance_matrix in H.
  exact (outer_loop_shape_kept m _ _ scale (length df) (length df) _ _ _
           (shape_kept_zeros (length df)) H).
Qed.

(** X1. When [compute_distance_matrix] returns, the matrix is square of side
    [len(df)], its diagonal is zero, it is symmetric, and every entry is an
    [int64] value. No assumption on the C library is needed. *)
Theorem distance_matrix_is_symmetric (m : Libm) (df : list row) (scale : Z)
    (M : list (list Z)) :
  TspConverter.compute_distance_matrix m df scale = Ok M ->
  TspSpec.square (length df) M
  /\ (forall i, (i < length df)%nat -> cell M i i = Some 0)
  /\ (forall i j, cell M i j = cell M j i)
  /\ (forall i j z, cell M i j = Some z -> - 2 ^ 63 <= z < 2 ^ 63).
Proof.
  intros H.
  pose proof (compute_distance_matrix_shape m df scale M H) as (Hsq & Hdiag & Hrange).
  unfold TspConverter.compute_distance_matrix in H.
  split; [done|]. split; [done|]. split; [|done].
  assert (Hout : forall i j, (length df <= i)%nat -> cell M i j = None /\ cell M j i = None).
  { intros i j Hi. destruct Hsq as [Hlen Hrows]. unfold cell. split.
    - rewrite (lookup_ge_None_2 M i) by lia. done.
    - destruct (M !! j) as [r|] eqn:Er; [|done]. simpl.
      eapply Forall_lookup_1 in Hrows; [|exact Er].
      apply lookup_ge_None_2. lia. }
  intros i j.
  destruct (decide (i < length df)%nat) as [Hi|Hi];
    [|destruct (Hout i j) as [-> ->]; [lia|done]].
  destruct (decide (j < length df)%nat) as [Hj|Hj];
    [|destruct (Hout j i) as [-> ->]; [lia|done]].
  destruct (Nat.lt_trichotomy i j) as [Hlt|[->|Hgt]]; [|done|].
  - destruct (loops_fill_all m _ _ scale _ _ H i j) as (z & _ & -> & ->); [lia|done].
  - destruct (loops_fill_all m _ _ scale _ _ H j i) as (z & _ & -> & ->); [lia|done].
Qed.

Lemma distance_matrix_is_symmetric_witness :
  TspSpec.square 2 [[0; 18436620126]; [18436620126; 0]]
  /\ (forall i, (i < 2)%nat -> cell [[0; 18436620126]; [18436620126; 0]] i i = Some 0)
  /\ (forall i j, cell [[0; 18436620126]; [18436620126; 0]] i j
                  = cell [[0; 18436620126]; [18436620126; 0]] j i)
  /\ (forall i j z, cell [[0; 18436620126]; [18436620126; 0]] i j = Some z ->
                    - 2 ^ 63 <= z < 2 ^ 63).
Proof.
  apply (distance_matrix_is_symmetric Samples.libm_axis Samples.antipodes 921135).
  vm_compute. reflexivity.
Defined.

(** ** Decimal numerals *)

Section Numerals.

Import PyStr.

(** A string without white space. *)
Local Abbreviation solid t :=
  (Forall (fun c => is_space c = false) (list_ascii_of_string t)).

Lemma append_cons (c : ascii) (r s : string) : String c r ++ s = String c (r ++ s).
Proof. reflexivity. Qed.

Lemma append_nil_r (s : string) : s ++ EmptyString = s.
Proof. induction s as [|c r IH]; [done|]. by rewrite append_cons, IH. Qed.

Lemma append_assoc (s t u : string) : (s ++ t) ++ u = s ++ (t ++ u).
Proof. induction s as [|c r IH]; [done|]. by rewrite !append_cons, IH. Qed.

Lemma pretty_N_char_digit (d : N) :
  (d < 10)%N ->
  is_digit (pretty_N_char d) = true
  /\ digit_value (pretty_N_char d) = Z.of_N d
  /\ is_space (pretty_N_char d) = false.
Proof.
  intros Hd.
  assert (d = 0 \/ d = 1 \/ d = 2 \/ d = 3 \/ d = 4 \/ d = 5 \/ d = 6 \/ d = 7
          \/ d = 8 \/ d = 9)%N as Hc by lia.
  repeat (destruct Hc as [->|Hc]; [by vm_compute|]). subst. by vm_compute.
Qed.

Lemma Z_of_N_div_mod_10 (x : N) :
  Z.of_N x = 10 * Z.of_N (x / 10) + Z.of_N (x mod 10).
Proof.
  rewrite (N.div_mod x 10) at 1 by done. lia.
Qed.

(** The digits written for [x] in front of [s] are read back as [x],
    shifted by what [s] holds. *)
Lemma int_digits_pretty_N_go (x : N) :
  (0 < x)%N ->
  exists j, 0 <= j /\
    forall s k v, 0 <= k ->
      (forall acc, int_digits acc true s = Some (acc * 10 ^ k + v)) ->
      forall acc b,
        int_digits acc b (pretty_N_go x s)
        = Some ((acc * 10 ^ j + Z.of_N x) * 10 ^ k + v).
Proof.
  induction (N.lt_wf_0 x) as [x _ IH]. intros Hx.
  destruct (pretty_N_char_digit (x mod 10)) as (Hd & Hv & _);
    [by apply N.mod_lt|].
  pose proof (Z_of_N_div_mod_10 x) as Hx10.
  assert (Hstep : forall s k v, 0 <= k ->
            (forall acc, int_digits acc true s = Some (acc * 10 ^ k + v)) ->
            forall acc b,
              int_digits acc b (String (pretty_N_char (x mod 10)) s)
              = Some (acc * 10 ^ (k + 1) + (Z.of_N (x mod 10) * 10 ^ k + v))).
  { intros s k v Hk Hs acc b. cbn [int_digits]. rewrite Hd, Hv, Hs.
    f_equal. rewrite Z.pow_add_r by lia. change (10 ^ 1) with 10. ring. }
  destruct (decide (x / 10 = 0)%N) as [Hz|Hnz].
  - exists 1. split; [lia|]. intros s k v Hk Hs acc b.
    rewrite pretty_N_go_step, Hz, pretty_N_go_0 by done.
    rewrite (Hstep s k v Hk Hs). f_equal.
    rewrite Hz in Hx10. rewrite Hx10, Z.pow_add_r by lia.
    change (10 ^ 1) with 10. change (Z.of_N 0) with 0. ring.
  - destruct (IH (x / 10)%N) as (j & Hj & IHx);
      [by apply N.div_lt|by apply N.neq_0_lt_0|].
    exists (j + 1). split; [lia|]. intros s k v Hk Hs acc b.
    rewrite pretty_N_go_step by done.
    rewrite (IHx _ (k + 1) (Z.of_N (x mod 10) * 10 ^ k + v)); [|lia|].
    + f_equal. rewrite Hx10, !Z.pow_add_r by lia. change (10 ^ 1) with 10. ring.
    + intros acc'. by apply Hstep.
Qed.

Lemma solid_pretty_N_go (x : N) (s : string) :
  solid s -> solid (pretty_N_go x s).
Proof.
  revert s. induction (N.lt_wf_0 x) as [x _ IH]. intros s Hs.
  destruct (decide (0 < x)%N) as [Hx|Hx].
  - rewrite pretty_N_go_step by done. apply IH; [by apply N.div_lt|].
    constructor; [|done]. apply pretty_N_char_digit. by apply N.mod_lt.
  - replace x with 0%N by lia. by rewrite pretty_N_go_0.
Qed.

Lemma pretty_N_go_nonempty (x : N) (s : string) :
  (0 < x)%N -> pretty_N_go x s <> EmptyString.
Proof.
  revert s. induction (N.lt_wf_0 x) as [x _ IH]. intros s Hx.
  rewrite pretty_N_go_step by done.
  destruct (decide (x / 10 = 0)%N) as [Hd|Hd].
  - by rewrite Hd, pretty_N_go_0.
  - apply IH; [by apply N.div_lt|by apply N.neq_0_lt_0].
Qed.

(** [str(z)] of an integer has no white space and is not empty. *)
Lemma solid_str (z : Z) : solid (ParFile.str z) /\ ParFile.str z <> EmptyString.
Proof.
  unfold ParFile.str, pretty, pretty_Z.
  destruct z as [|p|p]; [split; [by repeat constructor|done]| |].
  - unfold pretty, pretty_positive, pretty, pretty_N.
    rewrite decide_False by done.
    split; [by apply solid_pretty_N_go | by apply pretty_N_go_nonempty].
  - unfold pretty, pretty_positive, pretty, pretty_N.
    rewrite decide_False by done.
    change ("-" +:+ ?t) with (String "-" t).
    split; [|done]. constructor; [done|]. by apply solid_pretty_N_go.
Qed.




(** The white space of [int] is white space of [str.strip]. *)
Lemma is_c_space_is_space (c : ascii) : is_space c = false -> is_c_space c = false.
Proof.
  unfold is_space, is_c_space. intros H.
  apply orb_false_iff in H as [H1 H2]. rewrite H1. simpl.
  apply Nat.eqb_neq. intros E. rewrite E in H2. done.
Qed.

Lemma int_lstrip_solid (t w : string) :
  solid t -> t <> EmptyString -> int_lstrip (t ++ w) = t ++ w.
Proof.
  destruct t as [|c r]; [done|]. intros Ht _.
  apply Forall_cons in Ht as [Hc _]. rewrite append_cons. cbn [int_lstrip].
  by rewrite (is_c_space_is_space c Hc).
Qed.

Lemma int_rstrip_solid (t w : string) :
  solid t -> int_rstrip w = EmptyString -> int_rstrip (t ++ w) = t.
Proof.
  intros Ht Hw. induction t as [|c r IH]; [done|].
  apply Forall_cons in Ht as [Hc Hr]. rewrite append_cons. cbn [int_rstrip].
  rewrite (IH Hr), (is_c_space_is_space c Hc). by destruct r.
Qed.

Lemma int_strip_solid (t w : string) :
  solid t -> t <> EmptyString -> int_rstrip w = EmptyString ->
  int_rstrip (int_lstrip (t ++ w)) = t.
Proof.
  intros Ht Hne Hw. rewrite int_lstrip_solid by done. by apply int_rstrip_solid.
Qed.

(** The digits written for a number below [10^k] are at most [k]. *)
Lemma count_digits_pretty_N_go (x : N) :
  forall (k : Z) (s : string),
    0 <= k -> Z.of_N x < 10 ^ k ->
    count_digits (pretty_N_go x s) <= k + count_digits s.
Proof.
  induction (N.lt_wf_0 x) as [x _ IH]. intros k s Hk Hx.
  destruct (decide (0 < x)%N) as [Hpos|Hz].
  - assert (Hk1 : 1 <= k).
    { destruct (decide (k = 0)) as [->|]; [|lia]. simpl in Hx. lia. }
    rewrite pretty_N_go_step by done.
    destruct (pretty_N_char_digit (x mod 10)) as (Hd & _ & _);
      [by apply N.mod_lt|].
    assert (Hdiv : Z.of_N (x / 10) < 10 ^ (k - 1)).
    { pose proof (Z_of_N_div_mod_10 x) as Hx10.
      pose proof (N2Z.is_nonneg (x mod 10)) as Hm.
      replace k with (1 + (k - 1)) in Hx by lia.
      rewrite Z.pow_add_r in Hx by lia. change (10 ^ 1) with 10 in Hx.
      revert Hx10 Hm Hx.
      generalize (Z.of_N (x / 10)), (Z.of_N (x mod 10)), (Z.of_N x), (10 ^ (k - 1)).
      intros; lia. }
    specialize (IH (x / 10)%N (N.div_lt x 10 Hpos eq_refl) (k - 1)
                  (String (pretty_N_char (x mod 10)) s)).
    cbn [count_digits] in IH. rewrite Hd in IH. lia.
  - replace x with 0%N by lia. rewrite pretty_N_go_0. lia.
Qed.

(** A literal that begins with a digit and is short enough is read by
    [int] as [int_digits] reads it. *)
Lemma int_of_digits (s t : string) (v : Z) :
  int_rstrip (int_lstrip s) = t ->
  int_digits 0 false t = Some v ->
  count_digits t <= int_max_str_digits ->
  PyStr.int s = Some v.
Proof.
  intros Hs Hd Hc. unfold PyStr.int. rewrite Hs.
  assert (E : int_literal t = Some v).
  { unfold int_literal. by rewrite (proj2 (Z.ltb_ge _ _) Hc). }
  destruct t as [|c r]; [done|].
  assert (Hdig : is_digit c = true).
  { cbn [int_digits] in Hd. destruct (is_digit c); [done|].
    by rewrite andb_false_r in Hd. }
  revert E. generalize int_literal. intros f E.
  destruct c as [[] [] [] [] [] [] [] []]; try discriminate Hdig; exact E.
Qed.

Lemma pretty_pos (p : positive) :
  ParFile.str (Z.pos p) = pretty_N_go (N.pos p) EmptyString.
Proof.
  unfold ParFile.str, pretty, pretty_Z, pretty, pretty_positive, pretty, pretty_N.
  by rewrite decide_False.
Qed.

Lemma pretty_neg (p : positive) :
  ParFile.str (Z.neg p) = String "-" (pretty_N_go (N.pos p) EmptyString).
Proof.
  unfold ParFile.str, pretty, pretty_Z, pretty, pretty_positive, pretty, pretty_N.
  by rewrite decide_False.
Qed.

Lemma int_digits_pos (p : positive) (b : bool) :
  int_digits 0 b (pretty_N_go (N.pos p) EmptyString) = Some (Z.pos p).
Proof.
  destruct (int_digits_pretty_N_go (N.pos p)) as (j & Hj & Hgo); [done|].
  rewrite (Hgo EmptyString 0 0 (Z.le_refl 0)); [f_equal; simpl; lia|].
  intros acc. cbn [int_digits]. f_equal. lia.
Qed.

Lemma count_digits_pos (p : positive) :
  Z.pos p < 10 ^ 4300 ->
  count_digits (pretty_N_go (N.pos p) EmptyString) <= int_max_str_digits.
Proof.
  intros Hp.
  pose proof (count_digits_pretty_N_go (N.pos p) 4300 EmptyString) as Hc.
  cbn [count_digits] in Hc. unfold int_max_str_digits.
  rewrite Z.add_0_r in Hc. apply Hc; [done|exact Hp].
Qed.

(** Reading the numeral of an integer of at most 4300 digits, whatever
    white space follows. *)
Lemma int_str_then_space (z : Z) (w : string) :
  int_rstrip w = EmptyString ->
  - 10 ^ 4300 < z < 10 ^ 4300 ->
  PyStr.int (ParFile.str z ++ w) = Some z.
Proof.
  intros Hw [Hlo Hhi].
  destruct (solid_str z) as [Hs Hne].
  pose proof (int_strip_solid _ w Hs Hne Hw) as Hstrip.
  destruct z as [|p|p].
  - unfold PyStr.int. rewrite Hstrip. reflexivity.
  - apply (int_of_digits _ _ _ Hstrip); rewrite pretty_pos.
    + apply int_digits_pos.
    + by apply count_digits_pos.
  - unfold PyStr.int. rewrite Hstrip, pretty_neg. cbv iota beta.
    unfold int_literal.
    rewrite (proj2 (Z.ltb_ge _ _)).
    + by rewrite int_digits_pos.
    + apply count_digits_pos.
      assert (Hn : Z.neg p = - Z.pos p) by done. rewrite Hn in Hlo.
      revert Hlo. generalize (10 ^ 4300). intros; lia.
Qed.

(** [int(str(z)) == z] for an integer of at most 4300 digits. *)
Lemma int_str (z : Z) :
  - 10 ^ 4300 < z < 10 ^ 4300 -> PyStr.int (ParFile.str z) = Some z.
Proof.
  intros Hz. rewrite <- (append_nil_r (ParFile.str z)). by apply int_str_then_space.
Qed.

Lemma split_on_solid (t cur rest : string) :
  solid t ->
  split_on " " cur (t ++ rest) = split_on " " (cur ++ t) rest.
Proof.
  revert cur. induction t as [|c r IH]; intros cur Ht.
  - by rewrite append_nil_r.
  - apply Forall_cons in Ht as [Hc Hr]. rewrite append_cons. cbn [split_on].
    replace (Ascii.eqb c " ") with false.
    + rewrite (IH _ Hr). f_equal. rewrite append_assoc. done.
    + symmetry. apply Ascii.eqb_neq. intros ->. done.
Qed.

(** The fields of a written row are read back as its entries. *)
Lemma read_row_join (v : Z) (vs : list Z) :
  Forall (fun z => - 10 ^ 4300 < z < 10 ^ 4300) (v :: vs) ->
  TspSpec.read_row (PyText.join " " (ParFile.str <$> v :: vs) ++ ParFile.nl)
  = Some (v :: vs).
Proof.
  unfold TspSpec.read_row, PyStr.split. revert v.
  induction vs as [|v' vs IH]; intros v Hb;
    apply Forall_cons in Hb as [Hv Hb].
  - cbn [fmap list_fmap PyText.join].
    rewrite split_on_solid by apply solid_str.
    change (EmptyString ++ ?t) with t.
    change (split_on " " (ParFile.str v) ParFile.nl)
      with [ParFile.str v ++ ParFile.nl].
    cbn [mapM]. rewrite int_str_then_space by done. done.
  - change (PyText.join " " (ParFile.str <$> v :: v' :: vs))
      with (ParFile.str v ++ " " ++ PyText.join " " (ParFile.str <$> v' :: vs)).
    rewrite !append_assoc.
    rewrite split_on_solid by apply solid_str.
    change (EmptyString ++ ?t) with t.
    change (" " ++ ?t) with (String " " t). cbn [split_on].
    change (Ascii.eqb " " " ") with true. cbn [mapM].
    rewrite int_str, (IH v') by done. done.
Qed.

End Numerals.

(** ** The problem file *)

Section TspFileFacts.

Import TspFile TspSpec.

Lemma row_cells_ok (M : list (list Z)) (i : nat) (r : list Z) :
  M !! i = Some r ->
  forall k a, (a + k <= length r)%nat ->
    row_cells M i (seq a k) = Ok (ParFile.str <$> take k (drop a r)).
Proof.
  intros Hr. induction k as [|k IH]; intros a Hk; [done|].
  destruct (lookup_lt_is_Some_2 r a) as [v Hv]; [lia|].
  cbn [seq row_cells]. unfold matrix_getitem, cell. rewrite Hr. simpl. rewrite Hv.
  simpl. rewrite IH by lia. simpl.
  by rewrite (drop_S r v a Hv).
Qed.

Lemma matrix_rows_ok (n : nat) (M : list (list Z)) :
  square n M ->
  forall k a, (a + k <= n)%nat ->
    matrix_rows M n (seq a k)
    = Ok ((fun r => PyText.join " " (ParFile.str <$> r) ++ ParFile.nl)
            <$> take k (drop a M)).
Proof.
  intros [Hlen Hrows]. induction k as [|k IH]; intros a Hk; [done|].
  destruct (lookup_lt_is_Some_2 M a) as [r Hr]; [lia|].
  assert (Hn : length r = n) by (by eapply Forall_lookup_1 in Hrows).
  cbn [seq matrix_rows]. rewrite (row_cells_ok M a r Hr n 0) by lia.
  simpl. rewrite IH by lia. simpl.
  rewrite (drop_S M r a Hr). simpl. rewrite drop_0.
  by rewrite <- Hn, firstn_all.
Qed.

(** Every written row of a matrix without empty rows is read back. *)
Lemma read_rows (n : nat) (M : list (list Z)) :
  (0 < n)%nat ->
  Forall (fun r => length r = n) M ->
  Forall (Forall (fun z => - 10 ^ 4300 < z < 10 ^ 4300)) M ->
  mapM read_row ((fun r => PyText.join " " (ParFile.str <$> r) ++ ParFile.nl) <$> M)
  = Some M.
Proof.
  intros Hn. induction M as [|r M IH]; intros HM HB; [done|].
  apply Forall_cons in HM as [Hr HM]. apply Forall_cons in HB as [Hb HB].
  cbn [fmap list_fmap mapM].
  destruct r as [|v vs]; [simpl in Hr; lia|].
  rewrite (read_row_join v vs Hb). simpl.
  change (list_fmap _ _ ?f M) with (f <$> M). rewrite (IH HM HB). done.
Qed.

(** An [int64] value has fewer than 4300 digits. *)
Lemma int64_entries (M : list (list Z)) :
  (forall a b z, cell M a b = Some z -> - 2 ^ 63 <= z < 2 ^ 63) ->
  Forall (Forall (fun z => - 10 ^ 4300 < z < 10 ^ 4300)) M.
Proof.
  intros H.
  assert (Hp : 2 ^ 63 < 10 ^ 4300).
  { apply Z.lt_le_trans with (10 ^ 63).
    - apply Z.pow_lt_mono_l; lia.
    - apply Z.pow_le_mono_r; lia. }
  apply Forall_lookup. intros a r Hr.
  apply Forall_lookup. intros b z Hz.
  assert (Hc : cell M a b = Some z) by (unfold cell; rewrite Hr; exact Hz).
  apply H in Hc. lia.
Qed.

End TspFileFacts.

(** X2. [generate_tsp_file] computes the matrix when the converter holds none,
    and writes seven header lines, one line per row of the matrix and the
    line [EOF]: the [DIMENSION] line gives the number of points, and the rows
    between [EDGE_WEIGHT_SECTION] and [EOF], read as integers separated by
    single spaces, are the matrix again. *)
Theorem tsp_file_round_trip (m : Libm) (df : list row) (scale : Z)
    (distance_matrix : option (list (list Z))) (problem_name : option string)
    (default_name : string) (M : list (list Z)) :
  match distance_matrix with
  | None => True
  | Some M0 => TspConverter.compute_distance_matrix m df scale = Ok M0
  end ->
  TspConverter.compute_distance_matrix m df scale = Ok M ->
  exists written,
    TspFile.generate_tsp_file m df scale distance_matrix problem_name default_name
    = Ok (M, written)
    /\ length written = (length df + 8)%nat
    /\ written !! 3%nat
       = Some ("DIMENSION : " ++ ParFile.str (Z.of_nat (length df)) ++ ParFile.nl)
    /\ written !! 6%nat = Some ("EDGE_WEIGHT_SECTION" ++ ParFile.nl)
    /\ last written = Some ("EOF" ++ ParFile.nl)
    /\ TspSpec.read_matrix written = Some M.
Proof.
  intros Hheld HM.
  assert (Hget : match distance_matrix with
                 | None => TspConverter.compute_distance_matrix m df scale
                 | Some M0 => Ok M0
                 end = Ok M).
  { destruct distance_matrix as [M0|]; [congruence|done]. }
  destruct (compute_distance_matrix_shape m df scale M HM) as ([Hlen Hrows] & _ & Hint).
  set (line := fun r : list Z => PyText.join " " (ParFile.str <$> r) ++ ParFile.nl).
  assert (Hwr : TspFile.matrix_rows M (length df) (seq 0 (length df)) = Ok (line <$> M)).
  { rewrite (matrix_rows_ok (length df) M) by (done || lia).
    by rewrite drop_0, <- Hlen, firstn_all. }
  unfold TspFile.generate_tsp_file. rewrite Hget. cbn [rbind]. rewrite Hwr. cbn [rbind].
  eexists. split; [reflexivity|].
  set (name := match problem_name with Some n => n | None => default_name end).
  assert (Hl : length (line <$> M) = length df) by (by rewrite length_fmap).
  split; [|split; [|split; [|split]]].
  - rewrite !length_app, Hl. simpl. lia.
  - done.
  - done.
  - by rewrite app_assoc, last_snoc.
  - unfold TspSpec.read_matrix. rewrite !length_app, Hl.
    cbn [TspFile.header length].
    replace (7 + (length df + 1) - 8)%nat with (length df) by lia.
    change (drop 7 (TspFile.header name scale (length df) ++ ?l)) with l.
    rewrite take_app_length' by done.
    destruct (decide (length df = 0)%nat) as [Hz|Hnz].
    + rewrite Hz in Hlen. apply nil_length_inv in Hlen. by subst M.
    + apply (read_rows (length df)); [lia|done|by apply int64_entries].
Qed.

Lemma tsp_file_round_trip_witness :
  exists written,
    TspFile.generate_tsp_file Samples.libm_axis Samples.antipodes 921135 None None "data"
    = Ok ([[0; 18436620126]; [18436620126; 0]], written)
    /\ length written = 10%nat
    /\ written !! 3%nat = Some ("DIMENSION : " ++ ParFile.str 2 ++ ParFile.nl)
    /\ written !! 6%nat = Some ("EDGE_WEIGHT_SECTION" ++ ParFile.nl)
    /\ last written = Some ("EOF" ++ ParFile.nl)
    /\ TspSpec.read_matrix written = Some [[0; 18436620126]; [18436620126; 0]].
Proof.
  apply (tsp_file_round_trip Samples.libm_axis Samples.antipodes 921135 None None "data").
  - exact I.
  - vm_compute. reflexivity.
Defined.

(** ** The exported tables *)

Section OutputFacts.

Import Reconciler ReconcilerSpec OutputSpec.

Lemma last_position_absent (p id : Z) (order : list Z) :
  id ∉ order -> last_position p id order = 0.
Proof.
  revert p. induction order as [|x rest IH]; intros p Hid; simpl; [done|].
  rewrite IH by set_solver. simpl.
  destruct (x =? id) eqn:E; [|done]. apply Z.eqb_eq in E. set_solver.
Qed.

(** Without repetition, the position recorded for a node is the one at
    which it occurs. *)
Lemma last_position_NoDup (p id : Z) (order : list Z) (k : nat) :
  0 < p -> NoDup order -> order !! k = Some id ->
  last_position p id order = p + Z.of_nat k.
Proof.
  revert p k. induction order as [|x rest IH]; intros p k Hp Hnd Hk; [done|].
  apply NoDup_cons in Hnd as [Hx Hnd]. simpl. destruct k as [|k]; simpl in Hk.
  - injection Hk as ->. rewrite last_position_absent by done. simpl.
    rewrite Z.eqb_refl. lia.
  - rewrite (IH (p + 1) k) by (done || lia).
    destruct (p + 1 + Z.of_nat k =? 0) eqn:E; [apply Z.eqb_eq in E; lia|]. lia.
Qed.

Lemma tour_is_permutation (n : nat) (order : list Z) :
  is_tour n order -> order ≡ₚ seqZ 1 (Z.of_nat n).
Proof.
  intros (Hnd & Hlen & Hrange).
  apply submseteq_length_Permutation.
  - apply NoDup_submseteq; [done|]. intros x Hx. apply elem_of_seqZ.
    specialize (Hrange x Hx). lia.
  - rewrite length_seqZ. lia.
Qed.

Lemma zip_seqZ_sorted (rows : list row) :
  forall m, Sorted.StronglySorted (fun a b : row * Z => a.2 < b.2)
              (zip rows (seqZ m (Z.of_nat (length rows)))).
Proof.
  induction rows as [|r rows IH]; intros m; [constructor|].
  rewrite seqZ_cons by (simpl; lia).
  replace (Z.pred (Z.of_nat (length (r :: rows)))) with (Z.of_nat (length rows))
    by (simpl; lia).
  simpl. constructor; [apply IH|].
  apply Forall_forall. intros [r' p] Hin. simpl.
  apply elem_of_zip_r in Hin. apply elem_of_seqZ in Hin. simpl in Hin. lia.
Qed.

Lemma sorted_strictly (l : list (row * Z)) :
  NoDup (l.*2) ->
  Sorted.StronglySorted (fun a b : row * Z => a.2 <= b.2) l ->
  Sorted.StronglySorted (fun a b : row * Z => a.2 < b.2) l.
Proof.
  induction l as [|a l IH]; intros Hnd Hs; [constructor|].
  apply sorting.StronglySorted_cons in Hs as [Ha Hs].
  simpl in Hnd. apply NoDup_cons in Hnd as [Hna Hnd].
  constructor; [by apply IH|].
  apply Forall_forall. intros b Hb.
  rewrite Forall_forall in Ha. specialize (Ha b Hb).
  assert (a.2 <> b.2); [|lia].
  intros Heq. apply Hna. rewrite Heq. by apply list_elem_of_fmap_2.
Qed.

End OutputFacts.

(** X3. For a tour that visits every node of [1..n] once, [generate_output]
    gives the row of the node visited at position [p] the visiting order
    [p], and the table it exports, sorted by that column, lists the rows in
    tour order with the positions [1..n], however the sort treats equal
    values. *)
Theorem reconciled_output_follows_tour (df : list row) (tour_order : list Z)
    (out : Reconciler.output) (sorted : list (row * Z)) :
  OutputSpec.is_tour (length df) tour_order ->
  Reconciler.generate_output df tour_order = Ok out ->
  (forall (k : nat) (id : Z) (r : row),
     tour_order !! k = Some id -> df !! Z.to_nat (id - 1) = Some r ->
     Reconciler.result_df out !! Z.to_nat (id - 1) = Some (r, Z.of_nat k + 1)
     /\ Reconciler.response_df out !! Z.to_nat (id - 1)
        = Some (row_id r, Z.of_nat k + 1))
  /\ (OutputSpec.sort_values (Reconciler.result_df out) sorted ->
      sorted = zip (DistanceSpec.tour_rows df tour_order)
                 (seqZ 1 (Z.of_nat (length df)))).
Proof.
  intros Htour Hout. pose proof Htour as (Hnd & Hlen & Hrange).
  injection Hout as <-. cbn [Reconciler.result_df Reconciler.response_df].
  set (n := length df) in *.
  set (column := Reconciler.visiting_order n tour_order).
  assert (Hcol : forall k id, tour_order !! k = Some id ->
            column !! Z.to_nat (id - 1) = Some (Z.of_nat k + 1)).
  { intros k id Hk.
    assert (Hid : 1 <= id <= Z.of_nat n) by (apply Hrange; by eapply list_elem_of_lookup_2).
    subst column. rewrite visiting_order_lookup by lia.
    replace (Z.of_nat (Z.to_nat (id - 1)) + 1) with id by lia.
    rewrite (last_position_NoDup 1 id tour_order k) by (done || lia). f_equal. lia. }
  assert (Hfirst : forall (k : nat) (id : Z) (r : row),
            tour_order !! k = Some id -> df !! Z.to_nat (id - 1) = Some r ->
            zip df column !! Z.to_nat (id - 1) = Some (r, Z.of_nat k + 1)).
  { intros k id r Hk Hr. apply lookup_zip_with_Some.
    exists r, (Z.of_nat k + 1). split; [done|]. split; [done|by apply Hcol]. }
  split.
  { intros k id r Hk Hr. split; [by apply Hfirst|].
    apply lookup_zip_with_Some. eexists (row_id r), _.
    split; [done|]. split; [by rewrite list_lookup_fmap, Hr | by apply Hcol]. }
  intros [Hperm Hsorted].
  destruct (tour_rows_lookup df tour_order Hrange) as [Hrl Hrows].
  set (target := zip (DistanceSpec.tour_rows df tour_order) (seqZ 1 (Z.of_nat n))).
  assert (Hocc : forall i, (i < n)%nat -> exists k, tour_order !! k = Some (Z.of_nat i + 1)).
  { intros i Hi. apply list_elem_of_lookup.
    rewrite (tour_is_permutation n tour_order Htour). apply elem_of_seqZ. lia. }
  assert (Htarget : forall k id r,
            tour_order !! k = Some id -> df !! Z.to_nat (id - 1) = Some r ->
            target !! k = Some (r, Z.of_nat k + 1)).
  { intros k id r Hk Hr. apply lookup_zip_with_Some. exists r, (Z.of_nat k + 1).
    split; [done|]. destruct (Hrows k id Hk) as (r' & Hr' & Hrow).
    split; [congruence|].
    rewrite lookup_seqZ_lt; [f_equal; lia|].
    apply lookup_lt_Some in Hk. lia. }
  assert (Hnd_target : NoDup (target.*2)).
  { subst target. rewrite snd_zip by (rewrite length_seqZ; lia). apply NoDup_seqZ. }
  assert (Hsame : forall x, x ∈ target <-> x ∈ zip df column).
  { intros [r p]. split; intros Hin.
    - apply list_elem_of_lookup in Hin as [k Hk].
      assert (Hkn : (k < length tour_order)%nat).
      { apply lookup_lt_Some in Hk. subst target.
        rewrite length_zip_with in Hk. lia. }
      destruct (lookup_lt_is_Some_2 tour_order k Hkn) as [id Hid].
      destruct (Hrows k id Hid) as (r' & Hr' & _).
      rewrite (Htarget k id r' Hid Hr') in Hk. injection Hk as <- <-.
      eapply list_elem_of_lookup_2. by apply (Hfirst k id).
    - apply list_elem_of_lookup in Hin as [i Hi].
      apply lookup_zip_with_Some in Hi as (r0 & p0 & [= <- <-] & Hr & Hp).
      assert (Hin : (i < n)%nat) by (by eapply lookup_lt_Some).
      destruct (Hocc i Hin) as [k Hk].
      pose proof (Hcol k _ Hk) as Hc.
      replace (Z.to_nat (Z.of_nat i + 1 - 1)) with i in Hc by lia.
      rewrite Hc in Hp. injection Hp as <-.
      eapply list_elem_of_lookup_2. apply (Htarget k (Z.of_nat i + 1)); [done|].
      by replace (Z.to_nat (Z.of_nat i + 1 - 1)) with i by lia. }
  assert (Hnd_col : NoDup column).
  { apply NoDup_alt. intros i j x Hi Hj.
    assert (Hin : (i < n)%nat).
    { apply lookup_lt_Some in Hi. subst column. unfold Reconciler.visiting_order in Hi.
      by rewrite assign_positions_length, length_replicate in Hi. }
    assert (Hjn : (j < n)%nat).
    { apply lookup_lt_Some in Hj. subst column. unfold Reconciler.visiting_order in Hj.
      by rewrite assign_positions_length, length_replicate in Hj. }
    destruct (Hocc i Hin) as [ki Hki]. destruct (Hocc j Hjn) as [kj Hkj].
    pose proof (Hcol ki _ Hki) as Hci. pose proof (Hcol kj _ Hkj) as Hcj.
    replace (Z.to_nat (Z.of_nat i + 1 - 1)) with i in Hci by lia.
    replace (Z.to_nat (Z.of_nat j + 1 - 1)) with j in Hcj by lia.
    assert (ki = kj) by (rewrite Hci in Hi; rewrite Hcj in Hj; simplify_eq; lia).
    subst kj. rewrite Hki in Hkj. injection Hkj. lia. }
  assert (Hpt : target ≡ₚ zip df column).
  { apply NoDup_Permutation; [|by apply NoDup_zip_r|done].
    by apply NoDup_fmap_1 in Hnd_target. }
  assert (Hst : Sorted.StronglySorted (fun a b : row * Z => a.2 < b.2) target).
  { subst target. rewrite <- Hlen, <- Hrl. apply zip_seqZ_sorted. }
  assert (Hso : Sorted.StronglySorted (fun a b : row * Z => a.2 < b.2) sorted).
  { apply sorted_strictly.
    - rewrite Hperm, <- Hpt. done.
    - apply Sorted.Sorted_StronglySorted; [|done].
      intros a b c Hab Hbc. lia. }
  apply (sorting.StronglySorted_unique_strong (fun a b : row * Z => a.2 < b.2) sorted target);
    [|done|done|].
  - intros x1 x2 _ _ H1 H2. lia.
  - by rewrite Hperm, Hpt.
Qed.

Lemma reconciled_output_follows_tour_witness :
  zip Samples.antipodes (Reconciler.visiting_order 2 [2; 1]) !! 1%nat
  = Some ({| row_id := "b"; row_lat := 0; row_lon := 180 |}, 1)
  /\ reverse (zip Samples.antipodes [2; 1])
     = zip (DistanceSpec.tour_rows Samples.antipodes [2; 1]) (seqZ 1 2).
Proof.
  assert (Htour : OutputSpec.is_tour (length Samples.antipodes) [2; 1]).
  { split; [|split].
    - apply NoDup_cons. split; [set_solver|]. apply NoDup_singleton.
    - reflexivity.
    - intros id Hid.
      repeat (apply elem_of_cons in Hid as [->|Hid]; [simpl; lia|]).
      by apply elem_of_nil in Hid. }
  destruct (reconciled_output_follows_tour Samples.antipodes [2; 1]
              {| Reconciler.result_df :=
                   zip Samples.antipodes (Reconciler.visiting_order 2 [2; 1]);
                 Reconciler.response_df :=
                   zip (row_id <$> Samples.antipodes)
                     (Reconciler.visiting_order 2 [2; 1]) |}
              (reverse (zip Samples.antipodes [2; 1])) Htour eq_refl) as [H1 H2].
  split.
  - apply (H1 0%nat 2 {| row_id := "b"; row_lat := 0; row_lon := 180 |}); reflexivity.
  - apply H2. split.
    + apply (Permutation_swap _ _ []).
    + repeat constructor; simpl; lia.
Defined.

(** ** Paths of the exported files *)

Section ReplaceFacts.

Import PyText.

Variables old new : string.
Hypothesis old_nonempty : (1 <= String.length old)%nat.

Lemma length_append (s t : string) :
  String.length (s ++ t) = (String.length s + String.length t)%nat.
Proof. induction s as [|c r IH]; [done|]. rewrite append_cons. simpl. by rewrite IH. Qed.

Lemma startswith_empty : PyStr.startswith old EmptyString = false.
Proof. destruct old; [simpl in old_nonempty; lia|done]. Qed.

(** Without an occurrence nothing is replaced. *)
Lemma replace_absent (s : string) :
  contains old s = false -> replace old new s = s.
Proof.
  unfold replace. induction s as [|c r IH]; intros H; [done|].
  cbn [contains] in H. apply orb_false_iff in H as [H1 H2].
  cbn [replace_from]. rewrite H1. by rewrite IH.
Qed.

Hypothesis new_longer : (String.length old < String.length new)%nat.

Lemma replace_from_length (s : string) :
  forall skip,
    (String.length s <= String.length (replace_from old new skip s) + skip)%nat.
Proof.
  induction s as [|c r IH]; intros skip; [simpl; lia|].
  cbn [replace_from]. destruct skip as [|k].
  - destruct (PyStr.startswith old (String c r)).
    + rewrite length_append. specialize (IH (String.length old - 1)%nat).
      simpl. lia.
    + specialize (IH 0%nat). simpl. lia.
  - specialize (IH k). simpl. lia.
Qed.

(** With an occurrence the result is longer. *)
Lemma replace_present (s : string) :
  contains old s = true ->
  (String.length s < String.length (replace old new s))%nat.
Proof.
  unfold replace. induction s as [|c r IH]; intros H.
  - cbn [contains] in H. rewrite startswith_empty in H. done.
  - cbn [contains] in H. cbn [replace_from].
    destruct (PyStr.startswith old (String c r)) eqn:E.
    + rewrite length_append.
      pose proof (replace_from_length r (String.length old - 1)). simpl. lia.
    + simpl in H. specialize (IH H). simpl. lia.
Qed.

Lemma replace_length (s : string) :
  (String.length s <= String.length (replace old new s))%nat.
Proof. unfold replace. pose proof (replace_from_length s 0). lia. Qed.

End ReplaceFacts.

Section ExporterFacts.

Import PyText Exporter.

Lemma contains_append_r (sub s t : string) :
  contains sub t = true -> contains sub (s ++ t) = true.
Proof.
  intros Ht. induction s as [|c r IH]; [done|].
  rewrite append_cons. cbn [contains]. rewrite IH. apply orb_true_r.
Qed.

Lemma response_path_same (p : string) :
  response_path p = p
  <-> contains ".xlsx" p = false /\ contains ".csv" p = false.
Proof.
  unfold response_path. split.
  - intros H.
    assert (L1 : (String.length p
                  <= String.length (replace ".xlsx" "_response.xlsx" p))%nat)
      by (apply replace_length; simpl; lia).
    assert (L2 : (String.length (replace ".xlsx" "_response.xlsx" p)
                  <= String.length
                       (replace ".csv" "_response.csv"
                          (replace ".xlsx" "_response.xlsx" p)))%nat)
      by (apply replace_length; simpl; lia).
    destruct (contains ".xlsx" p) eqn:E1.
    { assert (L : (String.length p
                   < String.length (replace ".xlsx" "_response.xlsx" p))%nat)
        by (apply replace_present; [simpl; lia|simpl; lia|done]).
      rewrite H in L2. lia. }
    rewrite (replace_absent ".xlsx" "_response.xlsx" p E1) in H.
    destruct (contains ".csv" p) eqn:E2; [|done].
    assert (L : (String.length p
                 < String.length (replace ".csv" "_response.csv" p))%nat)
      by (apply replace_present; [simpl; lia|simpl; lia|done]).
    rewrite H in L. lia.
  - intros [E1 E2].
    rewrite (replace_absent ".xlsx" "_response.xlsx" p E1).
    by apply replace_absent.
Qed.

End ExporterFacts.

(** X4. The response file of [generate_output] gets the path of the result file
    itself exactly when that path contains neither [.xlsx] nor [.csv]: the
    second table is then written over the first. With the default output
    path of the export command, in either format, the two paths differ. *)
Theorem response_path_is_output_path (output_path : string) :
  (Exporter.response_path output_path = output_path
   <-> PyText.contains ".xlsx" output_path = false
       /\ PyText.contains ".csv" output_path = false)
  /\ (forall base format,
        format = "xlsx" \/ format = "csv" ->
        Exporter.response_path (Exporter.default_output_path base format)
        <> Exporter.default_output_path base format).
Proof.
  split; [apply response_path_same|].
  intros base format Hf Heq. apply response_path_same in Heq as [E1 E2].
  unfold Exporter.default_output_path in E1, E2.
  destruct Hf as [-> | ->].
  - rewrite contains_append_r in E1; done.
  - rewrite contains_append_r in E2; done.
Qed.

Lemma response_path_is_output_path_witness :
  Exporter.response_path (Exporter.default_output_path "solution" "csv")
  = "solution_result_response.csv"
  /\ Exporter.response_path (Exporter.default_output_path "solution" "csv")
     <> Exporter.default_output_path "solution" "csv".
Proof.
  split; [reflexivity|].
  destruct (response_path_is_output_path "solution_result.csv") as [_ H].
  apply (H "solution" "csv"). by right.
Defined.

(** ** Column detection *)

Section DetectionFacts.

Import Detect DetectSpec.
Local Open Scope list_scope.

Lemma last_filter_Some {A : Type} (P : A -> Prop) `{!forall x, Decision (P x)}
    (l : list A) (c : A) :
  last (filter P l) = Some c ->
  exists l1 l2, l = l1 ++ c :: l2 /\ P c /\ forall c', c' ∈ l2 -> ~ P c'.
Proof.
  induction l as [|x l IH] using rev_ind; [done|].
  rewrite filter_app. destruct (decide (P x)) as [Hx|Hx].
  - rewrite (filter_cons_True P x []) by done. rewrite filter_nil, last_snoc.
    intros [= <-]. exists l, []. split; [done|]. split; [done|].
    intros c' Hc'. by apply elem_of_nil in Hc'.
  - rewrite (filter_cons_False P x []) by done. rewrite filter_nil, app_nil_r.
    intros Hl. destruct (IH Hl) as (l1 & l2 & -> & Hc & Hl2).
    exists l1, (l2 ++ [x]). split; [by rewrite <- app_assoc|]. split; [done|].
    intros c' Hc'. apply elem_of_app in Hc' as [Hc'|Hc']; [by apply Hl2|].
    apply list_elem_of_singleton in Hc'. by subst.
Qed.

Lemma last_filter_None {A : Type} (P : A -> Prop) `{!forall x, Decision (P x)}
    (l : list A) :
  last (filter P l) = None <-> forall c, c ∈ l -> ~ P c.
Proof.
  rewrite last_None. split.
  - intros Hl c Hc HP. by eapply filter_nil_not_elem_of.
  - intros Hl. induction l as [|x l IH]; [done|].
    rewrite filter_cons_False by (apply Hl; left).
    apply IH. intros c Hc. apply Hl. by right.
Qed.

(** The dictionary maps a lower-case name to the last header that has
    it. *)
Lemma columns_lower_last (columns : list string) (k : string) :
  columns_lower columns !! k = last (filter (fun c => lower c = k) columns).
Proof.
  unfold columns_lower.
  induction columns as [|x columns IH] using rev_ind; [apply lookup_empty|].
  rewrite foldl_app, filter_app. simpl.
  destruct (decide (lower x = k)) as [Hx|Hx].
  - rewrite (filter_cons_True _ x []) by done. rewrite filter_nil, last_snoc.
    subst k. by rewrite lookup_insert_eq.
  - rewrite (filter_cons_False _ x []) by done. rewrite filter_nil, app_nil_r.
    by rewrite lookup_insert_ne.
Qed.

Lemma first_match_first (patterns : list string) (d : gmap string string) (c : string) :
  first_match patterns d = Some c ->
  exists pre p post,
    patterns = pre ++ p :: post /\ d !! p = Some c /\ forall q, q ∈ pre -> d !! q = None.
Proof.
  induction patterns as [|p rest IH]; simpl; [done|].
  destruct (d !! p) as [col|] eqn:E.
  - intros [= <-]. exists [], p, rest. split; [done|]. split; [done|].
    intros q Hq. by apply elem_of_nil in Hq.
  - intros H. destruct (IH H) as (pre & p' & post & -> & Hp & Hpre).
    exists (p :: pre), p', post. split; [done|]. split; [done|].
    intros q Hq. apply elem_of_cons in Hq as [->|Hq]; [done|by apply Hpre].
Qed.

Lemma first_match_None (patterns : list string) (d : gmap string string) :
  first_match patterns d = None <-> forall p, p ∈ patterns -> d !! p = None.
Proof.
  induction patterns as [|p rest IH]; simpl.
  - split; [|done]. intros _ p Hp. by apply elem_of_nil in Hp.
  - destruct (d !! p) as [col|] eqn:E.
    + split; [done|]. intros H. specialize (H p ltac:(left)). congruence.
    + rewrite IH. split.
      * intros H q Hq. apply elem_of_cons in Hq as [->|Hq]; [done|by apply H].
      * intros H q Hq. apply H. by right.
Qed.

Lemma first_match_selected (patterns columns : list string) :
  match first_match patterns (columns_lower columns) with
  | Some c => selected patterns columns c
  | None => absent patterns columns
  end.
Proof.
  destruct (first_match patterns (columns_lower columns)) as [c|] eqn:E.
  - apply first_match_first in E as (pre & p & post & -> & Hp & Hpre).
    rewrite columns_lower_last in Hp.
    apply last_filter_Some in Hp as (l1 & l2 & -> & <- & Hl2).
    exists pre, post, l1, l2. split; [done|]. split; [|done].
    intros q c' Hq Hc' Heq. specialize (Hpre q Hq).
    rewrite columns_lower_last in Hpre.
    by eapply (proj1 (last_filter_None _ _) Hpre c').
  - intros c Hc Hin.
    pose proof (proj1 (first_match_None _ _) E _ Hin) as Hn.
    rewrite columns_lower_last in Hn.
    by eapply (proj1 (last_filter_None _ _) Hn c).
Qed.

Lemma selected_not_absent (patterns columns : list string) (c : string) :
  selected patterns columns c -> ~ absent patterns columns.
Proof.
  intros (pre & post & l1 & l2 & -> & _ & -> & _) H.
  apply (H c); set_solver.
Qed.

End DetectionFacts.

(** X5. [detect_columns] finds a latitude (longitude) column exactly when some
    header, lower-cased, is one of the keywords; the column found is then
    the last header that spells the first such keyword of the list. The
    identifier is found in the same way among its keywords and is the first
    header when none matches; it is [None] only for a table without
    columns. *)
Theorem detect_columns_selects (columns : list string)
    (id_col lat_col lon_col : option string) :
  Detect.detect_columns columns = (id_col, lat_col, lon_col) ->
  match lat_col with
  | Some c => DetectSpec.selected Detect.lat_patterns columns c
  | None => DetectSpec.absent Detect.lat_patterns columns
  end
  /\ match lon_col with
     | Some c => DetectSpec.selected Detect.lon_patterns columns c
     | None => DetectSpec.absent Detect.lon_patterns columns
     end
  /\ (DetectSpec.absent Detect.id_patterns columns -> id_col = head columns)
  /\ (~ DetectSpec.absent Detect.id_patterns columns ->
      exists c, id_col = Some c /\ DetectSpec.selected Detect.id_patterns columns c)
  /\ (id_col = None <-> columns = []).
Proof.
  intros H.
  assert (Hlat : Detect.first_match Detect.lat_patterns (Detect.columns_lower columns)
                 = lat_col)
    by (unfold Detect.detect_columns in H; by injection H).
  assert (Hlon : Detect.first_match Detect.lon_patterns (Detect.columns_lower columns)
                 = lon_col)
    by (unfold Detect.detect_columns in H; by injection H).
  assert (Hidc : match Detect.first_match Detect.id_patterns (Detect.columns_lower columns)
                 with None => head columns | Some c => Some c end = id_col)
    by (unfold Detect.detect_columns in H; by injection H).
  clear H. subst lat_col lon_col id_col.
  pose proof (first_match_selected Detect.id_patterns columns) as Hid.
  split; [apply first_match_selected|]. split; [apply first_match_selected|].
  destruct (Detect.first_match Detect.id_patterns (Detect.columns_lower columns))
    as [c|] eqn:E.
  - split; [intros Ha; by apply selected_not_absent in Hid|].
    split; [intros _; by exists c|].
    split; [done|]. intros ->. destruct Hid as (? & ? & [|??] & ? & _ & _ & ? & _); done.
  - split; [done|]. split; [done|]. by destruct columns.
Qed.

Lemma detect_columns_selects_witness :
  DetectSpec.selected Detect.lat_patterns ["Name"; "lat"; "LAT"; "Lon"] "LAT"
  /\ DetectSpec.selected Detect.lon_patterns ["Name"; "lat"; "LAT"; "Lon"] "Lon"
  /\ exists c, Some "Name" = Some c
               /\ DetectSpec.selected Detect.id_patterns ["Name"; "lat"; "LAT"; "Lon"] c.
Proof.
  destruct (detect_columns_selects ["Name"; "lat"; "LAT"; "Lon"]
              (Some "Name") (Some "LAT") (Some "Lon") eq_refl)
    as (Hlat & Hlon & _ & Hid & _).
  split; [exact Hlat|]. split; [exact Hlon|].
  apply Hid. intros Ha. apply (Ha "Name"); [set_solver|]. vm_compute. set_solver.
Defined.

Section LoadDataFacts.

Import VisualizeData.
Local Open Scope list_scope.

Lemma first_column_first (test : string -> bool) (columns : list string)
    (current : string) :
  first_passing test columns (first_column test columns current)
  \/ ((forall c, c ∈ columns -> test c = false)
      /\ first_column test columns current = current).
Proof.
  induction columns as [|col rest IH]; simpl.
  - right. split; [|done]. intros c Hc. by apply elem_of_nil in Hc.
  - destruct (test col) eqn:E.
    + left. exists [], rest. split; [done|]. split; [done|].
      intros c Hc. by apply elem_of_nil in Hc.
    + destruct IH as [(pre & post & Hcols & Ht & Hpre)|[Hnone Hcur]].
      * left. exists (col :: pre), post. split; [by rewrite Hcols at 1|].
        split; [done|]. intros c Hc.
        apply elem_of_cons in Hc as [->|Hc]; [done|by apply Hpre].
      * right. split; [|done]. intros c Hc.
        apply elem_of_cons in Hc as [->|Hc]; [done|by apply Hnone].
Qed.

Lemma detect_cases (test : string -> bool) (columns : list string)
    (requested : string) :
  (requested ∈ columns -> detect test columns requested = requested)
  /\ (requested ∉ columns ->
      first_passing test columns (detect test columns requested)
      \/ ((forall c, c ∈ columns -> test c = false)
          /\ detect test columns requested = requested)).
Proof.
  unfold detect. split; intros H.
  - by rewrite bool_decide_eq_true_2.
  - rewrite bool_decide_eq_false_2 by done. apply first_column_first.
Qed.

End LoadDataFacts.

(** X6. [load_data] of the map script rejects every extension but [.xlsx],
    [.xls] and [.csv] with a [ValueError]. Otherwise it returns the
    identifier column as requested, and for the latitude (longitude): the
    requested column when the table has it; else the first header that
    passes the test on its lower-case form ([lat] inside, or equal to [y],
    or [y-coord] inside); and when no header passes, the requested name
    although the table has no such column. *)
Theorem load_data_selects (ext : string) (columns : list string)
    (id_col lat_col lon_col : string) :
  (ext ∉ [".xlsx"; ".xls"; ".csv"] ->
   VisualizeData.load_data ext columns id_col lat_col lon_col
   = Raise (ValueError ("Unsupported file format: " ++ ext)))
  /\ (ext ∈ [".xlsx"; ".xls"; ".csv"] ->
      exists lat lon,
        VisualizeData.load_data ext columns id_col lat_col lon_col
        = Ok (id_col, lat, lon)
        /\ (lat_col ∈ columns -> lat = lat_col)
        /\ (lat_col ∉ columns ->
            VisualizeData.first_passing VisualizeData.lat_test columns lat
            \/ ((forall c, c ∈ columns -> VisualizeData.lat_test c = false)
                /\ lat = lat_col))
        /\ (lon_col ∈ columns -> lon = lon_col)
        /\ (lon_col ∉ columns ->
            VisualizeData.first_passing VisualizeData.lon_test columns lon
            \/ ((forall c, c ∈ columns -> VisualizeData.lon_test c = false)
                /\ lon = lon_col))).
Proof.
  unfold VisualizeData.load_data. split; intros Hext.
  - rewrite bool_decide_eq_false_2 by set_solver.
    destruct (String.eqb_spec ext ".csv") as [->|Hne]; [set_solver|done].
  - assert (Hok : bool_decide (ext ∈ [".xlsx"; ".xls"]) || (ext =? ".csv")%string = true).
    { destruct (String.eqb_spec ext ".csv") as [->|Hne]; [apply orb_true_r|].
      rewrite bool_decide_eq_true_2; [done|set_solver]. }
    rewrite Hok. eexists _, _. split; [reflexivity|].
    destruct (detect_cases VisualizeData.lat_test columns lat_col) as [H1 H2].
    destruct (detect_cases VisualizeData.lon_test columns lon_col) as [H3 H4].
    done.
Qed.

Lemma load_data_selects_witness :
  VisualizeData.load_data ".txt" ["commune"; "population"; "latitude"; "longitude"]
    "commune" "Y-coordinate" "X-coordinate"
  = Raise (ValueError ("Unsupported file format: " ++ ".txt"))
  /\ exists lat lon,
       VisualizeData.load_data ".csv" ["commune"; "population"; "latitude"; "longitude"]
         "commune" "Y-coordinate" "X-coordinate"
       = Ok ("commune", lat, lon)
       /\ (VisualizeData.first_passing VisualizeData.lat_test
             ["commune"; "population"; "latitude"; "longitude"] lat
           \/ ((forall c, c ∈ ["commune"; "population"; "latitude"; "longitude"] ->
                          VisualizeData.lat_test c = false)
               /\ lat = "Y-coordinate")).
Proof.
  split.
  - apply (load_data_selects ".txt"). set_solver.
  - destruct (load_data_selects ".csv" ["commune"; "population"; "latitude"; "longitude"]
                "commune" "Y-coordinate" "X-coordinate") as [_ H].
    destruct H as (lat & lon & Hload & _ & Hlat & _); [set_solver|].
    exists lat, lon. split; [exact Hload|]. apply Hlat. set_solver.
Defined.

Section GuiFacts.

Import Gui.
Local Open Scope list_scope.

Lemma with_role_snoc (r : role) (columns : list string) (col : string) :
  with_role r (columns ++ [col])
  = with_role r columns ++ (if decide (role_of col = Some r) then [col] else []).
Proof.
  unfold with_role. by rewrite filter_app.
Qed.

(** After the loop every selection holds the last header of its role, and
    what it held before when no header has that role. *)
Lemma _load_columns_last (columns : list string) (sel : selection) :
  id_col (_load_columns columns sel)
  = default (id_col sel) (last (with_role Id columns))
  /\ lat_col (_load_columns columns sel)
     = default (lat_col sel) (last (with_role Lat columns))
  /\ lon_col (_load_columns columns sel)
     = default (lon_col sel) (last (with_role Lon columns)).
Proof.
  unfold _load_columns.
  induction columns as [|col columns IH] using rev_ind; [done|].
  rewrite foldl_app, !with_role_snoc. cbn [foldl]. unfold detect_step.
  destruct IH as (IH1 & IH2 & IH3).
  destruct (role_of col) as [[]|] eqn:E; cbn [id_col lat_col lon_col];
    repeat case_decide; try congruence;
    rewrite ?last_snoc, ?app_nil_r; done.
Qed.

End GuiFacts.

(** X7. The detection loop of the window gives every header at most one role,
    tested in the order identifier ([id], [commune] or [name] inside its
    lower-case form), latitude ([lat] or [y] inside), longitude ([lon] or
    [x] inside); each selection ends as the last header of its role, and
    keeps the value it had before the file was chosen when no header has
    that role. *)
Theorem load_columns_selects (columns : list string) (sel : Gui.selection) :
  Gui.id_col (Gui._load_columns columns sel)
  = default (Gui.id_col sel) (last (Gui.with_role Gui.Id columns))
  /\ Gui.lat_col (Gui._load_columns columns sel)
     = default (Gui.lat_col sel) (last (Gui.with_role Gui.Lat columns))
  /\ Gui.lon_col (Gui._load_columns columns sel)
     = default (Gui.lon_col sel) (last (Gui.with_role Gui.Lon columns))
  /\ (forall col, PyText.contains "id" (Detect.lower col) = true ->
                  (col ∉ Gui.with_role Gui.Lat columns)
                  /\ (col ∉ Gui.with_role Gui.Lon columns))
  /\ (forall col, col ∈ columns ->
                  PyText.contains "id" (Detect.lower col) = false ->
                  PyText.contains "commune" (Detect.lower col) = false ->
                  PyText.contains "name" (Detect.lower col) = false ->
                  PyText.contains "y" (Detect.lower col) = true ->
                  col ∈ Gui.with_role Gui.Lat columns).
Proof.
  destruct (_load_columns_last columns sel) as (H1 & H2 & H3).
  split; [done|]. split; [done|]. split; [done|]. split.
  - intros col Hid. unfold Gui.with_role.
    split; intros Hin; apply list_elem_of_filter in Hin as [Hr _];
      unfold Gui.role_of in Hr; rewrite Hid in Hr; done.
  - intros col Hin Hid Hc Hn Hy. unfold Gui.with_role.
    apply list_elem_of_filter. split; [|done].
    unfold Gui.role_of. rewrite Hid, Hc, Hn, Hy. simpl. by rewrite orb_true_r.
Qed.

Lemma load_columns_selects_witness :
  Gui._load_columns ["lat"; "lon"; "City"] Gui.initial
  = {| Gui.id_col := "commune"; Gui.lat_col := "City"; Gui.lon_col := "lon" |}
  /\ "City" ∈ Gui.with_role Gui.Lat ["lat"; "lon"; "City"].
Proof.
  destruct (load_columns_selects ["lat"; "lon"; "City"] Gui.initial)
    as (H1 & H2 & H3 & _ & H5).
  split.
  - destruct (Gui._load_columns ["lat"; "lon"; "City"] Gui.initial) as [i la lo].
    simpl in H1, H2, H3. rewrite H1, H2, H3. reflexivity.
  - apply H5; [set_solver|reflexivity..].
Defined.

Section TourMapFacts.

Import TourMap.
Local Open Scope list_scope.

Variable m : Libm.
Variable fsum : list float -> float.

Lemma tour_coords_nil (df : list row) (tour_order : list Z) :
  Visualize.tour_coords df tour_order = []
  <-> forall id, id ∈ tour_order -> ~ (1 <= id <= Z.of_nat (length df)).
Proof.
  induction tour_order as [|x order IH]; simpl.
  - split; [|done]. intros _ id Hid. by apply elem_of_nil in Hid.
  - destruct (0 <=? x - 1) eqn:E1; [destruct (x - 1 <? Z.of_nat (length df)) eqn:E2|];
      cbn [andb].
    + apply Z.leb_le in E1. apply Z.ltb_lt in E2.
      destruct (lookup_lt_is_Some_2 df (Z.to_nat (x - 1))) as [r Hr]; [lia|].
      rewrite Hr. split; [done|]. intros H. exfalso.
      apply (H x); [by left|lia].
    + apply Z.ltb_ge in E2. rewrite IH. split.
      * intros H id Hid. apply elem_of_cons in Hid as [->|Hid]; [lia|by apply H].
      * intros H id Hid. apply H. by right.
    + apply Z.leb_gt in E1. rewrite IH. split.
      * intros H id Hid. apply elem_of_cons in Hid as [->|Hid]; [lia|by apply H].
      * intros H id Hid. apply H. by right.
Qed.

Lemma div_len_pos (x : float) (n : nat) :
  div_len x (S n) <> ZeroDivisionError.
Proof.
  unfold div_len. by destruct (PyFloat.of_int (Z.of_nat (S n))).
Qed.

Lemma div_len_overflow (x : float) (n : nat) (e : exn) :
  div_len x n = MathError e ->
  e = OverflowError "int too large to convert to float".
Proof.
  unfold div_len, PyFloat.of_int. destruct n as [|n]; [done|].
  destruct (PrimFloat.is_infinity _); [|done]. by intros [= <-].
Qed.

Lemma create_tour_map_no_point (df : list row) (tour_order : list Z) :
  Visualize.tour_coords df tour_order = [] ->
  create_tour_map m fsum df tour_order = ZeroDivisionError
  \/ create_tour_map m fsum df tour_order
     = MathError (OverflowError "int too large to convert to float").
Proof.
  intros Hnil. unfold create_tour_map, Visualize.total_distance.
  rewrite Hnil. cbn [Visualize.close_loop length seq Visualize.total_loop Nat.sub].
  destruct (div_len 0 (length tour_order)) as [mean|e|] eqn:E; [by left| |by left].
  right. by rewrite (div_len_overflow _ _ _ E).
Qed.

Lemma create_tour_map_some_point (df : list row) (tour_order : list Z) :
  Visualize.tour_coords df tour_order <> [] ->
  create_tour_map m fsum df tour_order <> ZeroDivisionError.
Proof.
  intros Hne. unfold create_tour_map.
  destruct tour_order as [|x order]; [done|].
  destruct (Visualize.total_distance m df (x :: order)) as [total|e]; [|done].
  pose proof (div_len_pos total (length order)) as Hmean.
  cbn [length].
  destruct (div_len total (S (length order))) as [mean|e|]; [|done|done].
  destruct (Visualize.tour_coords df (x :: order)) as [|p coords]; [done|].
  cbn [length].
  pose proof (div_len_pos (fsum (fst <$> p :: coords)) (length coords)) as Hlat.
  pose proof (div_len_pos (fsum (snd <$> p :: coords)) (length coords)) as Hlon.
  destruct (div_len (fsum (fst <$> p :: coords)) (S (length coords)));
    destruct (div_len (fsum (snd <$> p :: coords)) (S (length coords))); done.
Qed.

End TourMapFacts.

(** X8. [create_tour_map] ends with a [ZeroDivisionError] only when no id of
    the tour is a row of the table (the empty tour included), and for such
    a tour it never draws a map: it ends with that error, on the mean
    distance when the tour is empty and on the centre of the map
    otherwise, unless the length of the tour is too large for a float. *)
Theorem create_tour_map_needs_a_point (m : Libm) (fsum : list float -> float)
    (df : list row) (tour_order : list Z) :
  (TourMap.create_tour_map m fsum df tour_order = TourMap.ZeroDivisionError ->
   forall id, id ∈ tour_order -> ~ (1 <= id <= Z.of_nat (length df)))
  /\ ((forall id, id ∈ tour_order -> ~ (1 <= id <= Z.of_nat (length df))) ->
      TourMap.create_tour_map m fsum df tour_order = TourMap.ZeroDivisionError
      \/ TourMap.create_tour_map m fsum df tour_order
         = TourMap.MathError (OverflowError "int too large to convert to float"))
  /\ TourMap.create_tour_map m fsum df [] = TourMap.ZeroDivisionError.
Proof.
  split; [|split].
  - intros Hz. apply tour_coords_nil.
    destruct (Visualize.tour_coords df tour_order) as [|p coords] eqn:E; [done|].
    exfalso. apply (create_tour_map_some_point m fsum df tour_order); [|done].
    by rewrite E.
  - intros Hno. apply create_tour_map_no_point. by apply tour_coords_nil.
  - reflexivity.
Qed.

Lemma create_tour_map_needs_a_point_witness :
  TourMap.create_tour_map Samples.libm_axis (fun _ => 0%float) Samples.antipodes [3; 0; -1]
  = TourMap.ZeroDivisionError
  \/ TourMap.create_tour_map Samples.libm_axis (fun _ => 0%float) Samples.antipodes [3; 0; -1]
     = TourMap.MathError (OverflowError "int too large to convert to float").
Proof.
  apply (create_tour_map_needs_a_point Samples.libm_axis (fun _ => 0%float)
           Samples.antipodes [3; 0; -1]).
  intros id Hid.
  repeat (apply elem_of_cons in Hid as [->|Hid]; [simpl; lia|]).
  by apply elem_of_nil in Hid.
Defined.

(** ** Rounding of a product *)

Section RoundingFacts.

(** A positive number of [d] binary digits lies between [2^(d-1)] and
    [2^d]. *)
Lemma digits2_pos_bounds (p : positive) :
  2 ^ (Z.pos (digits2_pos p) - 1) <= Z.pos p < 2 ^ Z.pos (digits2_pos p).
Proof.
  induction p as [p IH|p IH|]; cbn [digits2_pos]; [| |done];
    rewrite Pos2Z.inj_succ;
    replace (Z.succ (Z.pos (digits2_pos p)) - 1) with (Z.succ (Z.pos (digits2_pos p) - 1))
      by lia;
    rewrite !Z.pow_succ_r by lia; lia.
Qed.

Lemma digits2_pos_unique (p : positive) (d : Z) :
  2 ^ (d - 1) <= Z.pos p < 2 ^ d -> Z.pos (digits2_pos p) = d.
Proof.
  intros [Hlo Hhi]. pose proof (digits2_pos_bounds p) as [Blo Bhi].
  set (k := Z.pos (digits2_pos p)) in *.
  assert (Hk : 0 < k) by (subst k; lia).
  destruct (Z.lt_trichotomy k d) as [Hlt|[Heq|Hgt]]; [|done|].
  - assert (2 ^ k <= 2 ^ (d - 1)) by (apply Z.pow_le_mono_r; lia). lia.
  - assert (d <= 0 \/ 0 < d) as [Hd|Hd] by lia.
    + assert (2 ^ d <= 2 ^ 0) by (apply Z.pow_le_mono_r_iff; lia). simpl in *. lia.
    + assert (2 ^ d <= 2 ^ (k - 1)) by (apply Z.pow_le_mono_r; lia). lia.
Qed.

Lemma shr_1_m (mrs : shr_record) :
  0 <= shr_m mrs -> shr_m (shr_1 mrs) = shr_m mrs / 2 /\ 0 <= shr_m (shr_1 mrs).
Proof.
  destruct mrs as [mm r s]. cbn [shr_m]. intros Hm.
  destruct mm as [|[p|p|]|p]; cbn [shr_1 shr_m]; [done| | |done|lia].
  - split; [|lia]. rewrite Pos2Z.inj_xI.
    apply (Z.div_unique _ _ _ 1); lia.
  - split; [|lia]. rewrite Pos2Z.inj_xO.
    apply (Z.div_unique _ _ _ 0); lia.
Qed.

Lemma pow2_xO (n : positive) : 2 ^ Z.pos n~0 = 2 ^ Z.pos n * 2 ^ Z.pos n.
Proof.
  replace (Z.pos n~0) with (Z.pos n + Z.pos n) by lia. apply Z.pow_add_r; lia.
Qed.

Lemma pow2_xI (n : positive) : 2 ^ Z.pos n~1 = 2 * (2 ^ Z.pos n * 2 ^ Z.pos n).
Proof.
  replace (Z.pos n~1) with (1 + (Z.pos n + Z.pos n)) by lia.
  rewrite !Z.pow_add_r by lia. done.
Qed.

(** Shifting right by [n] divides the mantissa by [2^n]. *)
Lemma iter_pos_shr_1_m (n : positive) :
  forall mrs, 0 <= shr_m mrs ->
    shr_m (SpecFloat.iter_pos shr_1 n mrs) = shr_m mrs / 2 ^ Z.pos n
    /\ 0 <= shr_m (SpecFloat.iter_pos shr_1 n mrs).
Proof.
  induction n as [n IH|n IH|]; intros mrs Hm; cbn [SpecFloat.iter_pos].
  - destruct (shr_1_m mrs Hm) as [E1 P1].
    destruct (IH _ P1) as [E2 P2]. destruct (IH _ P2) as [E3 P3].
    split; [|done]. rewrite E3, E2, E1, pow2_xI.
    rewrite !Z.div_div by lia. done.
  - destruct (IH _ Hm) as [E2 P2]. destruct (IH _ P2) as [E3 P3].
    split; [|done]. rewrite E3, E2, pow2_xO.
    rewrite !Z.div_div by lia. done.
  - destruct (shr_1_m mrs Hm) as [E1 P1]. split; [|done].
    rewrite E1. done.
Qed.

Lemma round_nearest_even_cases (mx : Z) (lx : location) :
  round_nearest_even mx lx = mx \/ round_nearest_even mx lx = mx + 1.
Proof.
  destruct lx as [|[]]; simpl; auto. destruct (Z.even mx); auto.
Qed.

(** The second shift of [binary_round_aux]: a rounded mantissa of 53
    digits is kept, and [2^53] is renormalised to [2^52]. *)
Lemma round_renormalise (q e : Z) :
  2 ^ 52 <= q <= 2 ^ 53 -> -1074 <= e -> e + 1 <= 971 ->
  exists (mf : positive) (ef : Z),
    (let '(mrs, e') := shr_fexp prec emax q e loc_Exact in
     match shr_m mrs with
     | Z0 => S754_zero false
     | Z.pos m0 => if e' <=? emax - prec then S754_finite false m0 e' else S754_infinity false
     | Z.neg _ => S754_nan
     end) = S754_finite false mf ef
    /\ 2 ^ 52 <= Z.pos mf < 2 ^ 53
    /\ e <= ef <= e + 1
    /\ Z.pos mf * 2 ^ (ef - e) = q.
Proof.
  intros Hq He1 He2. destruct q as [|p|p]; [simpl in Hq; lia| |lia].
  destruct (decide (Z.pos p < 2 ^ 53)) as [Hlt|Hge].
  - exists p, e. unfold shr_fexp. cbn [Zdigits2].
    rewrite (digits2_pos_unique p 53) by (change (53 - 1) with 52; lia).
    replace (fexp prec emax (53 + e) - e) with 0
      by (unfold fexp, SpecFloat.emin, prec, emax; lia).
    cbn [shr shr_record_of_loc shr_m].
    replace (e <=? emax - prec) with true
      by (symmetry; apply Z.leb_le; unfold prec, emax; lia).
    repeat split; try lia. rewrite Z.sub_diag. simpl. lia.
  - assert (Hp : p = 9007199254740992%positive) by (change (2 ^ 53) with 9007199254740992 in *; lia).
    subst p. exists 4503599627370496%positive, (e + 1).
    unfold shr_fexp. cbn [Zdigits2].
    change (Z.pos (digits2_pos 9007199254740992)) with 54.
    replace (fexp prec emax (54 + e) - e) with 1
      by (unfold fexp, SpecFloat.emin, prec, emax; lia).
    cbn [shr shr_record_of_loc SpecFloat.iter_pos shr_1 shr_m].
    replace (e + 1 <=? emax - prec) with true
      by (symmetry; apply Z.leb_le; unfold prec, emax; lia).
    repeat split; try done; try lia.
    replace (e + 1 - e) with 1 by lia. done.
Qed.

(** Rounding a mantissa of [53 + n] digits to 53 digits, away from the
    subnormal and overflow ranges: the result is a normal number whose
    value is one of the two multiples of [2^n] around the mantissa. *)
Lemma binary_round_aux_normal (M : positive) (E : Z) (n : positive) :
  Z.pos (digits2_pos M) = 53 + Z.pos n ->
  -1074 <= E + Z.pos n ->
  E + Z.pos n + 1 <= 971 ->
  exists (mf : positive) (ef q : Z),
    binary_round_aux prec emax false (Z.pos M) E loc_Exact = S754_finite false mf ef
    /\ 2 ^ 52 <= Z.pos mf < 2 ^ 53
    /\ E + Z.pos n <= ef <= E + Z.pos n + 1
    /\ Z.pos mf * 2 ^ (ef - E) = q * 2 ^ Z.pos n
    /\ (q = Z.pos M / 2 ^ Z.pos n \/ q = Z.pos M / 2 ^ Z.pos n + 1).
Proof.
  intros HD He1 He2.
  pose proof (digits2_pos_bounds M) as [Blo Bhi]. rewrite HD in Blo, Bhi.
  replace (53 + Z.pos n - 1) with (52 + Z.pos n) in Blo by lia.
  rewrite Z.pow_add_r in Blo, Bhi by lia.
  assert (Hpow : 0 < 2 ^ Z.pos n) by (apply Z.pow_pos_nonneg; lia).
  set (q0 := Z.pos M / 2 ^ Z.pos n).
  assert (Hq0 : 2 ^ 52 <= q0 < 2 ^ 53).
  { subst q0. split.
    - apply Z.div_le_lower_bound; lia.
    - apply Z.div_lt_upper_bound; lia. }
  unfold binary_round_aux. unfold shr_fexp at 1. cbn [Zdigits2]. rewrite HD.
  replace (fexp prec emax (53 + Z.pos n + E) - E) with (Z.pos n)
    by (unfold fexp, SpecFloat.emin, prec, emax; lia).
  cbn [shr shr_record_of_loc].
  set (mrs := SpecFloat.iter_pos shr_1 n _).
  assert (Em : shr_m mrs = q0).
  { subst mrs q0. by apply iter_pos_shr_1_m. }
  set (q := round_nearest_even (shr_m mrs) (loc_of_shr_record mrs)).
  assert (Hq : q = q0 \/ q = q0 + 1).
  { subst q. rewrite <- Em. apply round_nearest_even_cases. }
  destruct (round_renormalise q (E + Z.pos n)) as (mf & ef & Hr & Hmf & Hef & Hval);
    [lia|lia|lia|].
  exists mf, ef, q. split; [exact Hr|]. split; [done|]. split; [done|].
  split; [|done].
  replace (ef - E) with (ef - (E + Z.pos n) + Z.pos n) by lia.
  rewrite Z.pow_add_r by lia. rewrite Z.mul_assoc, Hval. done.
Qed.

(** The product of two normal numbers, away from the subnormal and
    overflow ranges, is a normal number within [2^53] units of the exact
    product of the mantissas. *)
Lemma SFmul_normal_value (mR mc : positive) (eR ec : Z) :
  2 ^ 52 <= Z.pos mR < 2 ^ 53 -> 2 ^ 52 <= Z.pos mc < 2 ^ 53 ->
  -1074 <= eR + ec + 52 -> eR + ec + 54 <= 971 ->
  exists (mf : positive) (ef : Z),
    SFmul prec emax (S754_finite false mR eR) (S754_finite false mc ec)
    = S754_finite false mf ef
    /\ 2 ^ 52 <= Z.pos mf < 2 ^ 53
    /\ eR + ec + 52 <= ef <= eR + ec + 54
    /\ Z.pos mR * Z.pos mc - 2 ^ 53 < Z.pos mf * 2 ^ (ef - (eR + ec))
       <= Z.pos mR * Z.pos mc + 2 ^ 53.
Proof.
  intros HR Hc Hlo Hhi. cbn [SFmul xorb].
  set (M := (mR * mc)%positive).
  assert (HM : Z.pos M = Z.pos mR * Z.pos mc) by (subst M; lia).
  assert (Hb : 2 ^ 104 <= Z.pos M < 2 ^ 106).
  { rewrite HM. change (2 ^ 104) with (2 ^ 52 * 2 ^ 52).
    change (2 ^ 106) with (2 ^ 53 * 2 ^ 53). nia. }
  assert (Hn : exists n : positive,
             Z.pos (digits2_pos M) = 53 + Z.pos n /\ 52 <= Z.pos n <= 53).
  { destruct (decide (Z.pos M < 2 ^ 105)) as [Hlt|Hge].
    - exists 52%positive. split; [|lia].
      apply digits2_pos_unique. change (53 + 52 - 1) with 104.
      change (53 + 52) with 105. lia.
    - exists 53%positive. split; [|lia].
      apply digits2_pos_unique. change (53 + 53 - 1) with 105.
      change (53 + 53) with 106. lia. }
  destruct Hn as (n & HD & Hn).
  destruct (binary_round_aux_normal M (eR + ec) n HD) as (mf & ef & q & Hr & Hmf & Hef & Hval & Hq);
    [lia|lia|].
  exists mf, ef. split; [exact Hr|]. split; [done|]. split; [lia|].
  rewrite Hval, <- HM.
  assert (Hpow : 0 < 2 ^ Z.pos n) by (apply Z.pow_pos_nonneg; lia).
  assert (Hp53 : 2 ^ Z.pos n <= 2 ^ 53) by (apply Z.pow_le_mono_r; lia).
  pose proof (Z.mul_div_le (Z.pos M) (2 ^ Z.pos n) Hpow) as Hd1.
  pose proof (Z.mul_succ_div_gt (Z.pos M) (2 ^ Z.pos n) Hpow) as Hd2.
  destruct Hq as [-> | ->]; lia.
Qed.

(** Two normal numbers compare as their values do. *)
Lemma SFltb_normal (m1 m2 : positive) (e1 e2 E : Z) :
  2 ^ 52 <= Z.pos m1 < 2 ^ 53 -> 2 ^ 52 <= Z.pos m2 < 2 ^ 53 ->
  E <= e1 -> E <= e2 ->
  Z.pos m1 * 2 ^ (e1 - E) < Z.pos m2 * 2 ^ (e2 - E) ->
  SFltb (S754_finite false m1 e1) (S754_finite false m2 e2) = true.
Proof.
  intros H1 H2 He1 He2 Hv. unfold SFltb, SFcompare.
  destruct (Z.compare_spec e1 e2) as [Heq|Hlt|Hgt]; [|done|].
  - subst e2.
    assert (Hpow : 0 < 2 ^ (e1 - E)) by (apply Z.pow_pos_nonneg; lia).
    assert (Hm : Z.pos m1 < Z.pos m2) by nia.
    change (Pos.compare_cont Eq m1 m2) with (m1 ?= m2)%positive.
    by rewrite (proj2 (Pos.compare_lt_iff m1 m2)) by lia.
  - exfalso.
    replace (e1 - E) with ((e1 - e2) + (e2 - E)) in Hv by lia.
    rewrite Z.pow_add_r in Hv by lia.
    assert (Ha : 0 < 2 ^ (e2 - E)) by (apply Z.pow_pos_nonneg; lia).
    assert (Hb : 2 ^ 1 <= 2 ^ (e1 - e2)) by (apply Z.pow_le_mono_r; lia).
    change (2 ^ 1) with 2 in Hb. change (2 ^ 52) with 4503599627370496 in *.
    change (2 ^ 53) with 9007199254740992 in *.
    set (a := 2 ^ (e2 - E)) in *. set (b := 2 ^ (e1 - e2)) in *.
    assert (H3 : Z.pos m2 < Z.pos m1 * b) by nia.
    assert (H4 : Z.pos m2 * a < Z.pos m1 * b * a)
      by (apply Z.mul_lt_mono_pos_r; lia).
    rewrite Z.mul_assoc in Hv. lia.
Qed.

(** The product of a normal number by 6371.0 is below its product by
    6371.008. *)
Lemma SFmul_radius_lt (mc : positive) (ec : Z) :
  2 ^ 52 <= Z.pos mc < 2 ^ 53 -> -1074 <= ec <= 948 ->
  SFltb (SFmul prec emax (S754_finite false 7004988580560896 (-40))
           (S754_finite false mc ec))
        (SFmul prec emax (S754_finite false 7004997376653918 (-40))
           (S754_finite false mc ec)) = true.
Proof.
  intros Hc He.
  destruct (SFmul_normal_value 7004988580560896 mc (-40) ec)
    as (m1 & e1 & -> & Hm1 & He1 & Hv1); [done|done|lia|lia|].
  destruct (SFmul_normal_value 7004997376653918 mc (-40) ec)
    as (m2 & e2 & -> & Hm2 & He2 & Hv2); [done|done|lia|lia|].
  apply (SFltb_normal m1 m2 e1 e2 (-40 + ec)); [done|done|lia|lia|].
  change (2 ^ 52) with 4503599627370496 in *.
  change (2 ^ 53) with 9007199254740992 in *. lia.
Qed.

(** Both products written out, for a normal angle. *)
Lemma SFmul_radius_repr (mc : positive) (ec : Z) :
  2 ^ 52 <= Z.pos mc < 2 ^ 53 -> -1074 <= ec <= 948 ->
  exists (m1 m2 : positive) (e1 e2 : Z),
    SFmul prec emax (S754_finite false 7004988580560896 (-40))
      (S754_finite false mc ec) = S754_finite false m1 e1
    /\ SFmul prec emax (S754_finite false 7004997376653918 (-40))
         (S754_finite false mc ec) = S754_finite false m2 e2
    /\ 2 ^ 52 <= Z.pos m1 < 2 ^ 53 /\ 2 ^ 52 <= Z.pos m2 < 2 ^ 53
    /\ -1074 <= e1 <= 970 /\ -1074 <= e2 <= 970
    /\ SFltb (S754_finite false m1 e1) (S754_finite false m2 e2) = true.
Proof.
  intros Hc He.
  destruct (SFmul_normal_value 7004988580560896 mc (-40) ec)
    as (m1 & e1 & E1 & Hm1 & He1 & Hv1); [done|done|lia|lia|].
  destruct (SFmul_normal_value 7004997376653918 mc (-40) ec)
    as (m2 & e2 & E2 & Hm2 & He2 & Hv2); [done|done|lia|lia|].
  exists m1, m2, e1, e2. repeat split; try done; try lia.
  apply (SFltb_normal m1 m2 e1 e2 (-40 + ec)); [done|done|lia|lia|].
  change (2 ^ 52) with 4503599627370496 in *.
  change (2 ^ 53) with 9007199254740992 in *. lia.
Qed.

(** Adding a normal number to itself increments its exponent. *)
Lemma SFadd_diag_normal (m : positive) (e : Z) :
  2 ^ 52 <= Z.pos m < 2 ^ 53 -> -1074 <= e <= 970 ->
  SFadd prec emax (S754_finite false m e) (S754_finite false m e)
  = S754_finite false m (e + 1).
Proof.
  intros Hm He.
  assert (Hd : Z.pos (digits2_pos m) = 53)
    by (apply digits2_pos_unique; change (53 - 1) with 52; lia).
  assert (Hd2 : Z.pos (digits2_pos m~0) = 54)
    by (change (digits2_pos m~0) with (Pos.succ (digits2_pos m)); lia).
  cbn [SFadd]. rewrite Z.min_id. unfold shl_align at 1 2. rewrite Z.sub_diag.
  cbn [fst cond_Zopp].
  replace (Z.pos m + Z.pos m) with (Z.pos m~0) by lia.
  cbn [binary_normalize]. unfold binary_round. rewrite Hd2.
  replace (fexp prec emax (54 + e)) with (e + 1)
    by (unfold fexp, SpecFloat.emin, prec, emax; lia).
  unfold shl_align. replace (e + 1 - e) with 1 by lia.
  unfold binary_round_aux. unfold shr_fexp at 1. cbn [Zdigits2]. rewrite Hd2.
  replace (fexp prec emax (54 + e) - e) with 1
    by (unfold fexp, SpecFloat.emin, prec, emax; lia).
  cbn [shr shr_record_of_loc SpecFloat.iter_pos shr_1 shr_m loc_of_shr_record
       orb round_nearest_even].
  unfold shr_fexp. cbn [Zdigits2]. rewrite Hd.
  replace (fexp prec emax (53 + (e + 1)) - (e + 1)) with 0
    by (unfold fexp, SpecFloat.emin, prec, emax; lia).
  cbn [shr shr_record_of_loc shr_m].
  replace (e + 1 <=? emax - prec) with true
    by (symmetry; apply Z.leb_le; unfold prec, emax; lia).
  done.
Qed.

Lemma SFltb_succ_exponent (m1 m2 : positive) (e1 e2 : Z) :
  SFltb (S754_finite false m1 (e1 + 1)) (S754_finite false m2 (e2 + 1))
  = SFltb (S754_finite false m1 e1) (S754_finite false m2 e2).
Proof.
  unfold SFltb, SFcompare.
  destruct (Z.compare_spec e1 e2), (Z.compare_spec (e1 + 1) (e2 + 1)); done || lia.
Qed.

End RoundingFacts.

Section RadiusProduct.

Open Scope float_scope.

(** A float between the smallest normal number and [2^1000]. *)
Lemma normal_range (c : float) :
  (0x1p-1022 <=? c) = true -> (c <=? 0x1p+1000) = true ->
  exists (mc : positive) (ec : Z),
    Prim2SF c = S754_finite false mc ec
    /\ (2 ^ 52 <= Z.pos mc < 2 ^ 53)%Z /\ (-1074 <= ec <= 948)%Z.
Proof.
  rewrite !FloatAxioms.leb_spec.
  change (Prim2SF 0x1p-1022) with (S754_finite false 4503599627370496 (-1074)).
  change (Prim2SF 0x1p+1000) with (S754_finite false 4503599627370496 948).
  pose proof (Prim2SF_valid c) as Hv.
  destruct (Prim2SF c) as [s|s| |s mc ec]; unfold SFleb, SFcompare;
    try (by destruct s); try done.
  destruct s; [done|].
  simpl in Hv. apply andb_true_iff in Hv as [Hcan Hb].
  unfold canonical_mantissa in Hcan. apply Z.eqb_eq in Hcan.
  pose proof (digits2_pos_bounds mc) as [Blo Bhi].
  assert (Hcc : forall a b, PosDef.Pos.compare_cont Eq a b = (a ?= b)%positive)
    by reflexivity.
  rewrite !Hcc. clear Hcc.
  destruct (Z.compare_spec (-1074) ec) as [Heq|Hlt|Hgt]; [| |done].
  - subst ec. destruct (Pos.compare_spec 4503599627370496 mc) as [Hm|Hm|Hm];
      [| |done]; intros _ _; exists mc, (-1074)%Z.
    + subst mc. done.
    + assert (Hd : Z.pos (digits2_pos mc) = 53%Z).
      { revert Hcan. unfold fexp, SpecFloat.emin, prec, emax.
        assert (53 <= Z.pos (digits2_pos mc))%Z; [|lia].
        destruct (decide (53 <= Z.pos (digits2_pos mc))%Z) as [|Hn]; [done|].
        assert (2 ^ Z.pos (digits2_pos mc) <= 2 ^ 52)%Z
          by (apply Z.pow_le_mono_r; lia).
        change (2 ^ 52)%Z with 4503599627370496%Z in *. lia. }
      rewrite Hd in Blo, Bhi. change (53 - 1)%Z with 52%Z in Blo.
      repeat split; try done; lia.
  - intros _.
    assert (Hd : Z.pos (digits2_pos mc) = 53%Z).
    { revert Hcan. unfold fexp, SpecFloat.emin, prec, emax. lia. }
    rewrite Hd in Blo, Bhi. change (53 - 1)%Z with 52%Z in Blo.
    destruct (Z.compare_spec ec 948) as [Heq|Hlt2|Hgt]; [| |done]; intros _;
      exists mc, ec; repeat split; try done; lia.
Qed.

(** For a normal angle the product by 6371.0 is below the product by
    6371.008. *)
Lemma radius_product_lt (c : float) :
  (0x1p-1022 <=? c) = true -> (c <=? 0x1p+1000) = true ->
  (Visualize.EARTH_RADIUS_KM * c <? TspConverter.EARTH_RADIUS_KM * c) = true.
Proof.
  intros Hlo Hhi.
  destruct (normal_range c Hlo Hhi) as (mc & ec & Hc & Hm & He).
  rewrite FloatAxioms.ltb_spec, !FloatAxioms.mul_spec, Hc.
  change (Prim2SF Visualize.EARTH_RADIUS_KM)
    with (S754_finite false 7004988580560896 (-40)).
  change (Prim2SF TspConverter.EARTH_RADIUS_KM)
    with (S754_finite false 7004997376653918 (-40)).
  by apply SFmul_radius_lt.
Qed.

(** For a normal angle, twice the product by 6371.0, added up from
    [0.0], is below twice the product by 6371.008. *)
Lemma radius_double_lt (c : float) :
  (0x1p-1022 <=? c) = true -> (c <=? 0x1p+1000) = true ->
  (0 + Visualize.EARTH_RADIUS_KM * c + Visualize.EARTH_RADIUS_KM * c
   <? 0 + TspConverter.EARTH_RADIUS_KM * c + TspConverter.EARTH_RADIUS_KM * c)
  = true.
Proof.
  intros Hlo Hhi.
  destruct (normal_range c Hlo Hhi) as (mc & ec & Hc & Hm & He).
  destruct (SFmul_radius_repr mc ec Hm He)
    as (m1 & m2 & e1 & e2 & E1 & E2 & Hm1 & Hm2 & He1 & He2 & Hlt).
  rewrite FloatAxioms.ltb_spec, !FloatAxioms.add_spec, !FloatAxioms.mul_spec, Hc.
  change (Prim2SF Visualize.EARTH_RADIUS_KM)
    with (S754_finite false 7004988580560896 (-40)).
  change (Prim2SF TspConverter.EARTH_RADIUS_KM)
    with (S754_finite false 7004997376653918 (-40)).
  change (Prim2SF 0) with (S754_zero false).
  unfold SF64add, SF64mul. rewrite E1, E2.
  assert (H0 : forall M E, SFadd prec emax (S754_zero false) (S754_finite false M E)
                           = S754_finite false M E) by reflexivity.
  rewrite !H0. clear H0.
  rewrite !SFadd_diag_normal by done.
  by rewrite SFltb_succ_exponent.
Qed.

End RadiusProduct.

(** ** The direction of a distance and the two radii *)

Section DirectionFacts.

Import PyFloat LibmSpec DistanceSpec.
Open Scope float_scope.

Variable m : Libm.

(** The central angle does not depend on the direction, errors
    included. *)
Lemma central_angle_sym (lat1 lon1 lat2 lon2 : float) :
  sin_is_odd m ->
  AngleSpec.central_angle m lat2 lon2 lat1 lon1
  = AngleSpec.central_angle m lat1 lon1 lat2 lon2.
Proof.
  intros Hodd. unfold AngleSpec.central_angle.
  rewrite (sin2_swap m lat2 lat1) by done.
  destruct (PyMath.sin m (radians (lat2 - lat1) / 2)) as [s1|e]; simpl; [|done].
  destruct (PyMath.pow2 m s1) as [p1|e]; simpl; [|done].
  destruct (PyMath.cos m (radians lat2)) as [c2|e2] eqn:E2,
           (PyMath.cos m (radians lat1)) as [c1|e1] eqn:E1; simpl; try done.
  - rewrite (sin2_swap m lon2 lon1) by done. by rewrite (fmul_comm c2 c1).
  - apply math_1_raise in E1, E2. by subst.
Qed.

(** The two totals of a tour of two points, in either order. *)
Lemma two_point_totals (r0 r1 : row) (c : float) (tour_order : list Z) :
  sin_is_odd m ->
  AngleSpec.central_angle m (row_lat r0) (row_lon r0) (row_lat r1) (row_lon r1)
  = Ok c ->
  tour_order = [1; 2]%Z \/ tour_order = [2; 1]%Z ->
  Visualize.total_distance m [r0; r1] tour_order
  = Ok (0 + Visualize.EARTH_RADIUS_KM * c + Visualize.EARTH_RADIUS_KM * c)
  /\ Solver._calculate_distance m [r0; r1] tour_order
     = Ok (0 + TspConverter.EARTH_RADIUS_KM * c + TspConverter.EARTH_RADIUS_KM * c).
Proof.
  intros Hodd Hc Horder.
  pose proof Hc as Hc'. rewrite <- central_angle_sym in Hc' by done.
  destruct (haversine_is_radius_times_angle m
              (row_lat r0) (row_lon r0) (row_lat r1) (row_lon r1)) as [T01 V01].
  destruct (haversine_is_radius_times_angle m
              (row_lat r1) (row_lon r1) (row_lat r0) (row_lon r0)) as [T10 V10].
  rewrite Hc in T01, V01. rewrite Hc' in T10, V10. simpl in T01, V01, T10, V10.
  unfold Visualize.total_distance, Solver._calculate_distance.
  destruct Horder as [-> | ->]; simpl; unfold iloc, getitem; simpl;
    by rewrite ?T01, ?V01, ?T10, ?V10; simpl; rewrite ?T01, ?V01, ?T10, ?V10.
Qed.

End DirectionFacts.

(** X9. Both haversine functions return the same float, or raise the same
    error, for a pair of points taken in either direction, when the sine
    of the C library is odd. *)
Theorem haversine_is_symmetric (m : Libm) (lat1 lon1 lat2 lon2 : float) :
  LibmSpec.sin_is_odd m ->
  TspConverter.haversine_distance m lat2 lon2 lat1 lon1
  = TspConverter.haversine_distance m lat1 lon1 lat2 lon2
  /\ Visualize.haversine_distance m lat2 lon2 lat1 lon1
     = Visualize.haversine_distance m lat1 lon1 lat2 lon2.
Proof.
  intros Hodd.
  destruct (haversine_is_radius_times_angle m lat1 lon1 lat2 lon2) as [-> ->].
  destruct (haversine_is_radius_times_angle m lat2 lon2 lat1 lon1) as [-> ->].
  by rewrite central_angle_sym.
Qed.

Lemma haversine_is_symmetric_witness :
  TspConverter.haversine_distance Samples.libm_axis 0 180 0 0
  = TspConverter.haversine_distance Samples.libm_axis 0 0 0 180
  /\ Visualize.haversine_distance Samples.libm_axis 0 180 0 0
     = Visualize.haversine_distance Samples.libm_axis 0 0 0 180.
Proof.
  apply (haversine_is_symmetric Samples.libm_axis 0 0 0 180 libm_axis_sin_odd).
Defined.

(** X10. Whenever the central angle of two points is a positive normal float
    (up to 2^1000), the distance of the map script is strictly below the
    distance of the converter: the float64 products by 6371.0 and by
    6371.008 never round to the same float. *)
Theorem map_distance_is_smaller (m : Libm) (lat1 lon1 lat2 lon2 c : float) :
  AngleSpec.central_angle m lat1 lon1 lat2 lon2 = Ok c ->
  (0x1p-1022 <=? c)%float = true ->
  (c <=? 0x1p+1000)%float = true ->
  exists v t,
    Visualize.haversine_distance m lat1 lon1 lat2 lon2 = Ok v
    /\ TspConverter.haversine_distance m lat1 lon1 lat2 lon2 = Ok t
    /\ (v <? t)%float = true.
Proof.
  intros Hc Hlo Hhi.
  destruct (haversine_is_radius_times_angle m lat1 lon1 lat2 lon2) as [Ht Hv].
  rewrite Hc in Ht, Hv. eexists _, _. split; [exact Hv|]. split; [exact Ht|].
  by apply radius_product_lt.
Qed.

Lemma map_distance_is_smaller_witness :
  exists v t,
    Visualize.haversine_distance Samples.libm_equator 0 0 0 80 = Ok v
    /\ TspConverter.haversine_distance Samples.libm_equator 0 0 0 80 = Ok t
    /\ (v <? t)%float = true.
Proof.
  apply (map_distance_is_smaller Samples.libm_equator 0 0 0 80
           0x1.657184ae74486p+0%float); vm_compute; reflexivity.
Defined.

(** X11. On a table of two points and a tour over both, in either order, the
    total shown on the map is strictly below the total the pipeline
    reports, whenever the central angle between the two points is a
    positive normal float (up to 2^1000) and the sine of the C library is
    odd. *)
Theorem map_total_is_smaller_on_two_points (m : Libm) (r0 r1 : row) (c : float)
    (tour_order : list Z) :
  LibmSpec.sin_is_odd m ->
  AngleSpec.central_angle m (row_lat r0) (row_lon r0) (row_lat r1) (row_lon r1) = Ok c ->
  (0x1p-1022 <=? c)%float = true ->
  (c <=? 0x1p+1000)%float = true ->
  tour_order = [1; 2] \/ tour_order = [2; 1] ->
  exists map_total reported,
    Visualize.total_distance m [r0; r1] tour_order = Ok map_total
    /\ Solver._calculate_distance m [r0; r1] tour_order = Ok reported
    /\ (map_total <? reported)%float = true.
Proof.
  intros Hodd Hc Hlo Hhi Horder.
  destruct (two_point_totals m r0 r1 c tour_order Hodd Hc Horder) as [Hv Ht].
  eexists _, _. split; [exact Hv|]. split; [exact Ht|].
  by apply radius_double_lt.
Qed.

Lemma map_total_is_smaller_on_two_points_witness :
  exists map_total reported,
    Visualize.total_distance Samples.libm_axis Samples.antipodes [2; 1] = Ok map_total
    /\ Solver._calculate_distance Samples.libm_axis Samples.antipodes [2; 1] = Ok reported
    /\ (map_total <? reported)%float = true.
Proof.
  apply (map_total_is_smaller_on_two_points Samples.libm_axis
           {| row_id := "a"; row_lat := 0; row_lon := 0 |}
           {| row_id := "b"; row_lat := 0; row_lon := 180 |}
           0x1.921fb54442d18p+1%float [2; 1] libm_axis_sin_odd);
    [vm_compute; reflexivity..|by right].
Defined.

(** ** Reading a tour file back *)

Section TourFileFacts.

Import PyStr TourParser TourFileSpec.
























End TourFileFacts.



(** ** The two totals of a tour *)

Section SumRounding.

Import SumSpec.











End SumRounding.

Section SumTotals.

Import SumSpec.

Variable m : Libm.






End SumTotals.


